(** * go-loadbalancer: weighted least connections, health probes, dispatch

    A shallow embedding of [internal/balancer] (server state, [Ratio],
    [NextServer], [HealthCheck], [performHealthChecks], [ServeHTTP]) and of
    [parseServerInput] from [cmd/main.go], followed by the properties of the
    design document that are checked against it.

    Modelling conventions.
    - Go's fixed-width integers are [Z] with the wrap-around written out
      ([atomic.Int32], [atomic.Uint32], [atomic.Uint64], [atomic.Int64]);
      [int] is taken to be 64 bits wide.
    - [float64] is IEEE 754 binary64 as specified by the standard library's
      [SpecFloat] ([prec = 53], [emax = 1024]); conversions from integers
      round to nearest even, as Go's conversions do.
    - [wlc.servers] is a slice of pointers to servers that are allocated one
      per configured backend; a pointer is represented by the position of its
      server in the pool, and the nil pointer by [None].
    - The reverse proxy and the probe transport are external: their outcome
      is an input of the operation that calls them.
    - Requests and the health monitor run concurrently. Two granularities
      are used: whole operations ([step]: a request from its entry to the
      call of the reverse proxy, a probe with its stores) for the
      properties that no finer interleaving can break, and atomic
      operations ([atomic_step]: one load, store or increment at a time)
      for the relation between the request counters and for the guard. *)

From Stdlib Require Import ZArith Zpower List Bool Lia String Ascii.
From Stdlib Require Import Floats.SpecFloat.
Import ListNotations.
Local Open Scope Z_scope.

(** ** Fixed-width integers *)

Module GoInt.

Definition wrap_int32 (z : Z) : Z := (z + 2 ^ 31) mod 2 ^ 32 - 2 ^ 31.
Definition wrap_uint32 (z : Z) : Z := z mod 2 ^ 32.
Definition wrap_uint64 (z : Z) : Z := z mod 2 ^ 64.

Definition int32_range (z : Z) : Prop := - 2 ^ 31 <= z < 2 ^ 31.
Definition uint64_range (z : Z) : Prop := 0 <= z < 2 ^ 64.
Definition int_range (z : Z) : Prop := - 2 ^ 63 <= z < 2 ^ 63.

Definition int_rangeb (z : Z) : bool := (- 2 ^ 63 <=? z) && (z <? 2 ^ 63).

End GoInt.
Import GoInt.

(** ** binary64 *)

Module Float64.

Definition prec : Z := 53.
Definition emax : Z := 1024.

Definition float64 : Type := spec_float.

(** [float64(z)] for an integer [z]: rounding to nearest, ties to even. *)
Definition of_Z (z : Z) : float64 := binary_normalize prec emax z 0 false.

Definition div : float64 -> float64 -> float64 := SFdiv prec emax.
Definition ltb : float64 -> float64 -> bool := SFltb.
Definition eqb : float64 -> float64 -> bool := SFeqb.

Definition zero : float64 := S754_zero false.

(** The constant [1e18]: it is a binary64 number,
    [7812500000000000 * 2^7], and [float64(10^18)] is that number. *)
Definition lit_1e18 : float64 := S754_finite false 7812500000000000 7.

End Float64.
Import Float64.

(** ** Server (server.go) *)

Record Server : Type := mkServer {
  URL : string;
  ActiveConnections : Z;   (* atomic.Int32 *)
  Weight : Z;              (* int *)
  RequestCount : Z;        (* atomic.Uint64 *)
  IsHealthy : bool;        (* atomic.Bool *)
  FailureCount : Z;        (* atomic.Uint32 *)
  LastCheckTime : Z        (* atomic.Int64 *)
}.

Definition Ratio (s : Server) : float64 :=
  if negb (IsHealthy s) then lit_1e18
  else
    let conn := of_Z (ActiveConnections s) in
    let w := of_Z (Weight s) in
    if eqb w zero then lit_1e18
    else div conn w.

(** ** Selection (NextServer) *)

(** The [for _, server := range wlc.servers] loop; [i] is the position of the
    head of [l] in the pool. *)
Fixpoint NextServer_loop (i : nat) (l : list Server)
    (bestServer : option nat) (bestRatio : float64) : option nat :=
  match l with
  | [] => bestServer
  | server :: rest =>
      let ratio := Ratio server in
      if ltb ratio bestRatio
      then NextServer_loop (S i) rest (Some i) ratio
      else NextServer_loop (S i) rest bestServer bestRatio
  end.

Definition NextServer (servers : list Server) : option nat :=
  match servers with
  | [] => None
  | _ => NextServer_loop 0 servers None lit_1e18
  end.

(** ** Health probes (HealthCheck, performHealthChecks) *)

(** What [client.Get(s.URL.String() + "/health")] produced. *)
Inductive probe_result : Type :=
| TransportError
| Response (status : Z).

Definition StatusOK : Z := 200.
Definition StatusServiceUnavailable : Z := 503.

Inductive HealthError : Type :=
| ErrCheckFailed
| ErrCheckStatus (status : Z).

(** [now] is [time.Now().Unix()] at the call. *)
Definition HealthCheck (now : Z) (r : probe_result) (s : Server)
  : Server * option HealthError :=
  let s1 := mkServer (URL s) (ActiveConnections s) (Weight s) (RequestCount s)
                     (IsHealthy s) (FailureCount s) now in
  let fail (e : HealthError) :=
    (mkServer (URL s1) (ActiveConnections s1) (Weight s1) (RequestCount s1)
              (IsHealthy s1) (wrap_uint32 (FailureCount s1 + 1))
              (LastCheckTime s1), Some e) in
  match r with
  | TransportError => fail ErrCheckFailed
  | Response status =>
      if negb (status =? StatusOK) then fail (ErrCheckStatus status)
      else
        (mkServer (URL s1) (ActiveConnections s1) (Weight s1) (RequestCount s1)
                  (IsHealthy s1) 0 (LastCheckTime s1), None)
  end.

(** The body of the loop of [performHealthChecks] for one server (the log
    lines on a health transition are not modelled). *)
Definition probe_server (now : Z) (r : probe_result) (s : Server) : Server :=
  let '(s', err) := HealthCheck now r s in
  let isHealthy := match err with None => true | Some _ => false end in
  mkServer (URL s') (ActiveConnections s') (Weight s') (RequestCount s')
           isHealthy (FailureCount s') (LastCheckTime s').

(** ** The balancer (loadbalancer.go) *)

Record WeightedLeastConnection : Type := mkWLC {
  servers : list Server;
  totalRequests : Z        (* uint64, guarded by mu2 *)
}.

Definition NewWeightedLeastConnection (servers : list Server)
  : WeightedLeastConnection :=
  mkWLC servers 0.

(** A store through the pointer at position [i]. *)
Fixpoint update_server (i : nat) (f : Server -> Server) (l : list Server)
  : list Server :=
  match l, i with
  | [], _ => []
  | s :: rest, O => f s :: rest
  | s :: rest, S j => s :: update_server j f rest
  end.

(** [env i] is the clock reading and the transport's answer when the server
    at position [i] is probed. *)
Fixpoint performHealthChecks_loop (env : nat -> Z * probe_result) (i : nat)
    (l : list Server) : list Server :=
  match l with
  | [] => []
  | server :: rest =>
      probe_server (fst (env i)) (snd (env i)) server
        :: performHealthChecks_loop env (S i) rest
  end.

Definition performHealthChecks (env : nat -> Z * probe_result)
    (wlc : WeightedLeastConnection) : WeightedLeastConnection :=
  mkWLC (performHealthChecks_loop env 0 (servers wlc)) (totalRequests wlc).

(** *** Reporting endpoints *)

Record ServerMetrics : Type := mkServerMetrics {
  m_host : string;
  m_healthy : bool;
  m_weight : Z;
  m_active : Z;
  m_total : Z;
  m_failures : Z;
  m_last_check : Z;
  m_ratio : float64
}.

Inductive response : Type :=
| PlainResponse (status : Z) (body : string)
| MetricsResponse (totalReqs : Z) (backends : nat) (per_server : list ServerMetrics)
| ProxyResponse (status : Z).

Definition healthyCount (l : list Server) : nat :=
  List.length (filter IsHealthy l).

Definition handleHealthEndpoint (wlc : WeightedLeastConnection) : response :=
  if Nat.eqb (healthyCount (servers wlc)) 0
  then PlainResponse StatusServiceUnavailable "UNHEALTHY: No healthy backends"
  else PlainResponse StatusOK "OK".

(** [u.Host] for a URL [scheme://authority...] in its [String()] form, as
    the URLs of the pool are ([NewServer] is given [http://addr] or
    [https://addr]): the authority is what follows the first [//] up to the
    next [/], [?] or [#], and the host what follows the last [@] of the
    authority (a host in which nothing is escaped). *)
Fixpoint after_slashes (u : string) : string :=
  match u with
  | String a (String b rest as tl) =>
      if (Ascii.eqb a "/" && Ascii.eqb b "/")%bool then rest
      else after_slashes tl
  | _ => EmptyString
  end.

Fixpoint authority (u : string) : string :=
  match u with
  | EmptyString => EmptyString
  | String c rest =>
      if (Ascii.eqb c "/" || Ascii.eqb c "?" || Ascii.eqb c "#")%bool
      then EmptyString
      else String c (authority rest)
  end.

Fixpoint has_userinfo (a : string) : bool :=
  match a with
  | EmptyString => false
  | String c rest => (Ascii.eqb c "@" || has_userinfo rest)%bool
  end.

Fixpoint after_userinfo (a : string) : string :=
  match a with
  | EmptyString => EmptyString
  | String c rest =>
      if has_userinfo rest then after_userinfo rest
      else if Ascii.eqb c "@" then rest
      else a
  end.

Definition URL_Host (u : string) : string :=
  after_userinfo (authority (after_slashes u)).

Definition server_metrics (s : Server) : ServerMetrics :=
  mkServerMetrics (URL_Host (URL s)) (IsHealthy s) (Weight s) (ActiveConnections s)
                  (RequestCount s) (FailureCount s) (LastCheckTime s) (Ratio s).

(** The report when nothing runs between its loads ([atomic_step] below
    takes them one at a time). *)
Definition handleMetricsEndpoint (wlc : WeightedLeastConnection) : response :=
  MetricsResponse (totalRequests wlc) (List.length (servers wlc))
                  (map server_metrics (servers wlc)).

(** *** ServeHTTP *)

(** What [server.ReverseProxy.ServeHTTP(w, r)] did: it wrote a response, or
    it panicked. *)
Inductive forward_result : Type :=
| Forwarded (status : Z)
| ForwardPanic.

(** Where a request stands once [ServeHTTP] has run up to the call of the
    reverse proxy. *)
Inductive entered : Type :=
| Finished (r : response)
| Forwarding (server : nat).

Inductive outcome : Type :=
| Responded (r : response)
| Panicked.

(** [http.Error] writes the message followed by a newline. *)
Definition unavailable : response :=
  PlainResponse StatusServiceUnavailable
    "Service Unavailable: No healthy backend servers available.
".

Definition acquire (s : Server) : Server :=
  mkServer (URL s) (wrap_int32 (ActiveConnections s + 1)) (Weight s)
           (wrap_uint64 (RequestCount s + 1)) (IsHealthy s) (FailureCount s)
           (LastCheckTime s).

Definition release (s : Server) : Server :=
  mkServer (URL s) (wrap_int32 (ActiveConnections s - 1)) (Weight s)
           (RequestCount s) (IsHealthy s) (FailureCount s) (LastCheckTime s).

(** [ServeHTTP] from the guard on the selected pointer up to the call of the
    reverse proxy. A position outside the pool stands for no server: the
    pointers [NextServer] returns are positions of the pool. *)
Definition ServeHTTP_dispatch (wlc : WeightedLeastConnection)
    (server : option nat) : entered * WeightedLeastConnection :=
  match server with
  | None => (Finished unavailable, wlc)
  | Some i =>
      match nth_error (servers wlc) i with
      | None => (Finished unavailable, wlc)
      | Some s =>
          if negb (IsHealthy s) then (Finished unavailable, wlc)
          else
            (Forwarding i,
             mkWLC (update_server i acquire (servers wlc))
                   (wrap_uint64 (totalRequests wlc + 1)))
      end
  end.

Definition reserved_health (path : string) : bool :=
  (String.eqb path "/health" || String.eqb path "/healthz")%bool.

Definition reserved_metrics (path : string) : bool :=
  String.eqb path "/metrics".

Definition ServeHTTP_enter (wlc : WeightedLeastConnection) (path : string)
  : entered * WeightedLeastConnection :=
  if reserved_health path then (Finished (handleHealthEndpoint wlc), wlc)
  else if reserved_metrics path then (Finished (handleMetricsEndpoint wlc), wlc)
  else ServeHTTP_dispatch wlc (NextServer (servers wlc)).

(** The deferred [server.ActiveConnections.Add(-1)]. *)
Definition ServeHTTP_exit (wlc : WeightedLeastConnection) (i : nat)
  : WeightedLeastConnection :=
  mkWLC (update_server i release (servers wlc)) (totalRequests wlc).

(** One whole call with nothing running in between: [fwd] is what the reverse
    proxy does if it is reached. The deferred decrement runs on return and on
    panic alike. *)
Definition ServeHTTP (wlc : WeightedLeastConnection) (path : string)
    (fwd : forward_result) : outcome * WeightedLeastConnection :=
  match ServeHTTP_enter wlc path with
  | (Finished r, wlc') => (Responded r, wlc')
  | (Forwarding i, wlc') =>
      let wlc'' := ServeHTTP_exit wlc' i in
      match fwd with
      | Forwarded status => (Responded (ProxyResponse status), wlc'')
      | ForwardPanic => (Panicked, wlc'')
      end
  end.

(** *** Interleaved executions

    Requests run concurrently with each other and with the health monitor:
    between the entry of a request and its deferred decrement, other
    requests enter and leave and servers are probed. A step is one of:
    a request runs from its entry up to the call of the reverse proxy (or to
    its end, when it is answered without a proxy); the reverse proxy of a
    request in flight returns or panics and the deferred decrement runs; the
    health monitor probes one server, or a whole round of servers.

    These steps are whole operations, each taken as if nothing ran inside
    it. The atomic operations they consist of are interleaved one by one
    in [atomic_step] below. *)
Inductive event : Type :=
| EvEnter (path : string)
| EvExit (server : nat)
| EvProbe (server : nat) (now : Z) (r : probe_result)
| EvHealthChecks (env : nat -> Z * probe_result).

Record system : Type := mkSystem {
  balancer : WeightedLeastConnection;
  inflight : list nat      (* one entry per request being forwarded *)
}.

Fixpoint remove_one (i : nat) (l : list nat) : option (list nat) :=
  match l with
  | [] => None
  | j :: rest =>
      if Nat.eqb i j then Some rest
      else match remove_one i rest with
           | Some rest' => Some (j :: rest')
           | None => None
           end
  end.

(** [step ev st] is [None] when [ev] cannot happen in [st] (an exit without
    a request in flight to that server). *)
Definition step (ev : event) (st : system) : option system :=
  match ev with
  | EvEnter path =>
      match ServeHTTP_enter (balancer st) path with
      | (Finished _, wlc') => Some (mkSystem wlc' (inflight st))
      | (Forwarding i, wlc') => Some (mkSystem wlc' (i :: inflight st))
      end
  | EvExit i =>
      match remove_one i (inflight st) with
      | Some rest => Some (mkSystem (ServeHTTP_exit (balancer st) i) rest)
      | None => None
      end
  | EvProbe i now r =>
      Some (mkSystem
              (mkWLC (update_server i (probe_server now r) (servers (balancer st)))
                     (totalRequests (balancer st)))
              (inflight st))
  | EvHealthChecks env =>
      Some (mkSystem (performHealthChecks env (balancer st)) (inflight st))
  end.

Fixpoint run (evs : list event) (st : system) : option system :=
  match evs with
  | [] => Some st
  | ev :: rest =>
      match step ev st with
      | Some st' => run rest st'
      | None => None
      end
  end.

Definition start (servers : list Server) : system :=
  mkSystem (NewWeightedLeastConnection servers) [].

(** *** Atomic operations

    [ServeHTTP] holds no lock across its body: the loads of the selection,
    the guard, each of the three increments and the deferred decrement are
    atomic operations of their own, and so are the loads of the two
    reporting endpoints and the stores of the health monitor. Operations of
    other goroutines take place between any two of them. ([mu] is only ever
    read-locked; [mu2] makes the increment and the load of [totalRequests]
    atomic.) *)

(** [server.ActiveConnections.Add(1)] and [server.RequestCount.Add(1)]. *)
Definition add_active (s : Server) : Server :=
  mkServer (URL s) (wrap_int32 (ActiveConnections s + 1)) (Weight s)
           (RequestCount s) (IsHealthy s) (FailureCount s) (LastCheckTime s).

Definition add_request (s : Server) : Server :=
  mkServer (URL s) (ActiveConnections s) (Weight s)
           (wrap_uint64 (RequestCount s + 1)) (IsHealthy s) (FailureCount s)
           (LastCheckTime s).

(** [Ratio] from the load of [ActiveConnections] on: the health flag has
    been loaded and was true. *)
Definition Ratio_loaded (s : Server) : float64 :=
  let conn := of_Z (ActiveConnections s) in
  let w := of_Z (Weight s) in
  if eqb w zero then lit_1e18
  else div conn w.

(** The stores of the health monitor for one probe: [LastCheckTime.Store]
    before the request is sent, [FailureCount.Add(1)] or
    [FailureCount.Store(0)] when its outcome is known, and
    [IsHealthy.Store(err == nil)] back in [performHealthChecks] (whose load
    of the previous flag serves the log only). *)
Definition store_last_check (now : Z) (s : Server) : Server :=
  mkServer (URL s) (ActiveConnections s) (Weight s) (RequestCount s)
           (IsHealthy s) (FailureCount s) now.

Definition count_probe (r : probe_result) (s : Server) : Server :=
  let failed :=
    mkServer (URL s) (ActiveConnections s) (Weight s) (RequestCount s)
             (IsHealthy s) (wrap_uint32 (FailureCount s + 1))
             (LastCheckTime s) in
  match r with
  | TransportError => failed
  | Response status =>
      if negb (status =? StatusOK) then failed
      else
        mkServer (URL s) (ActiveConnections s) (Weight s) (RequestCount s)
                 (IsHealthy s) 0 (LastCheckTime s)
  end.

Definition store_healthy (isHealthy : bool) (s : Server) : Server :=
  mkServer (URL s) (ActiveConnections s) (Weight s) (RequestCount s)
           isHealthy (FailureCount s) (LastCheckTime s).

(** The loads of one server in the loop of [handleMetricsEndpoint] that
    follow the load of its health flag. *)
Inductive metrics_load : Type :=
| LoadActive
| LoadTotal
| LoadFailures
| LoadLastCheck
| LoadRatioHealthy
| LoadRatioActive.

Definition set_active (m : ServerMetrics) (v : Z) : ServerMetrics :=
  mkServerMetrics (m_host m) (m_healthy m) (m_weight m) v (m_total m)
                  (m_failures m) (m_last_check m) (m_ratio m).

Definition set_total (m : ServerMetrics) (v : Z) : ServerMetrics :=
  mkServerMetrics (m_host m) (m_healthy m) (m_weight m) (m_active m) v
                  (m_failures m) (m_last_check m) (m_ratio m).

Definition set_failures (m : ServerMetrics) (v : Z) : ServerMetrics :=
  mkServerMetrics (m_host m) (m_healthy m) (m_weight m) (m_active m)
                  (m_total m) v (m_last_check m) (m_ratio m).

Definition set_last_check (m : ServerMetrics) (v : Z) : ServerMetrics :=
  mkServerMetrics (m_host m) (m_healthy m) (m_weight m) (m_active m)
                  (m_total m) (m_failures m) v (m_ratio m).

Definition set_ratio (m : ServerMetrics) (v : float64) : ServerMetrics :=
  mkServerMetrics (m_host m) (m_healthy m) (m_weight m) (m_active m)
                  (m_total m) (m_failures m) (m_last_check m) v.

(** Where a request stands: the atomic operation it executes next.
    - [Selecting k b r]: in the loop of [NextServer], about to load the
      health flag of the server at position [k] (the first load of its
      [Ratio]); [InRatio k b r]: that flag was true, about to load its
      [ActiveConnections];
    - [AtGuard server]: [NextServer] has returned [server], the guard has not
      been evaluated;
    - [PastGuard i], [ActiveAdded i], [RequestCounted i]: about to execute
      [ActiveConnections.Add(1)], [RequestCount.Add(1)], [totalRequests++]
      for the server at position [i];
    - [InProxy i]: in the reverse proxy, the decrement deferred (the loads
      for the log line before it are not modelled);
    - [CountingHealthy k n]: in the loop of [handleHealthEndpoint];
    - [MetricsStart], [MetricsLoop], [MetricsEntry]: in
      [handleMetricsEndpoint], about to load [totalRequests], the health
      flag of the server at position [k], the field [next] of that server;
    - [Done]: the request has returned. *)
Inductive pc : Type :=
| Selecting (k : nat) (bestServer : option nat) (bestRatio : float64)
| InRatio (k : nat) (bestServer : option nat) (bestRatio : float64)
| AtGuard (server : option nat)
| PastGuard (server : nat)
| ActiveAdded (server : nat)
| RequestCounted (server : nat)
| InProxy (server : nat)
| CountingHealthy (k : nat) (healthyCount : nat)
| MetricsStart
| MetricsLoop (totalReqs : Z) (k : nat) (done : list ServerMetrics)
| MetricsEntry (totalReqs : Z) (k : nat) (next : metrics_load)
    (entry : ServerMetrics) (done : list ServerMetrics)
| Done.

(** [if ratio < bestRatio { bestRatio = ratio; bestServer = server }] for
    the server at position [k], and on to the next one. *)
Definition next_best (k : nat) (ratio : float64) (bestServer : option nat)
    (bestRatio : float64) : pc :=
  if ltb ratio bestRatio then Selecting (S k) (Some k) ratio
  else Selecting (S k) bestServer bestRatio.

(** Where a request that enters [ServeHTTP] on [path] starts. *)
Definition entry_pc (wlc : WeightedLeastConnection) (path : string) : pc :=
  if reserved_health path then CountingHealthy 0 0
  else if reserved_metrics path then MetricsStart
  else
    match servers wlc with
    | [] => AtGuard None
    | _ => Selecting 0 None lit_1e18
    end.

(** The next atomic operation of a request at [p]: the shared state and the
    position of the request after it. [None]: the request has no operation
    to execute ([InProxy] waits for the reverse proxy, [Done] is over; a
    pointer is never outside the pool). *)
Definition request_step (wlc : WeightedLeastConnection) (p : pc)
  : option (WeightedLeastConnection * pc) :=
  let pool := servers wlc in
  match p with
  | Selecting k bestServer bestRatio =>
      match nth_error pool k with
      | None => Some (wlc, AtGuard bestServer)
      | Some s =>
          if negb (IsHealthy s)
          then Some (wlc, next_best k lit_1e18 bestServer bestRatio)
          else Some (wlc, InRatio k bestServer bestRatio)
      end
  | InRatio k bestServer bestRatio =>
      match nth_error pool k with
      | None => None
      | Some s => Some (wlc, next_best k (Ratio_loaded s) bestServer bestRatio)
      end
  | AtGuard server =>
      match server with
      | None => Some (wlc, Done)
      | Some i =>
          match nth_error pool i with
          | None => Some (wlc, Done)
          | Some s =>
              if negb (IsHealthy s) then Some (wlc, Done)
              else Some (wlc, PastGuard i)
          end
      end
  | PastGuard i =>
      match nth_error pool i with
      | None => None
      | Some _ =>
          Some (mkWLC (update_server i add_active pool) (totalRequests wlc),
                ActiveAdded i)
      end
  | ActiveAdded i =>
      match nth_error pool i with
      | None => None
      | Some _ =>
          Some (mkWLC (update_server i add_request pool) (totalRequests wlc),
                RequestCounted i)
      end
  | RequestCounted i =>
      Some (mkWLC pool (wrap_uint64 (totalRequests wlc + 1)), InProxy i)
  | InProxy _ => None
  | CountingHealthy k healthyCount =>
      match nth_error pool k with
      | None => Some (wlc, Done)
      | Some s =>
          Some (wlc, CountingHealthy (S k)
                       (if IsHealthy s then S healthyCount else healthyCount))
      end
  | MetricsStart => Some (wlc, MetricsLoop (totalRequests wlc) 0 [])
  | MetricsLoop totalReqs k done =>
      match nth_error pool k with
      | None => Some (wlc, Done)
      | Some s =>
          Some (wlc, MetricsEntry totalReqs k LoadActive
                       (mkServerMetrics (URL_Host (URL s)) (IsHealthy s)
                                        (Weight s) 0 0 0 0 zero)
                       done)
      end
  | MetricsEntry totalReqs k next entry done =>
      match nth_error pool k with
      | None => None
      | Some s =>
          match next with
          | LoadActive =>
              Some (wlc, MetricsEntry totalReqs k LoadTotal
                           (set_active entry (ActiveConnections s)) done)
          | LoadTotal =>
              Some (wlc, MetricsEntry totalReqs k LoadFailures
                           (set_total entry (RequestCount s)) done)
          | LoadFailures =>
              Some (wlc, MetricsEntry totalReqs k LoadLastCheck
                           (set_failures entry (FailureCount s)) done)
          | LoadLastCheck =>
              Some (wlc, MetricsEntry totalReqs k LoadRatioHealthy
                           (set_last_check entry (LastCheckTime s)) done)
          | LoadRatioHealthy =>
              if negb (IsHealthy s)
              then Some (wlc, MetricsLoop totalReqs (S k)
                                (done ++ [set_ratio entry lit_1e18]))
              else Some (wlc, MetricsEntry totalReqs k LoadRatioActive
                                entry done)
          | LoadRatioActive =>
              Some (wlc, MetricsLoop totalReqs (S k)
                           (done ++ [set_ratio entry (Ratio_loaded s)]))
          end
      end
  | Done => None
  end.

(** The response that the operation completes, if it ends the request. *)
Definition request_response (wlc : WeightedLeastConnection) (p : pc)
  : option response :=
  let pool := servers wlc in
  match p with
  | AtGuard server =>
      match server with
      | None => Some unavailable
      | Some i =>
          match nth_error pool i with
          | None => Some unavailable
          | Some s => if negb (IsHealthy s) then Some unavailable else None
          end
      end
  | CountingHealthy k healthyCount =>
      match nth_error pool k with
      | None =>
          Some (if Nat.eqb healthyCount 0
                then PlainResponse StatusServiceUnavailable
                                   "UNHEALTHY: No healthy backends"
                else PlainResponse StatusOK "OK")
      | Some _ => None
      end
  | MetricsLoop totalReqs k done =>
      match nth_error pool k with
      | None => Some (MetricsResponse totalReqs (List.length pool) done)
      | Some _ => None
      end
  | _ => None
  end.

(** One atomic operation of the program: a request arrives; the request
    numbered [t] executes its next operation; the reverse proxy of the
    request [t] returns or panics and the deferred decrement runs; the
    health monitor executes one of its three stores on a server. (The
    monitor's stores are taken one by one, on any server and in any order,
    which includes the order of [HealthCheck] and [performHealthChecks].) *)
Inductive operation : Type :=
| Arrive (path : string)
| Advance (t : nat)
| ProxyReturns (t : nat) (fwd : forward_result)
| ProbeStart (server : nat) (now : Z)
| ProbeAnswer (server : nat) (r : probe_result)
| ProbeVerdict (server : nat) (isHealthy : bool).

Record concurrent : Type := mkConcurrent {
  shared : WeightedLeastConnection;
  requests : list pc       (* one entry per request, in order of arrival *)
}.

Fixpoint set_request (t : nat) (p : pc) (l : list pc) : list pc :=
  match l, t with
  | [], _ => []
  | _ :: rest, O => p :: rest
  | q :: rest, S u => q :: set_request u p rest
  end.

Definition store (i : nat) (f : Server -> Server) (st : concurrent)
  : concurrent :=
  mkConcurrent (mkWLC (update_server i f (servers (shared st)))
                      (totalRequests (shared st)))
               (requests st).

(** [atomic_step op st] is [None] when [op] cannot happen in [st]. *)
Definition atomic_step (op : operation) (st : concurrent) : option concurrent :=
  match op with
  | Arrive path =>
      Some (mkConcurrent (shared st)
                         (requests st ++ [entry_pc (shared st) path]))
  | Advance t =>
      match nth_error (requests st) t with
      | None => None
      | Some p =>
          match request_step (shared st) p with
          | None => None
          | Some (wlc', p') =>
              Some (mkConcurrent wlc' (set_request t p' (requests st)))
          end
      end
  | ProxyReturns t _ =>
      match nth_error (requests st) t with
      | Some (InProxy i) =>
          Some (mkConcurrent (ServeHTTP_exit (shared st) i)
                             (set_request t Done (requests st)))
      | _ => None
      end
  | ProbeStart i now => Some (store i (store_last_check now) st)
  | ProbeAnswer i r => Some (store i (count_probe r) st)
  | ProbeVerdict i isHealthy => Some (store i (store_healthy isHealthy) st)
  end.

(** The response written by the operation, if it completes one. *)
Definition atomic_response (op : operation) (st : concurrent)
  : option response :=
  match op with
  | Advance t =>
      match nth_error (requests st) t with
      | Some p => request_response (shared st) p
      | None => None
      end
  | ProxyReturns t fwd =>
      match nth_error (requests st) t, fwd with
      | Some (InProxy _), Forwarded status => Some (ProxyResponse status)
      | _, _ => None
      end
  | _ => None
  end.

Fixpoint atomic_run (ops : list operation) (st : concurrent)
  : option concurrent :=
  match ops with
  | [] => Some st
  | op :: rest =>
      match atomic_step op st with
      | Some st' => atomic_run rest st'
      | None => None
      end
  end.

(** The responses written along [ops], in order. *)
Fixpoint atomic_responses (ops : list operation) (st : concurrent)
  : list response :=
  match ops with
  | [] => []
  | op :: rest =>
      match atomic_step op st with
      | Some st' =>
          match atomic_response op st with
          | Some r => r :: atomic_responses rest st'
          | None => atomic_responses rest st'
          end
      | None => []
      end
  end.

Definition atomic_start (servers : list Server) : concurrent :=
  mkConcurrent (NewWeightedLeastConnection servers) [].

(** ** Library functions used by the configuration parser

    [strings.TrimSpace], [strings.Split], [strings.HasPrefix] and
    [strconv.Atoi], over strings of bytes. *)

Module GoStrings.

Definition byte (c : ascii) : N := N_of_ascii c.

Definition asciiSpace (c : ascii) : bool :=
  ((9 <=? byte c) && (byte c <=? 13) || (byte c =? 32))%N.

(** The three-byte UTF-8 encodings [b1 b2 b3] of the white space outside
    Latin-1: U+1680, U+2000..U+200A, U+2028, U+2029, U+202F, U+205F,
    U+3000. *)
Definition space3 (b1 b2 b3 : ascii) : bool :=
  ((byte b1 =? 225) && (byte b2 =? 154) && (byte b3 =? 128)
   || (byte b1 =? 226) && (byte b2 =? 128)
      && ((128 <=? byte b3) && (byte b3 <=? 138)
          || (byte b3 =? 168) || (byte b3 =? 169) || (byte b3 =? 175))
   || (byte b1 =? 226) && (byte b2 =? 129) && (byte b3 =? 159)
   || (byte b1 =? 227) && (byte b2 =? 128) && (byte b3 =? 128))%N.

(** The two-byte encodings of U+0085 and U+00A0. *)
Definition space2 (b1 b2 : ascii) : bool :=
  ((byte b1 =? 194) && ((byte b2 =? 133) || (byte b2 =? 160)))%N.

Fixpoint TrimLeftSpace (s : string) : string :=
  match s with
  | EmptyString => s
  | String b1 rest1 =>
      if asciiSpace b1 then TrimLeftSpace rest1
      else
        match rest1 with
        | EmptyString => s
        | String b2 rest2 =>
            if space2 b1 b2 then TrimLeftSpace rest2
            else
              match rest2 with
              | EmptyString => s
              | String b3 rest3 =>
                  if space3 b1 b2 b3 then TrimLeftSpace rest3 else s
              end
        end
  end.

(** The same scan from the end, on the reversed string. *)
Fixpoint TrimLeftSpace_rev (s : string) : string :=
  match s with
  | EmptyString => s
  | String b1 rest1 =>
      if asciiSpace b1 then TrimLeftSpace_rev rest1
      else
        match rest1 with
        | EmptyString => s
        | String b2 rest2 =>
            if space2 b2 b1 then TrimLeftSpace_rev rest2
            else
              match rest2 with
              | EmptyString => s
              | String b3 rest3 =>
                  if space3 b3 b2 b1 then TrimLeftSpace_rev rest3 else s
              end
        end
  end.

Definition reverse (s : string) : string :=
  string_of_list_ascii (rev (list_ascii_of_string s)).

Definition TrimSpace (s : string) : string :=
  reverse (TrimLeftSpace_rev (reverse (TrimLeftSpace s))).

(** [strings.Split(s, sep)] for a separator of one byte. *)
Fixpoint Split (s : string) (sep : ascii) : list string :=
  match s with
  | EmptyString => [EmptyString]
  | String c rest =>
      if Ascii.eqb c sep then EmptyString :: Split rest sep
      else
        match Split rest sep with
        | [] => [String c EmptyString]
        | field :: fields => String c field :: fields
        end
  end.

Definition HasPrefix (s prefix : string) : bool := String.prefix prefix s.

Definition digit (c : ascii) : option Z :=
  if ((48 <=? byte c) && (byte c <=? 57))%N
  then Some (Z.of_N (byte c) - 48) else None.

Fixpoint digits (s : string) (n : Z) : option Z :=
  match s with
  | EmptyString => Some n
  | String c rest =>
      match digit c with
      | Some d => digits rest (n * 10 + d)
      | None => None
      end
  end.

(** [strconv.Atoi]: an optional sign, then one or more decimal digits; the
    value has to fit [int]. [None] is a non-nil error. *)
Definition Atoi (s : string) : option Z :=
  match s with
  | EmptyString => None
  | String c rest =>
      let neg := Ascii.eqb c "-" in
      let body := if (neg || Ascii.eqb c "+")%bool then rest else s in
      match body with
      | EmptyString => None
      | _ =>
          match digits body 0 with
          | Some n =>
              let v := if neg then - n else n in
              if int_rangeb v then Some v else None
          | None => None
          end
      end
  end.

End GoStrings.
Import GoStrings.

(** ** Configuration (NewServer, parseServerInput) *)

Inductive ConfigError : Type :=
| ErrInvalidFormat (part : string)
| ErrInvalidWeight (rawURL : string)
| ErrParseURL (rawURL : string)
| ErrNoServers.

Section Config.

(** [url.Parse]: the parsed URL, stood for by its [String()] form, or
    [None] for an error. *)
Variable url_Parse : string -> option string.

(** [clock n] is [time.Now().Unix()] at the [n]-th construction. *)
Variable clock : nat -> Z.

Definition NewServer (now : Z) (rawURL : string) (weight : Z)
  : option Server :=
  match url_Parse rawURL with
  | None => None
  | Some u => Some (mkServer u 0 weight 0 true 0 now)
  end.

Definition with_scheme (rawURL : string) : string :=
  if (negb (HasPrefix rawURL "http://") && negb (HasPrefix rawURL "https://"))%bool
  then ("http://" ++ rawURL)%string
  else rawURL.

(** The loop over the comma-separated parts. The first component of the
    result is [servers] when the loop stops: every server [NewServer] has
    constructed (and that was logged as an added backend) so far. *)
Fixpoint parse_parts (parts : list string) (servers : list Server)
  : list Server * option ConfigError :=
  match parts with
  | [] => (servers, None)
  | part :: rest =>
      let part := TrimSpace part in
      if String.eqb part "" then parse_parts rest servers
      else
        match Split part "/" with
        | [rawURL; weightStr] =>
            let rawURL := with_scheme rawURL in
            match Atoi weightStr with
            | None => (servers, Some (ErrInvalidWeight rawURL))
            | Some weight =>
                if weight <? 1
                then (servers, Some (ErrInvalidWeight rawURL))
                else
                  match NewServer (clock (List.length servers)) rawURL weight with
                  | None => (servers, Some (ErrParseURL rawURL))
                  | Some server => parse_parts rest (servers ++ [server])
                  end
            end
        | _ => (servers, Some (ErrInvalidFormat part))
        end
  end.

(** The servers constructed during the call, and the value returned:
    an error (with a nil slice) or the pool. *)
Definition parseServerInput (input : string)
  : list Server * (ConfigError + list Server) :=
  let input := TrimSpace input in
  let parts := Split input "," in
  match parse_parts parts [] with
  | (servers, Some err) => (servers, inl err)
  | (servers, None) =>
      match servers with
      | [] => (servers, inl ErrNoServers)
      | _ => (servers, inr servers)
      end
  end.

End Config.

(** ** Notions used in the proofs *)

(** *** The order of binary64

    [key] maps the numbers to triples whose lexicographic order is the order
    of [SFcompare]. *)

Definition key (x : spec_float) : Z * (Z * Z) :=
  match x with
  | S754_zero _ => (0, (0, 0))
  | S754_nan => (0, (0, 0))
  | S754_infinity s => (if s then -2 else 2, (0, 0))
  | S754_finite s m e => if s then (-1, (- e, - Zpos m)) else (1, (e, Zpos m))
  end.

Definition lex (a b : Z * (Z * Z)) : Prop :=
  fst a < fst b \/
  (fst a = fst b /\
   (fst (snd a) < fst (snd b) \/
    (fst (snd a) = fst (snd b) /\ snd (snd a) < snd (snd b)))).

Definition nan_free (x : spec_float) : Prop := x <> S754_nan.

(** *** Shapes of binary64 values *)

Local Abbreviation dg := Zdigits2.

(** The result of [binary_round_aux] from the mantissa [m3] and the exponent
    [e3] it ends with. *)
Definition pack (s : bool) (m3 e3 : Z) : float64 :=
  match m3 with
  | Z0 => S754_zero s
  | Zpos m => if e3 <=? emax - prec then S754_finite s m e3 else S754_infinity s
  | Zneg _ => S754_nan
  end.

Definition has_sign (s : bool) (x : float64) : Prop :=
  match x with
  | S754_zero s' | S754_infinity s' | S754_finite s' _ _ => s' = s
  | S754_nan => False
  end.

(** Zero, or finite with an exponent of at most [K]. *)
Definition exp_le (K : Z) (x : float64) : Prop :=
  match x with
  | S754_zero _ => True
  | S754_finite _ _ e => e <= K
  | _ => False
  end.

(** Zero, or finite below [2 ^ M] in magnitude. *)
Definition mag_le (M : Z) (x : float64) : Prop :=
  match x with
  | S754_zero _ => True
  | S754_finite _ m e => dg (Zpos m) + e <= M
  | _ => False
  end.

(** Infinite, or finite and at least [2 ^ (M - 1)] in magnitude. *)
Definition mag_ge (M : Z) (x : float64) : Prop :=
  match x with
  | S754_infinity _ => True
  | S754_finite _ m e => M <= dg (Zpos m) + e
  | _ => False
  end.

(** *** The invariant of the selection loop *)

(** What the loop has established once the servers of [pre] are behind it. *)
Definition loop_inv (pre : list Server) (bestServer : option nat)
    (bestRatio : float64) : Prop :=
  match bestServer with
  | None =>
      bestRatio = lit_1e18 /\
      forall j sj, nth_error pre j = Some sj -> ltb (Ratio sj) lit_1e18 = false
  | Some b =>
      exists sb,
        nth_error pre b = Some sb /\ bestRatio = Ratio sb /\
        ltb (Ratio sb) lit_1e18 = true /\
        (forall j sj, nth_error pre j = Some sj -> ltb (Ratio sj) (Ratio sb) = false) /\
        (forall j sj, (j < b)%nat -> nth_error pre j = Some sj ->
                      nan_free (Ratio sj) -> ltb (Ratio sb) (Ratio sj) = true)
  end.

(** *** Schedules of requests *)

(** Events of requests only: the health monitor does not run. *)
Definition is_request (ev : event) : bool :=
  match ev with
  | EvEnter _ | EvExit _ => true
  | EvProbe _ _ _ | EvHealthChecks _ => false
  end.

(** A request that enters on a path other than the reserved ones. *)
Definition is_dispatch (ev : event) : bool :=
  match ev with
  | EvEnter path => negb (reserved_health path) && negb (reserved_metrics path)
  | _ => false
  end.

Definition dispatches (evs : list event) : nat :=
  List.length (filter is_dispatch evs).

(** A pool of one healthy server [s0] with [n] requests in flight after [k]
    dispatches. *)
Definition one_server (s0 : Server) (n k : nat) : system :=
  mkSystem
    (mkWLC [mkServer (URL s0) (wrap_int32 (Z.of_nat n)) (Weight s0)
                     (wrap_uint64 (Z.of_nat k)) true (FailureCount s0)
                     (LastCheckTime s0)]
           (wrap_uint64 (Z.of_nat k)))
    (repeat 0%nat n).

(** The sum of the per-server request counts. *)
Fixpoint sum_requests (l : list Server) : Z :=
  match l with
  | [] => 0
  | s :: rest => RequestCount s + sum_requests rest
  end.

(** *** Requests between their two increments *)

(** The number of requests that satisfy [f]. *)
Definition count_requests (f : pc -> bool) (l : list pc) : nat :=
  List.length (filter f l).

(** The request has executed [RequestCount.Add(1)] and not yet
    [totalRequests++]. *)
Definition counted_once (p : pc) : bool :=
  match p with
  | RequestCounted _ => true
  | _ => false
  end.

Definition between_increments (st : concurrent) : nat :=
  count_requests counted_once (requests st).

(** The balancer is quiescent with respect to its request counters. *)
Definition quiescent (st : concurrent) : Prop :=
  between_increments st = O.

(** The counters after [k] executions of [RequestCount.Add(1)]. *)
Definition counters_agree (k : Z) (st : concurrent) : Prop :=
  let n := Z.of_nat (between_increments st) in
  n <= k /\
  totalRequests (shared st) = wrap_uint64 (k - n) /\
  wrap_uint64 (sum_requests (servers (shared st))) = wrap_uint64 k /\
  (k < 2 ^ 64 -> sum_requests (servers (shared st)) = k) /\
  Forall (fun s => 0 <= RequestCount s) (servers (shared st)).

(** The operation is the [RequestCount.Add(1)] of a request, on the server
    at position [i]. *)
Definition counts_request (i : nat) (op : operation) (st : concurrent) : bool :=
  match op with
  | Advance t =>
      match nth_error (requests st) t with
      | Some (ActiveAdded j) => Nat.eqb i j
      | _ => false
      end
  | _ => false
  end.

(** The operation is the [totalRequests++] of a request. *)
Definition counts_total (op : operation) (st : concurrent) : bool :=
  match op with
  | Advance t =>
      match nth_error (requests st) t with
      | Some (RequestCounted _) => true
      | _ => false
      end
  | _ => false
  end.


(** *** Configuration entries *)

(** The weight field is not the decimal form of an integer of at least 1. *)
Definition weight_rejected (weightStr : string) : bool :=
  match Atoi weightStr with
  | None => true
  | Some n => n <? 1
  end.

(** A part that is an entry [address/weight] whose weight is rejected. *)
Definition bad_weight_entry (part : string) : bool :=
  let part := TrimSpace part in
  negb (String.eqb part "")
  && match Split part "/" with
     | [_; weightStr] => weight_rejected weightStr
     | _ => false
     end.

(** [s] was constructed for an entry of [parts]: the entry has an address
    and a weight [n >= 1], and [s] is the fresh server [NewServer] makes from
    them. *)
Definition constructed_from (url_Parse : string -> option string)
    (parts : list string) (s : Server) : Prop :=
  exists part addr weightStr n,
    In part parts /\ Split (TrimSpace part) "/" = [addr; weightStr] /\
    Atoi weightStr = Some n /\ 1 <= n /\ int_range n /\
    url_Parse (with_scheme addr) = Some (URL s) /\
    s = mkServer (URL s) 0 n 0 true 0 (LastCheckTime s).

(** *** Requests in flight and dispatches, per server *)

Definition in_flight_to (i : nat) (st : system) : Z :=
  Z.of_nat (count_occ Nat.eq_dec (inflight st) i).

(** The event is a request that, entering in [st], is forwarded to the
    server at position [i]. *)
Definition enters_to (i : nat) (ev : event) (st : system) : bool :=
  match ev with
  | EvEnter path =>
      match fst (ServeHTTP_enter (balancer st) path) with
      | Forwarding j => Nat.eqb i j
      | Finished _ => false
      end
  | _ => false
  end.

(** The number of requests forwarded to the server at position [i] along
    the schedule [evs] from [st]. *)
Fixpoint dispatched_to (i : nat) (evs : list event) (st : system) : nat :=
  match evs with
  | [] => 0
  | ev :: rest =>
      match step ev st with
      | Some st' =>
          ((if enters_to i ev st then 1 else 0) + dispatched_to i rest st')%nat
      | None => 0
      end
  end.

(** Every server has as many active connections as requests in flight, and
    as many requests as [r] counts for it. *)
Definition accounted (st : system) (r : nat -> nat) : Prop :=
  forall i s,
    nth_error (servers (balancer st)) i = Some s ->
    ActiveConnections s = wrap_int32 (in_flight_to i st) /\
    RequestCount s = wrap_uint64 (Z.of_nat (r i)).

(** *** What requests and probes leave alone *)

(** The parts of a server: what identifies it, what the health monitor
    writes, what the dispatcher writes. *)
Definition identity (s : Server) : string * Z := (URL s, Weight s).

Definition health_state (s : Server) : bool * Z * Z :=
  (IsHealthy s, FailureCount s, LastCheckTime s).

Definition load_state (s : Server) : Z * Z :=
  (ActiveConnections s, RequestCount s).

(** The probe got a response with status 200. *)
Definition probe_ok (r : probe_result) : bool :=
  match r with
  | TransportError => false
  | Response status => status =? StatusOK
  end.

(** *** Rounds of probes *)

(** The probes [rs] of one server, in order; each comes with the time of the
    attempt. *)
Definition probes (s : Server) (rs : list (Z * probe_result)) : Server :=
  fold_left (fun s nr => probe_server (fst nr) (snd nr) s) rs s.

(** The number of failed probes at the head of [rs]. *)
Fixpoint leading_failures (rs : list probe_result) : nat :=
  match rs with
  | [] => O
  | r :: rest => if probe_ok r then O else S (leading_failures rest)
  end.

(** The number of failed probes since the last success in [rs]. *)
Definition trailing_failures (rs : list probe_result) : nat :=
  leading_failures (rev rs).

Definition all_failed (rs : list probe_result) : bool :=
  forallb (fun r => negb (probe_ok r)) rs.

(** [StartHealthChecks]: a round at the start, then a round for every tick
    received before the context is done. [first] and [ticks] are what the
    clock and the transport answer in those rounds. *)
Definition StartHealthChecks (first : nat -> Z * probe_result)
    (ticks : list (nat -> Z * probe_result)) (wlc : WeightedLeastConnection)
  : WeightedLeastConnection :=
  fold_left (fun wlc env => performHealthChecks env wlc) ticks
            (performHealthChecks first wlc).

(** *** Entries of the configuration *)

(** The number of bytes [c] in [s]. *)
Fixpoint count_byte (c : ascii) (s : string) : nat :=
  match s with
  | EmptyString => O
  | String b rest => ((if Ascii.eqb b c then 1 else 0) + count_byte c rest)%nat
  end.

(** The entries of the input: its parts, trimmed, that are not blank. *)
Definition entries (parts : list string) : list string :=
  filter (fun part => negb (String.eqb part "")) (map TrimSpace parts).

(** An entry that does not have the two fields [address/weight]. *)
Definition malformed_entry (part : string) : bool :=
  let part := TrimSpace part in
  negb (String.eqb part "")
  && negb (Nat.eqb (List.length (Split part "/")) 2).

(** [s] is the fresh server of the entry [entry]: the entry is
    [addr/weight] with a weight [n >= 1], and the server is the one
    [NewServer] makes from [http://addr] and [n]. *)
Definition server_of_entry (url_Parse : string -> option string)
    (entry : string) (s : Server) : Prop :=
  exists addr weightStr n,
    Split entry "/" = [addr; weightStr] /\
    Atoi weightStr = Some n /\ 1 <= n /\
    url_Parse ("http://" ++ addr)%string = Some (URL s) /\
    s = mkServer (URL s) 0 n 0 true 0 (LastCheckTime s).

(** *** Requests past the guard *)

(** The request has passed the guard with the server at position [i] and
    has not reached the reverse proxy yet. *)
Definition committed_to (i : nat) (p : pc) : bool :=
  match p with
  | PastGuard j | ActiveAdded j | RequestCounted j => Nat.eqb i j
  | _ => false
  end.

(** The request is in the reverse proxy of the server at position [i]. *)
Definition in_proxy_of (i : nat) (p : pc) : bool :=
  match p with
  | InProxy j => Nat.eqb i j
  | _ => false
  end.

(** The operation stores [true] in the health flag of the server at
    position [i]. *)
Definition restores (i : nat) (op : operation) : bool :=
  match op with
  | ProbeVerdict j isHealthy => (Nat.eqb i j && isHealthy)%bool
  | _ => false
  end.

(** *** The first healthy server *)



(** *** Reports of the metrics endpoint *)





(** *** A request that runs alone *)

(** The responses of a step, as a list. *)
Definition written (r : option response) : list response :=
  match r with
  | Some resp => [resp]
  | None => []
  end.

(** The request numbered [t], among the requests [l], goes from [p] to [p']
    by operations of its own, nothing else running in between; the shared
    state goes from [wlc] to [wlc'] and the responses [rs] are written. *)
Definition runs_alone (l : list pc) (t : nat) (wlc : WeightedLeastConnection)
    (p : pc) (wlc' : WeightedLeastConnection) (p' : pc) (rs : list response)
  : Prop :=
  exists n,
    atomic_run (repeat (Advance t) n) (mkConcurrent wlc (set_request t p l))
    = Some (mkConcurrent wlc' (set_request t p' l)) /\
    atomic_responses (repeat (Advance t) n)
                     (mkConcurrent wlc (set_request t p l)) = rs.

(** Where a request stands when [ServeHTTP_enter] has returned. *)
Definition entered_pc (e : entered) : pc :=
  match e with
  | Finished _ => Done
  | Forwarding i => InProxy i
  end.

Definition entered_response (e : entered) : list response :=
  match e with
  | Finished r => [r]
  | Forwarding _ => []
  end.

(** *** Connections held by requests *)

(** The request has executed [ActiveConnections.Add(1)] on the server at
    position [i] and its deferred decrement has not run. *)
Definition holds (i : nat) (p : pc) : bool :=
  match p with
  | ActiveAdded j | RequestCounted j | InProxy j => Nat.eqb i j
  | _ => false
  end.

Definition held (i : nat) (st : concurrent) : nat :=
  count_requests (holds i) (requests st).

Definition returned (p : pc) : bool :=
  match p with
  | Done => true
  | _ => false
  end.

(** The operation is a store of the health monitor. *)
Definition is_store (op : operation) : bool :=
  match op with
  | ProbeStart _ _ | ProbeAnswer _ _ | ProbeVerdict _ _ => true
  | _ => false
  end.

(** *** Idle servers *)

(** A healthy server without active connections. *)
Definition idle_healthy (s : Server) : bool :=
  (IsHealthy s && (ActiveConnections s =? 0))%bool.

(** ** The earlier server (part_000)

    The server of the earlier revision has no failure count and no
    last-check time, and its health check looks at the transport error
    only. The loop of [performHealthChecks] is the same in every revision:
    it stores [err == nil] in the health flag. *)

Module Part000.

Record Server : Type := mkServer {
  URL : string;
  ActiveConnections : Z;   (* atomic.Int32 *)
  Weight : Z;              (* int *)
  RequestCount : Z;        (* atomic.Uint64 *)
  IsHealthy : bool         (* atomic.Bool *)
}.

Inductive HealthError : Type :=
| ErrTransport.

Definition HealthCheck (r : probe_result) (s : Server)
  : Server * option HealthError :=
  match r with
  | TransportError => (s, Some ErrTransport)
  | Response status =>
      if negb (status =? StatusOK) then (s, None) else (s, None)
  end.

Definition probe_server (r : probe_result) (s : Server) : Server :=
  let '(s', err) := HealthCheck r s in
  let isHealthy := match err with None => true | Some _ => false end in
  mkServer (URL s') (ActiveConnections s') (Weight s') (RequestCount s')
           isHealthy.

End Part000.


(** * Properties *)

(** ** The order of binary64 *)

Lemma ltb_lex x y :
  ltb x y = true <-> nan_free x /\ nan_free y /\ lex (key x) (key y).
Proof.
  unfold ltb, SFltb, nan_free, lex.
  destruct x as [sx|sx| |sx mx ex], y as [sy|sy| |sy my ey];
    try destruct sx; try destruct sy; cbn;
    try (split; [ try discriminate; intros _; repeat split; try discriminate; lia
                | try reflexivity; intros (H1 & H2 & H3); try congruence; lia ]).
  all: change (Pos.compare_cont Eq mx my) with (Pos.compare mx my).
  all: destruct (Z.compare_spec ex ey); destruct (Pos.compare_spec mx my); cbn;
    (split; [ try discriminate; intros _; repeat split; try discriminate; lia
            | try reflexivity; intros (H1 & H2 & H3); try congruence; lia ]).
Qed.

Lemma ltb_trans x y z :
  ltb x y = true -> ltb y z = true -> ltb x z = true.
Proof.
  rewrite !ltb_lex. unfold lex. intros (? & ? & ?) (? & ? & ?).
  repeat split; try assumption. lia.
Qed.

Lemma ltb_irrefl x : ltb x x = false.
Proof.
  destruct (ltb x x) eqn:E; [|reflexivity].
  apply ltb_lex in E. unfold lex in E. lia.
Qed.

(** On numbers, [<] is a strict weak order: what is below [y] is below
    everything that is not below [y]. *)
Lemma ltb_neg_trans x y z :
  ltb x y = true -> nan_free z -> ltb z y = false -> ltb x z = true.
Proof.
  intros Hxy Hz Hzy. apply ltb_lex in Hxy. destruct Hxy as (Hx & Hy & Hxy).
  apply ltb_lex. repeat split; try assumption.
  destruct (ltb x z) eqn:E.
  - apply ltb_lex in E. tauto.
  - assert (~ lex (key z) (key y)) as N.
    { intros L. rewrite (proj2 (ltb_lex z y)) in Hzy by tauto. discriminate. }
    assert (~ lex (key x) (key z)) as N'.
    { intros L. rewrite (proj2 (ltb_lex x z)) in E by tauto. discriminate. }
    unfold lex in *. lia.
Qed.

(** ** Binary digits *)

Lemma digits2_pos_bounds p :
  2 ^ (Zpos (digits2_pos p) - 1) <= Zpos p < 2 ^ Zpos (digits2_pos p).
Proof.
  induction p as [p IH|p IH|]; cbn [digits2_pos];
    rewrite ?Pos2Z.inj_succ.
  - replace (Z.succ (Zpos (digits2_pos p)) - 1) with (Z.succ (Zpos (digits2_pos p) - 1)) by lia.
    rewrite !Z.pow_succ_r by lia. lia.
  - replace (Z.succ (Zpos (digits2_pos p)) - 1) with (Z.succ (Zpos (digits2_pos p) - 1)) by lia.
    rewrite !Z.pow_succ_r by lia. lia.
  - cbn. lia.
Qed.

Lemma dg_nonneg m : 0 <= m -> 0 <= dg m.
Proof. destruct m; cbn; lia. Qed.

Lemma dg_pos m : 0 < m -> 0 < dg m.
Proof. destruct m; cbn; lia. Qed.

Lemma dg_bounds m : 0 < m -> 2 ^ (dg m - 1) <= m < 2 ^ dg m.
Proof. destruct m as [|p|p]; try lia. intros _. apply digits2_pos_bounds. Qed.

(** [dg m] is the least [k] with [m < 2 ^ k]. *)
Lemma dg_le_iff m k : 0 <= m -> 0 <= k -> (dg m <= k <-> m < 2 ^ k).
Proof.
  intros Hm Hk. assert (0 < 2 ^ k) by (apply Z.pow_pos_nonneg; lia).
  destruct (Z.eq_dec m 0) as [->|Hn]; [cbn; lia|].
  pose proof (dg_bounds m ltac:(lia)) as [Hlo Hhi].
  pose proof (dg_pos m ltac:(lia)).
  split; intros H'.
  - eapply Z.lt_le_trans; [exact Hhi|]. apply Z.pow_le_mono_r; lia.
  - destruct (Z_le_gt_dec (dg m) k) as [|G]; [assumption|].
    assert (2 ^ k <= 2 ^ (dg m - 1)) by (apply Z.pow_le_mono_r; lia). lia.
Qed.

Lemma dg_mono a b : 0 <= a <= b -> dg a <= dg b.
Proof.
  intros H. apply dg_le_iff; try lia. { apply dg_nonneg; lia. }
  destruct (Z.eq_dec b 0) as [->|]. { cbn. lia. }
  pose proof (dg_bounds b ltac:(lia)). lia.
Qed.

Lemma dg_succ m : 0 <= m -> dg (m + 1) <= dg m + 1.
Proof.
  intros H. pose proof (dg_nonneg m H).
  apply dg_le_iff; try lia.
  rewrite Z.pow_add_r by lia.
  destruct (Z.eq_dec m 0) as [->|]. { cbn. lia. }
  pose proof (dg_bounds m ltac:(lia)). change (2 ^ 1) with 2. lia.
Qed.

Lemma dg_div_pow2 m n :
  0 <= m -> 0 <= n -> dg (m / 2 ^ n) = Z.max (dg m - n) 0.
Proof.
  intros Hm Hn. assert (0 < 2 ^ n) by (apply Z.pow_pos_nonneg; lia).
  assert (0 <= m / 2 ^ n) by (apply Z.div_pos; lia).
  pose proof (dg_nonneg m Hm). pose proof (dg_nonneg _ H0).
  apply Z.le_antisymm.
  - apply dg_le_iff; try lia.
    apply Z.div_lt_upper_bound; try lia.
    rewrite <- Z.pow_add_r by lia.
    apply dg_le_iff; lia.
  - apply Z.max_lub; [|lia].
    destruct (Z_le_gt_dec (dg m - n) (dg (m / 2 ^ n))) as [|G]; [assumption|exfalso].
    assert (m / 2 ^ n < 2 ^ (dg m - n - 1)) by (apply dg_le_iff; lia).
    assert (m < 2 ^ (dg m - 1)).
    { replace (dg m - 1) with (n + (dg m - n - 1)) by lia.
      rewrite Z.pow_add_r by lia.
      pose proof (Z.mul_succ_div_gt m (2 ^ n) ltac:(lia)). nia. }
    assert (dg m <= dg m - 1) by (apply dg_le_iff; lia). lia.
Qed.

Lemma dg_mul_pow2 m n : 0 < m -> 0 <= n -> dg (m * 2 ^ n) = dg m + n.
Proof.
  intros Hm Hn. assert (0 < 2 ^ n) by (apply Z.pow_pos_nonneg; lia).
  pose proof (dg_div_pow2 (m * 2 ^ n) n ltac:(nia) Hn) as E.
  rewrite Z.div_mul in E by lia.
  pose proof (dg_pos m Hm). 
  assert (dg m <= dg (m * 2 ^ n)) by (apply dg_mono; nia). lia.
Qed.

(** ** Shifting right and rounding *)

Lemma shr_1_m mrs : 0 <= shr_m mrs -> shr_m (shr_1 mrs) = shr_m mrs / 2.
Proof.
  destruct mrs as [m r s]. cbn [shr_m]. intros Hm.
  destruct m as [|p|p]; try lia; [reflexivity|].
  destruct p as [p|p|]; cbn [shr_1 shr_m].
  - rewrite Pos2Z.inj_xI. apply Z.div_unique with (r := 1); lia.
  - rewrite Pos2Z.inj_xO. apply Z.div_unique with (r := 0); lia.
  - reflexivity.
Qed.

Lemma iter_shr_1_m p : forall mrs,
  0 <= shr_m mrs ->
  shr_m (iter_pos shr_1 p mrs) = shr_m mrs / 2 ^ Zpos p.
Proof.
  assert (forall m q, 0 <= m -> 0 <= m / 2 ^ Zpos q) as Hpos.
  { intros m q Hm. apply Z.div_pos; [lia|apply Z.pow_pos_nonneg; lia]. }
  induction p as [p IH|p IH|]; intros mrs Hm; cbn [iter_pos];
    try assert (0 < 2 ^ Zpos p) as Hp by (apply Z.pow_pos_nonneg; lia).
  - assert (0 <= shr_m (shr_1 mrs)) as H1.
    { rewrite shr_1_m by assumption. apply Z.div_pos; lia. }
    assert (0 <= shr_m (iter_pos shr_1 p (shr_1 mrs))) as H2.
    { rewrite IH by assumption. now apply Hpos. }
    rewrite (IH _ H2), (IH _ H1), shr_1_m by assumption.
    rewrite !Z.div_div by lia.
    f_equal. rewrite Pos2Z.inj_xI, <- Z.pow_add_r, <- (Z.pow_succ_r 2) by lia.
    f_equal. lia.
  - assert (0 <= shr_m (iter_pos shr_1 p mrs)) as H2.
    { rewrite IH by assumption. now apply Hpos. }
    rewrite (IH _ H2), (IH _ Hm).
    rewrite !Z.div_div by lia.
    f_equal. rewrite Pos2Z.inj_xO, <- Z.pow_add_r by lia. f_equal. lia.
  - now rewrite shr_1_m.
Qed.

Lemma shr_spec mrs e n :
  0 <= shr_m mrs ->
  shr_m (fst (shr mrs e n)) = shr_m mrs / 2 ^ Z.max n 0 /\
  snd (shr mrs e n) = e + Z.max n 0.
Proof.
  intros Hm. destruct n as [|p|p]; cbn [shr fst snd].
  - cbn. rewrite Z.div_1_r. lia.
  - rewrite iter_shr_1_m by assumption. rewrite Z.max_l by lia. split; reflexivity.
  - rewrite Z.max_r by lia. cbn. rewrite Z.div_1_r. lia.
Qed.

Lemma shr_record_of_loc_m m l : shr_m (shr_record_of_loc m l) = m.
Proof. destruct l as [|[]]; reflexivity. Qed.

Lemma round_nearest_even_bounds m l :
  m <= round_nearest_even m l <= m + 1.
Proof.
  destruct l as [|[]]; cbn; try lia. destruct (Z.even m); lia.
Qed.

(** [binary_round_aux] in arithmetic: shift to the exponent of the format,
    round, shift again if rounding carried into a new digit. *)
Lemma binary_round_aux_spec s mx ex lx :
  0 <= mx ->
  exists m1 m2 : Z,
    let n1 := Z.max (fexp prec emax (dg mx + ex) - ex) 0 in
    let e1 := ex + n1 in
    let n2 := Z.max (fexp prec emax (dg m2 + e1) - e1) 0 in
    m1 = mx / 2 ^ n1 /\ m1 <= m2 <= m1 + 1 /\
    binary_round_aux prec emax s mx ex lx = pack s (m2 / 2 ^ n2) (e1 + n2).
Proof.
  intros Hmx. unfold binary_round_aux, shr_fexp.
  pose proof (shr_spec (shr_record_of_loc mx lx) ex (fexp prec emax (dg mx + ex) - ex)) as S1.
  rewrite shr_record_of_loc_m in S1. specialize (S1 Hmx).
  destruct (shr (shr_record_of_loc mx lx) ex (fexp prec emax (dg mx + ex) - ex))
    as [mrs1 e1] eqn:E1. cbn [fst snd] in S1. destruct S1 as [S1m S1e].
  set (m2 := round_nearest_even (shr_m mrs1) (loc_of_shr_record mrs1)).
  assert (0 <= shr_m mrs1) as Hm1.
  { rewrite S1m. apply Z.div_pos; [lia|apply Z.pow_pos_nonneg; lia]. }
  pose proof (round_nearest_even_bounds (shr_m mrs1) (loc_of_shr_record mrs1)) as R.
  fold m2 in R.
  pose proof (shr_spec (shr_record_of_loc m2 loc_Exact) e1 (fexp prec emax (dg m2 + e1) - e1)) as S2.
  rewrite shr_record_of_loc_m in S2. specialize (S2 ltac:(lia)).
  destruct (shr (shr_record_of_loc m2 loc_Exact) e1 (fexp prec emax (dg m2 + e1) - e1))
    as [mrs2 e2] eqn:E2. cbn [fst snd] in S2. destruct S2 as [S2m S2e].
  exists (shr_m mrs1), m2. cbv zeta. subst e1.
  split; [exact S1m|]. split; [exact R|].
  unfold pack. rewrite <- S2m, <- S2e. reflexivity.
Qed.


Lemma fexp64 x : fexp prec emax x = Z.max (x - 53) (-1074).
Proof. reflexivity. Qed.

(** The mantissa and exponent [binary_round_aux] packs, with the bounds
    the later proofs use. *)
Lemma binary_round_aux_bounds s mx ex lx :
  0 <= mx ->
  exists m3 e3 : Z,
    binary_round_aux prec emax s mx ex lx = pack s m3 e3 /\
    0 <= m3 /\ dg m3 <= 53 /\
    (forall K, ex <= K -> dg mx + ex <= K + 52 -> -1074 <= K -> e3 <= K) /\
    (0 < mx -> -1021 <= dg mx + ex -> 0 < m3 /\ dg mx + ex <= dg m3 + e3).
Proof.
  intros Hmx.
  destruct (binary_round_aux_spec s mx ex lx Hmx)
    as (m1 & m2 & Hm1 & Hm2 & E).
  rewrite !fexp64 in *.
  set (n1 := Z.max (Z.max (dg mx + ex - 53) (-1074) - ex) 0) in *.
  set (e1 := ex + n1) in *.
  set (n2 := Z.max (Z.max (dg m2 + e1 - 53) (-1074) - e1) 0) in *.
  assert (0 <= m1) as Hm1pos.
  { rewrite Hm1. apply Z.div_pos; [lia|apply Z.pow_pos_nonneg; lia]. }
  assert (dg m1 = Z.max (dg mx - n1) 0) as D1.
  { rewrite Hm1. apply dg_div_pow2; lia. }
  assert (dg m1 <= dg m2 <= dg m1 + 1) as D2.
  { split; [apply dg_mono; lia|].
    etransitivity; [apply (dg_mono m2 (m1 + 1)); lia|apply dg_succ; lia]. }
  assert (dg (m2 / 2 ^ n2) = Z.max (dg m2 - n2) 0) as D3.
  { apply dg_div_pow2; lia. }
  assert (0 <= m2 / 2 ^ n2) as Hm3.
  { apply Z.div_pos; [lia|apply Z.pow_pos_nonneg; lia]. }
  pose proof (dg_nonneg mx Hmx).
  exists (m2 / 2 ^ n2), (e1 + n2). split; [exact E|].
  split; [exact Hm3|]. split; [lia|]. split.
  - intros K H1 H2 H3. lia.
  - intros Hpos Hnorm. pose proof (dg_pos mx Hpos).
    assert (0 < dg (m2 / 2 ^ n2)) as Hd by lia.
    split; [|lia].
    destruct (Z.eq_dec (m2 / 2 ^ n2) 0) as [Z0|]; [|lia].
    rewrite Z0 in Hd. cbn in Hd. lia.
Qed.

Lemma pack_sign s m3 e3 : 0 <= m3 -> has_sign s (pack s m3 e3).
Proof.
  intros H. unfold pack. destruct m3; try lia; cbn; [reflexivity|].
  destruct (_ <=? _); reflexivity.
Qed.

Lemma binary_round_aux_sign s mx ex lx :
  0 <= mx -> has_sign s (binary_round_aux prec emax s mx ex lx).
Proof.
  intros H. destruct (binary_round_aux_bounds s mx ex lx H) as (m3 & e3 & E & H3 & _).
  rewrite E. now apply pack_sign.
Qed.

Lemma binary_round_aux_exp_le s mx ex lx K :
  0 <= mx -> ex <= K -> dg mx + ex <= K + 52 -> -1074 <= K <= 971 ->
  exp_le K (binary_round_aux prec emax s mx ex lx) /\
  mag_le (K + 53) (binary_round_aux prec emax s mx ex lx).
Proof.
  intros H H1 H2 H3.
  destruct (binary_round_aux_bounds s mx ex lx H) as (m3 & e3 & E & Hm3 & Hd & Hk & _).
  specialize (Hk K H1 H2 ltac:(lia)). rewrite E. unfold pack.
  destruct m3 as [|p|p]; try lia; [cbn; tauto|].
  change (emax - prec) with 971.
  destruct (Z.leb_spec e3 971); unfold exp_le, mag_le; lia.
Qed.

Lemma binary_round_aux_mag_ge s mx ex lx :
  0 < mx -> -1021 <= dg mx + ex ->
  mag_ge (dg mx + ex) (binary_round_aux prec emax s mx ex lx).
Proof.
  intros H H1.
  destruct (binary_round_aux_bounds s mx ex lx ltac:(lia)) as (m3 & e3 & E & _ & _ & _ & Hg).
  destruct (Hg H H1) as [Hpos Hm]. rewrite E. unfold pack.
  destruct m3 as [|p|p]; try lia.
  destruct (_ <=? _); unfold mag_ge; [lia|exact I].
Qed.

Lemma mag_ge_weaken M M' x : mag_ge M x -> M' <= M -> mag_ge M' x.
Proof. destruct x; cbn; try tauto. lia. Qed.

Lemma has_sign_nan_free s x : has_sign s x -> nan_free x.
Proof. destruct x; cbn; try tauto; discriminate. Qed.

(** ** Conversion of integers *)

Lemma shl_align_spec mx ex ex' :
  Zpos (fst (shl_align mx ex ex')) = Zpos mx * 2 ^ (ex - snd (shl_align mx ex ex')) /\
  snd (shl_align mx ex ex') = Z.min ex ex'.
Proof.
  unfold shl_align. destruct (ex' - ex) as [|d|d] eqn:E; cbn [fst snd].
  - rewrite Z.sub_diag. cbn. lia.
  - rewrite Z.sub_diag. cbn. lia.
  - change (Pos.iter xO mx d) with (shift_pos d mx).
    replace (ex - ex') with (Zpos d) by lia.
    rewrite shift_pos_correct. change (Zpower_pos 2 d) with (2 ^ Zpos d). lia.
Qed.

Lemma binary_round_int s p :
  let x := binary_round prec emax s p 0 in
  has_sign s x /\ mag_ge (dg (Zpos p)) x /\
  (forall k, dg (Zpos p) <= k -> k <= 1000 -> mag_le (k + 1) x).
Proof.
  unfold binary_round.
  pose proof (shl_align_spec p 0 (fexp prec emax (Zpos (digits2_pos p) + 0))) as [Hm He].
  destruct (shl_align p 0 (fexp prec emax (Zpos (digits2_pos p) + 0))) as [mz ez].
  cbn [fst snd] in Hm, He. rewrite fexp64 in He.
  change (Zpos (digits2_pos p)) with (dg (Zpos p)) in He.
  pose proof (dg_pos (Zpos p) ltac:(lia)) as Hd.
  assert (dg (Zpos mz) + ez = dg (Zpos p)) as Hmag.
  { rewrite Hm, dg_mul_pow2 by lia. lia. }
  cbv zeta. split; [apply binary_round_aux_sign; lia|]. split.
  - rewrite <- Hmag. apply binary_round_aux_mag_ge; lia.
  - intros k Hk Hk'. replace (k + 1) with (k - 52 + 53) by lia.
    apply binary_round_aux_exp_le; lia.
Qed.

Lemma of_Z_sign z : has_sign (z <? 0) (of_Z z).
Proof.
  destruct z as [|p|p]; [reflexivity| |]; apply (binary_round_int _ p).
Qed.

Lemma of_Z_nonzero z : z <> 0 -> mag_ge 1 (of_Z z).
Proof.
  intros H. destruct z as [|p|p]; [congruence| |];
    (eapply mag_ge_weaken; [apply (binary_round_int _ p)|]);
    pose proof (dg_pos (Zpos p) ltac:(lia)); lia.
Qed.

Lemma of_Z_int32 z : int32_range z -> mag_le 33 (of_Z z).
Proof.
  unfold int32_range. intros H. destruct z as [|p|p]; [exact I| |];
    apply (proj2 (proj2 (binary_round_int _ p)) 32); try lia;
    apply dg_le_iff; lia.
Qed.

(** ** Division *)

Lemma SFdiv_core_binary_bounds m1 e1 m2 e2 :
  let M1 := dg (Zpos m1) + e1 in
  let M2 := dg (Zpos m2) + e2 in
  let '(q, e', _) := SFdiv_core_binary prec emax (Zpos m1) e1 (Zpos m2) e2 in
  0 <= q /\ e' <= Z.max (M1 - M2 - 53) (-1074) /\
  dg q + e' <= Z.max (M1 - M2 + 1) e'.
Proof.
  cbv zeta. unfold SFdiv_core_binary. rewrite fexp64.
  set (d1 := dg (Zpos m1)). set (d2 := dg (Zpos m2)).
  set (e' := Z.min (Z.max (d1 + e1 - (d2 + e2) - 53) (-1074)) (e1 - e2)).
  set (s := e1 - e2 - e').
  set (m' := match s with Z0 => Zpos m1 | Zpos _ => Z.shiftl (Zpos m1) s | Zneg _ => 0 end).
  assert (0 <= s) as Hs by lia.
  assert (m' = Zpos m1 * 2 ^ s) as Hm'.
  { subst m'. destruct s as [|q|q] eqn:Es; try lia.
    now rewrite Z.shiftl_mul_pow2 by lia. }
  destruct (Z.div_eucl m' (Zpos m2)) as [q r] eqn:E.
  assert (q = m' / Zpos m2) as Hq by (unfold Z.div; now rewrite E).
  pose proof (dg_pos (Zpos m1) ltac:(lia)). pose proof (dg_pos (Zpos m2) ltac:(lia)).
  pose proof (dg_bounds (Zpos m2) ltac:(lia)) as [Hlo _]. fold d2 in Hlo.
  assert (0 < 2 ^ s) by (apply Z.pow_pos_nonneg; lia).
  assert (0 < 2 ^ (d2 - 1)) by (apply Z.pow_pos_nonneg; lia).
  assert (0 <= q) by (rewrite Hq; apply Z.div_pos; nia).
  assert (dg m' = d1 + s) by (rewrite Hm'; apply dg_mul_pow2; lia).
  assert (dg q <= Z.max (d1 + s - (d2 - 1)) 0) as Hdq.
  { rewrite <- H4, <- (dg_div_pow2 m' (d2 - 1)) by nia.
    apply dg_mono. split; [assumption|]. rewrite Hq.
    apply Z.div_le_compat_l; nia. }
  repeat split; lia.
Qed.

Lemma div_small sx sy x y :
  has_sign sx x -> has_sign sy y -> mag_le 33 x -> mag_ge 1 y ->
  has_sign (xorb sx sy) (div x y) /\ exp_le 6 (div x y).
Proof.
  unfold div.
  destruct x as [sx'| | |sx' mx ex]; cbn [mag_le]; try tauto;
    destruct y as [ |sy'| |sy' my ey]; cbn [mag_ge]; try tauto;
    cbn [has_sign]; intros -> -> Hx Hy; cbn [SFdiv has_sign exp_le]; try tauto.
  pose proof (SFdiv_core_binary_bounds mx ex my ey) as B. cbv zeta in B.
  destruct (SFdiv_core_binary prec emax (Zpos mx) ex (Zpos my) ey) as [[q e'] l].
  destruct B as (Hq & He & Hd).
  split; [now apply binary_round_aux_sign|].
  apply binary_round_aux_exp_le; lia.
Qed.

Lemma lit_1e18_eq : lit_1e18 = S754_finite false 7812500000000000 7.
Proof. vm_compute. reflexivity. Qed.

Lemma exp_le_6_lt_lit s x : has_sign s x -> exp_le 6 x -> ltb x lit_1e18 = true.
Proof.
  rewrite lit_1e18_eq. unfold ltb, SFltb.
  destruct x as [s'| | |s' m e]; cbn [exp_le has_sign]; intros Hs He;
    try contradiction.
  - reflexivity.
  - cbn [SFcompare]. destruct s'; [reflexivity|].
    destruct (Z.compare_spec e 7); reflexivity || lia.
Qed.

Lemma mag_ge_not_zero M x : mag_ge M x -> eqb x zero = false.
Proof.
  destruct x as [s|s| |s m e]; cbn [mag_ge]; intros H; try contradiction;
    destruct s; reflexivity.
Qed.

(** ** The load ratio *)

Lemma Ratio_unhealthy s : IsHealthy s = false -> Ratio s = lit_1e18.
Proof. unfold Ratio. now intros ->. Qed.

Lemma Ratio_weight_0 s : Weight s = 0 -> Ratio s = lit_1e18.
Proof. unfold Ratio. intros ->. now destruct (IsHealthy s). Qed.

Lemma Ratio_healthy s :
  IsHealthy s = true -> Weight s <> 0 ->
  Ratio s = div (of_Z (ActiveConnections s)) (of_Z (Weight s)).
Proof.
  unfold Ratio. intros -> Hw. cbn [negb].
  now rewrite (mag_ge_not_zero 1 _ (of_Z_nonzero _ Hw)).
Qed.

Lemma Ratio_sign s :
  IsHealthy s = true -> Weight s <> 0 -> int32_range (ActiveConnections s) ->
  has_sign (xorb (ActiveConnections s <? 0) (Weight s <? 0)) (Ratio s) /\
  exp_le 6 (Ratio s).
Proof.
  intros Hh Hw Hc. rewrite Ratio_healthy by assumption.
  apply div_small; auto using of_Z_sign, of_Z_int32, of_Z_nonzero.
Qed.

Lemma Ratio_nan_free s : int32_range (ActiveConnections s) -> nan_free (Ratio s).
Proof.
  intros Hc. destruct (IsHealthy s) eqn:Hh.
  - destruct (Z.eq_dec (Weight s) 0) as [Hw|Hw].
    + rewrite Ratio_weight_0 by assumption. discriminate.
    + eapply has_sign_nan_free, Ratio_sign; eassumption.
  - rewrite Ratio_unhealthy by assumption. discriminate.
Qed.

Lemma Ratio_eligible s :
  IsHealthy s = true -> 1 <= Weight s -> int32_range (ActiveConnections s) ->
  ltb (Ratio s) lit_1e18 = true.
Proof.
  intros Hh Hw Hc. destruct (Ratio_sign s Hh ltac:(lia) Hc) as [Hs He].
  eapply exp_le_6_lt_lit; eassumption.
Qed.

Lemma lit_not_lt_lit : ltb lit_1e18 lit_1e18 = false.
Proof. apply ltb_irrefl. Qed.

Lemma Ratio_lt_lit_inv s :
  ltb (Ratio s) lit_1e18 = true -> IsHealthy s = true /\ Weight s <> 0.
Proof.
  intros H. split.
  - destruct (IsHealthy s) eqn:Hh; [reflexivity|].
    rewrite Ratio_unhealthy, lit_not_lt_lit in H by assumption. discriminate.
  - intros Hw. rewrite Ratio_weight_0, lit_not_lt_lit in H by assumption.
    discriminate.
Qed.

(** ** Selection *)

Lemma nth_error_snoc (pre : list Server) x j sj :
  nth_error (pre ++ [x]) j = Some sj ->
  nth_error pre j = Some sj \/ (j = List.length pre /\ sj = x).
Proof.
  intros H. destruct (Nat.lt_ge_cases j (List.length pre)) as [L|G].
  - left. now rewrite nth_error_app1 in H.
  - right. rewrite nth_error_app2 in H by assumption.
    destruct (j - List.length pre)%nat as [|k] eqn:E; cbn in H.
    + split; [lia|congruence].
    + destruct k; discriminate.
Qed.

Lemma loop_inv_step pre best bestRatio x :
  loop_inv pre best bestRatio ->
  if ltb (Ratio x) bestRatio
  then loop_inv (pre ++ [x]) (Some (List.length pre)) (Ratio x)
  else loop_inv (pre ++ [x]) best bestRatio.
Proof.
  intros Inv. destruct (ltb (Ratio x) bestRatio) eqn:L.
  - assert (forall j sj, nth_error pre j = Some sj -> ltb (Ratio sj) bestRatio = false) as Hmin.
    { destruct best as [b|]; cbn in Inv.
      - destruct Inv as (sb & _ & -> & _ & Hmin & _). exact Hmin.
      - destruct Inv as (-> & Hmin). exact Hmin. }
    assert (ltb (Ratio x) lit_1e18 = true) as Hlit.
    { destruct best as [b|]; cbn in Inv.
      - destruct Inv as (sb & _ & -> & Hsb & _). eapply ltb_trans; eassumption.
      - destruct Inv as (-> & _). exact L. }
    exists x. split; [now rewrite nth_error_app2, Nat.sub_diag by lia|].
    split; [reflexivity|]. split; [exact Hlit|]. split.
    + intros j sj Hj. apply nth_error_snoc in Hj. destruct Hj as [Hj|[_ ->]].
      * destruct (ltb (Ratio sj) (Ratio x)) eqn:E; [|reflexivity].
        rewrite <- (Hmin j sj Hj). symmetry. eapply ltb_trans; eassumption.
      * apply ltb_irrefl.
    + intros j sj Hlt Hj Hnan. apply nth_error_snoc in Hj.
      destruct Hj as [Hj|[-> _]]; [|lia].
      apply (ltb_neg_trans _ bestRatio); [exact L|exact Hnan|exact (Hmin j sj Hj)].
  - destruct best as [b|]; cbn in Inv |- *.
    + destruct Inv as (sb & Hb & -> & Hsb & Hmin & Htie).
      exists sb. split.
      { rewrite nth_error_app1; [assumption|]. apply nth_error_Some. congruence. }
      split; [reflexivity|]. split; [assumption|]. split.
      * intros j sj Hj. apply nth_error_snoc in Hj. destruct Hj as [Hj|[_ ->]]; eauto.
      * intros j sj Hlt Hj Hnan. apply nth_error_snoc in Hj.
        destruct Hj as [Hj|[-> _]]; eauto.
        assert (b < List.length pre)%nat by (apply nth_error_Some; congruence). lia.
    + destruct Inv as (-> & Hmin). split; [reflexivity|].
      intros j sj Hj. apply nth_error_snoc in Hj. destruct Hj as [Hj|[_ ->]]; eauto.
Qed.

Lemma NextServer_loop_inv l : forall pre best bestRatio,
  loop_inv pre best bestRatio ->
  exists bestRatio',
    loop_inv (pre ++ l)
      (NextServer_loop (List.length pre) l best bestRatio) bestRatio'.
Proof.
  induction l as [|x l IH]; intros pre best bestRatio Inv; cbn [NextServer_loop].
  - rewrite app_nil_r. now exists bestRatio.
  - pose proof (loop_inv_step pre best bestRatio x Inv) as Step.
    replace (pre ++ x :: l) with ((pre ++ [x]) ++ l) by now rewrite <- app_assoc.
    replace (S (List.length pre)) with (List.length (pre ++ [x]))
      by (rewrite length_app; cbn; lia).
    destruct (ltb (Ratio x) bestRatio); now apply IH.
Qed.

Lemma NextServer_inv pool : exists bestRatio, loop_inv pool (NextServer pool) bestRatio.
Proof.
  destruct pool as [|x l].
  - exists lit_1e18. split; [reflexivity|]. intros [|j] sj; discriminate.
  - change (NextServer (x :: l)) with (NextServer_loop 0 (x :: l) None lit_1e18).
    apply (NextServer_loop_inv (x :: l) [] None lit_1e18).
    split; [reflexivity|]. intros [|j] sj; discriminate.
Qed.

Lemma lit_1e18_exact : lit_1e18 = of_Z (10 ^ 18).
Proof. vm_compute. reflexivity. Qed.

Lemma NextServer_Some pool i :
  NextServer pool = Some i ->
  exists s,
    nth_error pool i = Some s /\ ltb (Ratio s) lit_1e18 = true /\
    (forall j sj, nth_error pool j = Some sj -> ltb (Ratio sj) (Ratio s) = false) /\
    (forall j sj, (j < i)%nat -> nth_error pool j = Some sj ->
                  nan_free (Ratio sj) -> ltb (Ratio s) (Ratio sj) = true).
Proof.
  intros E. destruct (NextServer_inv pool) as [r Inv]. rewrite E in Inv.
  destruct Inv as (sb & H1 & _ & H2 & H3 & H4). exists sb. auto.
Qed.

Lemma NextServer_None pool :
  NextServer pool = None <->
  (forall s, In s pool -> ltb (Ratio s) lit_1e18 = false).
Proof.
  split.
  - intros E s Hin. destruct (NextServer_inv pool) as [r Inv]. rewrite E in Inv.
    destruct Inv as [_ Hall]. apply In_nth_error in Hin. destruct Hin as [j Hj].
    eauto.
  - intros Hall. destruct (NextServer pool) as [i|] eqn:E; [|reflexivity].
    apply NextServer_Some in E. destruct E as (s & Hs & Hlt & _).
    apply nth_error_In in Hs. rewrite (Hall s Hs) in Hlt. discriminate.
Qed.

Lemma NextServer_healthy pool i s :
  NextServer pool = Some i -> nth_error pool i = Some s ->
  IsHealthy s = true /\ Weight s <> 0.
Proof.
  intros E Hs. apply NextServer_Some in E. destruct E as (s' & Hs' & Hlt & _).
  assert (s' = s) as -> by congruence. now apply Ratio_lt_lit_inv.
Qed.

(** ** Ratio and selection: the claims *)

(** C7: the load ratio of a server is activeConnections divided by weight (in
    binary64) when the server is healthy and its weight is positive; when the
    server is unhealthy or its weight is 0 the ratio is the sentinel [1e18],
    and the sentinel is strictly above the ratio of every eligible server (a
    healthy server with a weight of at least 1 and an int32 connection
    count). *)
Theorem C7_load_ratio (s : Server) :
  (IsHealthy s = true -> 0 < Weight s ->
   Ratio s = div (of_Z (ActiveConnections s)) (of_Z (Weight s))) /\
  (IsHealthy s = false \/ Weight s = 0 ->
   Ratio s = lit_1e18 /\
   forall t, IsHealthy t = true -> 1 <= Weight t ->
             int32_range (ActiveConnections t) ->
             ltb (Ratio t) (Ratio s) = true).
Proof.
  split.
  - intros Hh Hw. apply Ratio_healthy; [assumption|lia].
  - intros H. assert (Ratio s = lit_1e18) as E.
    { destruct H; [now apply Ratio_unhealthy|now apply Ratio_weight_0]. }
    split; [exact E|]. intros t Ht Hw Hc. rewrite E. now apply Ratio_eligible.
Qed.

Lemma C7_load_ratio_witness :
  Ratio (mkServer "http://a" 3 2 0 true 0 0) = div (of_Z 3) (of_Z 2) /\
  ltb (Ratio (mkServer "http://a" 3 2 0 true 0 0))
      (Ratio (mkServer "http://b" 0 1 0 false 0 0)) = true.
Proof.
  split.
  - apply (proj1 (C7_load_ratio (mkServer "http://a" 3 2 0 true 0 0)));
      [reflexivity|cbn; lia].
  - apply (proj2 (C7_load_ratio (mkServer "http://b" 0 1 0 false 0 0)));
      [left; reflexivity|reflexivity|cbn; lia|cbn; unfold int32_range; lia].
Defined.

(** C8: [NextServer] returns none, or a server whose ratio is strictly below
    the sentinel [1e18], which is a healthy server of nonzero weight; when
    every server of the pool is unhealthy it returns none. *)
Theorem C8_never_unhealthy (pool : list Server) :
  match NextServer pool with
  | None => True
  | Some i =>
      exists s, nth_error pool i = Some s /\ ltb (Ratio s) lit_1e18 = true /\
                IsHealthy s = true /\ Weight s <> 0
  end /\
  ((forall s, In s pool -> IsHealthy s = false) -> NextServer pool = None).
Proof.
  split.
  - destruct (NextServer pool) as [i|] eqn:E; [|exact I].
    destruct (NextServer_Some pool i E) as (s & Hs & Hlt & _).
    exists s. split; [assumption|]. split; [assumption|].
    now apply Ratio_lt_lit_inv.
  - intros Hall. apply NextServer_None. intros s Hin.
    rewrite Ratio_unhealthy by auto. apply ltb_irrefl.
Qed.

Lemma C8_never_unhealthy_witness :
  NextServer [mkServer "http://a" 0 1 0 false 0 0;
              mkServer "http://b" 0 1 0 false 0 0] = None.
Proof.
  apply (proj2 (C8_never_unhealthy _)).
  intros s [<-|[<-|[]]]; reflexivity.
Defined.

(** C1, as stated, fails: a pool that is not empty and whose only server is
    unhealthy yields none, not its first entry. *)
Lemma C1_counterexample :
  [mkServer "http://a" 0 1 0 false 0 0] <> [] /\
  NextServer [mkServer "http://a" 0 1 0 false 0 0] = None.
Proof. split; [discriminate|reflexivity]. Qed.

(** C1, amended: [NextServer] returns none exactly when no server of the
    pool has a ratio below the sentinel [1e18], which is the case for the
    empty pool and for every pool whose servers are all unhealthy; a server
    that is returned is healthy. *)
Theorem C1_none_iff_no_eligible (pool : list Server) :
  (NextServer pool = None <->
   forall s, In s pool -> ltb (Ratio s) lit_1e18 = false) /\
  (pool = [] -> NextServer pool = None) /\
  ((forall s, In s pool -> IsHealthy s = false) -> NextServer pool = None) /\
  (forall i s, NextServer pool = Some i -> nth_error pool i = Some s ->
               IsHealthy s = true).
Proof.
  split; [apply NextServer_None|]. split; [now intros ->|]. split.
  - intros Hall. apply NextServer_None. intros s Hin.
    rewrite Ratio_unhealthy by auto. apply ltb_irrefl.
  - intros i s E Hs. now destruct (NextServer_healthy pool i s E Hs).
Qed.

Lemma C1_none_iff_no_eligible_witness :
  IsHealthy (mkServer "http://b" 1 2 0 true 0 0) = true.
Proof.
  apply (proj2 (proj2 (proj2 (C1_none_iff_no_eligible
           [mkServer "http://a" 0 1 0 false 0 0;
            mkServer "http://b" 1 2 0 true 0 0]))) 1%nat);
    reflexivity.
Defined.

(** C2: in a pool with a healthy server (of weight at least 1, as the data
    model requires, connection counts being int32), [NextServer] returns a
    server, never none; no server of the pool has a ratio strictly below the
    ratio of the returned one, and every server before it in pool order has
    a strictly greater ratio, so that among the servers tied for the minimum
    the earliest is returned. *)
Theorem C2_minimum_earliest (pool : list Server) :
  (forall s, In s pool -> int32_range (ActiveConnections s)) ->
  (exists s, In s pool /\ IsHealthy s = true /\ 1 <= Weight s) ->
  exists i s,
    NextServer pool = Some i /\ nth_error pool i = Some s /\
    (forall j sj, nth_error pool j = Some sj ->
                  ltb (Ratio sj) (Ratio s) = false) /\
    (forall j sj, (j < i)%nat -> nth_error pool j = Some sj ->
                  ltb (Ratio s) (Ratio sj) = true).
Proof.
  intros Hty (h & Hin & Hh & Hw).
  destruct (NextServer pool) as [i|] eqn:E.
  - destruct (NextServer_Some pool i E) as (s & Hs & _ & Hmin & Htie).
    exists i, s. repeat split; try assumption.
    intros j sj Hlt Hj. apply (Htie j sj Hlt Hj).
    apply Ratio_nan_free, Hty. eapply nth_error_In; eassumption.
  - exfalso. pose proof (proj1 (NextServer_None pool) E h Hin) as N.
    rewrite Ratio_eligible in N by auto. discriminate.
Qed.

(** Ratios 2.0, 0.5, 0.5: the second server is selected. *)
Lemma C2_minimum_earliest_witness :
  exists i s,
    NextServer [mkServer "http://a" 4 2 0 true 0 0;
                mkServer "http://b" 1 2 0 true 0 0;
                mkServer "http://c" 1 2 0 true 0 0] = Some i /\
    nth_error [mkServer "http://a" 4 2 0 true 0 0;
               mkServer "http://b" 1 2 0 true 0 0;
               mkServer "http://c" 1 2 0 true 0 0] i = Some s /\
    (forall j sj,
        nth_error [mkServer "http://a" 4 2 0 true 0 0;
                   mkServer "http://b" 1 2 0 true 0 0;
                   mkServer "http://c" 1 2 0 true 0 0] j = Some sj ->
        ltb (Ratio sj) (Ratio s) = false) /\
    (forall j sj, (j < i)%nat ->
        nth_error [mkServer "http://a" 4 2 0 true 0 0;
                   mkServer "http://b" 1 2 0 true 0 0;
                   mkServer "http://c" 1 2 0 true 0 0] j = Some sj ->
        ltb (Ratio s) (Ratio sj) = true).
Proof.
  apply C2_minimum_earliest.
  - intros s [<-|[<-|[<-|[]]]]; cbn; unfold int32_range; lia.
  - exists (mkServer "http://a" 4 2 0 true 0 0).
    split; [now left|]. split; [reflexivity|cbn; lia].
Defined.

(** The scenarios of the design document, on the pool A (weight 5), B and C
    (weight 1). *)

Example scenario_first_of_tie :
  NextServer [mkServer "http://a" 0 5 0 true 0 0;
              mkServer "http://b" 0 1 0 true 0 0;
              mkServer "http://c" 0 1 0 true 0 0] = Some 0%nat.
Proof. vm_compute. reflexivity. Qed.

Example scenario_loaded_first :
  NextServer [mkServer "http://a" 5 5 5 true 0 0;
              mkServer "http://b" 0 1 0 true 0 0;
              mkServer "http://c" 0 1 0 true 0 0] = Some 1%nat.
Proof. vm_compute. reflexivity. Qed.

Example scenario_unhealthy_skipped :
  NextServer [mkServer "http://a" 5 5 5 true 0 0;
              probe_server 1700000000 (Response 500)
                (mkServer "http://b" 0 1 0 true 0 0);
              mkServer "http://c" 0 1 0 true 0 0] = Some 2%nat.
Proof. vm_compute. reflexivity. Qed.

Example scenario_all_unhealthy :
  handleHealthEndpoint
    (mkWLC [mkServer "http://a" 0 5 0 false 1 0;
            mkServer "http://b" 0 1 0 false 1 0] 0)
  = PlainResponse 503 "UNHEALTHY: No healthy backends".
Proof. reflexivity. Qed.

Example scenario_tied_ratios :
  NextServer [mkServer "http://a" 4 2 0 true 0 0;
              mkServer "http://b" 1 2 0 true 0 0;
              mkServer "http://c" 1 2 0 true 0 0] = Some 1%nat.
Proof. vm_compute. reflexivity. Qed.

Lemma neg_finite_lt m e x :
  has_sign false x -> ltb (S754_finite true m e) x = true.
Proof.
  destruct x as [s|s| |s m' e']; cbn [has_sign]; intros H;
    try contradiction; subst s; reflexivity.
Qed.

Lemma Ratio_valid_sign s :
  1 <= Weight s -> 0 <= ActiveConnections s < 2 ^ 31 ->
  has_sign false (Ratio s).
Proof.
  intros Hw Hc. destruct (IsHealthy s) eqn:Hh.
  - destruct (Ratio_sign s Hh) as [Hs _]; [lia|unfold int32_range; lia|].
    replace (ActiveConnections s <? 0) with false in Hs by (symmetry; apply Z.ltb_ge; lia).
    replace (Weight s <? 0) with false in Hs by (symmetry; apply Z.ltb_ge; lia).
    exact Hs.
  - rewrite Ratio_unhealthy by assumption. reflexivity.
Qed.

(** C10: [NewServer] stores whatever weight it is given (it fails only when
    the URL does not parse), and [Ratio] takes the sentinel for a healthy
    server only when the weight is 0; a server constructed with weight -1
    that has one active connection has the ratio -1, which is strictly below
    the ratio of every server with a weight of at least 1 and a non-negative
    connection count. *)
Theorem C10_negative_weight :
  (forall (url_Parse : string -> option string) now rawURL weight u,
      url_Parse rawURL = Some u ->
      NewServer url_Parse now rawURL weight
      = Some (mkServer u 0 weight 0 true 0 now)) /\
  (forall s, IsHealthy s = true -> Weight s <> 0 ->
             Ratio s = div (of_Z (ActiveConnections s)) (of_Z (Weight s))) /\
  (forall bad0,
      NewServer (fun u => Some u) 0 "http://a" (-1) = Some bad0 ->
      let bad := acquire bad0 in
      IsHealthy bad = true /\ Weight bad = -1 /\ ActiveConnections bad = 1 /\
      Ratio bad = S754_finite true 4503599627370496 (-52) /\
      Ratio bad = of_Z (-1) /\
      forall s, 1 <= Weight s -> 0 <= ActiveConnections s < 2 ^ 31 ->
                ltb (Ratio bad) (Ratio s) = true).
Proof.
  split; [|split].
  - intros parse now rawURL weight u E. unfold NewServer. now rewrite E.
  - apply Ratio_healthy.
  - intros bad0 E. injection E as <-. cbv zeta.
    assert (Ratio (acquire (mkServer "http://a" 0 (-1) 0 true 0 0))
            = S754_finite true 4503599627370496 (-52)) as R
      by (vm_compute; reflexivity).
    repeat split; try exact R.
    intros s Hw Hc. rewrite R. apply neg_finite_lt. now apply Ratio_valid_sign.
Qed.

Lemma C10_negative_weight_witness :
  ltb (Ratio (acquire (mkServer "http://a" 0 (-1) 0 true 0 0)))
      (Ratio (mkServer "http://b" 0 1 0 true 0 0)) = true.
Proof.
  apply (proj2 (proj2 C10_negative_weight) (mkServer "http://a" 0 (-1) 0 true 0 0)).
  - reflexivity.
  - cbn. lia.
  - cbn. lia.
Defined.

(** ** Health probes: the claims *)

Lemma performHealthChecks_loop_nth env l : forall k i,
  nth_error (performHealthChecks_loop env k l) i
  = option_map (probe_server (fst (env (k + i)%nat)) (snd (env (k + i)%nat)))
               (nth_error l i).
Proof.
  induction l as [|s l IH]; intros k i; cbn [performHealthChecks_loop].
  - now destruct i.
  - destruct i as [|i]; cbn [nth_error option_map].
    + now rewrite Nat.add_0_r.
    + rewrite IH. now replace (S k + i)%nat with (k + S i)%nat by lia.
Qed.

Lemma performHealthChecks_nth env wlc i :
  nth_error (servers (performHealthChecks env wlc)) i
  = option_map (probe_server (fst (env i)) (snd (env i)))
               (nth_error (servers wlc) i).
Proof.
  unfold performHealthChecks. cbn [servers].
  apply (performHealthChecks_loop_nth env (servers wlc) 0%nat i).
Qed.

(** C5: a probe of a server stores the time of the attempt in
    lastCheckTimestamp whatever the outcome; when it succeeds (no transport
    error and status 200) the server becomes healthy and consecutiveFailures
    is reset to 0; when it fails (transport error or another status) the
    server becomes unhealthy and consecutiveFailures, a uint32, is
    incremented by 1; nothing else of the server changes, and a round of
    health checks probes every server of the pool in this way. *)
Theorem C5_probe (now : Z) (r : probe_result) (s : Server) :
  let s' := probe_server now r s in
  LastCheckTime s' = now /\
  (r = Response StatusOK -> IsHealthy s' = true /\ FailureCount s' = 0) /\
  (r <> Response StatusOK ->
   IsHealthy s' = false /\
   FailureCount s' = wrap_uint32 (FailureCount s + 1) /\
   (0 <= FailureCount s < 2 ^ 32 - 1 -> FailureCount s' = FailureCount s + 1)) /\
  (URL s' = URL s /\ Weight s' = Weight s /\
   ActiveConnections s' = ActiveConnections s /\
   RequestCount s' = RequestCount s) /\
  (forall env wlc i,
      nth_error (servers (performHealthChecks env wlc)) i
      = option_map (probe_server (fst (env i)) (snd (env i)))
                   (nth_error (servers wlc) i)).
Proof.
  cbv zeta. unfold probe_server, HealthCheck.
  split; [|split; [|split; [|split]]].
  - destruct r as [|status]; [reflexivity|]. now destruct (status =? StatusOK).
  - intros ->. cbn. auto.
  - intros Hr. destruct r as [|status].
    + cbn. repeat split. intros H. unfold wrap_uint32.
      apply Z.mod_small. lia.
    + destruct (Z.eqb_spec status StatusOK) as [->|Hne]; [congruence|].
      cbn. repeat split. intros H. unfold wrap_uint32.
      apply Z.mod_small. lia.
  - destruct r as [|status]; [now cbn|]. now destruct (status =? StatusOK).
  - apply performHealthChecks_nth.
Qed.

Lemma C5_probe_witness :
  IsHealthy (probe_server 1700000000 (Response 200)
               (mkServer "http://a" 0 1 0 false 3 0)) = true /\
  FailureCount (probe_server 1700000000 (Response 200)
                  (mkServer "http://a" 0 1 0 false 3 0)) = 0 /\
  IsHealthy (probe_server 1700000000 (Response 500)
               (mkServer "http://a" 0 1 0 true 3 0)) = false /\
  FailureCount (probe_server 1700000000 (Response 500)
                  (mkServer "http://a" 0 1 0 true 3 0)) = 4.
Proof.
  pose proof (C5_probe 1700000000 (Response 200)
                (mkServer "http://a" 0 1 0 false 3 0)) as (_ & Hok & _).
  pose proof (C5_probe 1700000000 (Response 500)
                (mkServer "http://a" 0 1 0 true 3 0)) as (_ & _ & Hko & _).
  destruct (Hok eq_refl) as [H1 H2].
  destruct Hko as (H3 & _ & H4); [discriminate|].
  split; [exact H1|]. split; [exact H2|]. split; [exact H3|].
  apply H4. cbn. lia.
Defined.

(** ** Dispatch: the claims *)

(** C4: when the selection yields none, or a server whose health flag is
    false, [ServeHTTP] answers service unavailable (503) and changes nothing:
    the pool, with every counter and flag of every server, and the pool-wide
    request counter are what they were. *)
Theorem C4_unavailable_no_change (wlc : WeightedLeastConnection)
    (server : option nat) :
  (server = None \/
   exists i s, server = Some i /\ nth_error (servers wlc) i = Some s /\
               IsHealthy s = false) ->
  ServeHTTP_dispatch wlc server
  = (Finished (PlainResponse StatusServiceUnavailable
       "Service Unavailable: No healthy backend servers available.
"), wlc) /\
  (forall path fwd,
      reserved_health path = false -> reserved_metrics path = false ->
      NextServer (servers wlc) = server ->
      ServeHTTP wlc path fwd = (Responded unavailable, wlc)).
Proof.
  intros H.
  assert (ServeHTTP_dispatch wlc server = (Finished unavailable, wlc)) as E.
  { destruct H as [->|(i & s & -> & Hs & Hh)]; [reflexivity|].
    unfold ServeHTTP_dispatch. now rewrite Hs, Hh. }
  split; [exact E|].
  intros path fwd Hp Hm Hsel. unfold ServeHTTP, ServeHTTP_enter.
  now rewrite Hp, Hm, Hsel, E.
Qed.

Lemma C4_unavailable_no_change_witness :
  ServeHTTP (mkWLC [mkServer "http://a" 0 1 0 false 2 0] 5) "/api" (Forwarded 200)
  = (Responded unavailable, mkWLC [mkServer "http://a" 0 1 0 false 2 0] 5).
Proof.
  apply (proj2 (C4_unavailable_no_change
                  (mkWLC [mkServer "http://a" 0 1 0 false 2 0] 5) None
                  (or_introl eq_refl)));
    reflexivity.
Defined.

(** *** Wrap-around *)

Lemma wrap_int32_range z : int32_range (wrap_int32 z).
Proof.
  unfold int32_range, wrap_int32.
  pose proof (Z.mod_pos_bound (z + 2 ^ 31) (2 ^ 32) ltac:(lia)). lia.
Qed.

Lemma wrap_int32_id z : int32_range z -> wrap_int32 z = z.
Proof.
  unfold int32_range, wrap_int32. intros H.
  rewrite Z.mod_small by lia. lia.
Qed.

Lemma wrap_int32_add a b : wrap_int32 (wrap_int32 a + b) = wrap_int32 (a + b).
Proof.
  unfold wrap_int32. f_equal.
  replace ((a + 2 ^ 31) mod 2 ^ 32 - 2 ^ 31 + b + 2 ^ 31)
    with ((a + 2 ^ 31) mod 2 ^ 32 + b) by lia.
  rewrite Z.add_mod_idemp_l by lia. f_equal. lia.
Qed.

Lemma wrap_uint64_add a b : wrap_uint64 (wrap_uint64 a + b) = wrap_uint64 (a + b).
Proof. unfold wrap_uint64. now rewrite Z.add_mod_idemp_l by lia. Qed.

Lemma wrap_uint64_id z : uint64_range z -> wrap_uint64 z = z.
Proof. unfold uint64_range, wrap_uint64. intros H. now apply Z.mod_small. Qed.

(** *** Stores through a pointer *)

Lemma update_server_nth_eq f l : forall i s,
  nth_error l i = Some s -> nth_error (update_server i f l) i = Some (f s).
Proof.
  induction l as [|x l IH]; intros [|i] s H; cbn in *; try discriminate.
  - congruence.
  - now apply IH.
Qed.

Lemma update_server_nth_neq f l : forall i j,
  i <> j -> nth_error (update_server i f l) j = nth_error l j.
Proof.
  induction l as [|x l IH]; intros i j H; [now destruct i|].
  destruct i as [|i], j as [|j]; cbn; try reflexivity; try congruence.
  apply IH. congruence.
Qed.

Lemma release_acquire s :
  int32_range (ActiveConnections s) ->
  release (acquire s)
  = mkServer (URL s) (ActiveConnections s) (Weight s)
             (wrap_uint64 (RequestCount s + 1)) (IsHealthy s) (FailureCount s)
             (LastCheckTime s).
Proof.
  intros H. unfold release, acquire. cbn. f_equal.
  replace (wrap_int32 (ActiveConnections s + 1) - 1)
    with (wrap_int32 (ActiveConnections s + 1) + -1) by lia.
  rewrite wrap_int32_add.
  replace (ActiveConnections s + 1 + -1) with (ActiveConnections s) by lia.
  now apply wrap_int32_id.
Qed.

(** One call that reaches the reverse proxy. *)
Lemma ServeHTTP_forwarded wlc path fwd i s :
  reserved_health path = false -> reserved_metrics path = false ->
  NextServer (servers wlc) = Some i -> nth_error (servers wlc) i = Some s ->
  ServeHTTP_enter wlc path
  = (Forwarding i, mkWLC (update_server i acquire (servers wlc))
                         (wrap_uint64 (totalRequests wlc + 1))) /\
  ServeHTTP wlc path fwd
  = (match fwd with
     | Forwarded status => Responded (ProxyResponse status)
     | ForwardPanic => Panicked
     end,
     mkWLC (update_server i release (update_server i acquire (servers wlc)))
           (wrap_uint64 (totalRequests wlc + 1))).
Proof.
  intros Hp Hm Hsel Hs.
  destruct (NextServer_healthy _ _ _ Hsel Hs) as [Hh _].
  assert (ServeHTTP_enter wlc path
          = (Forwarding i, mkWLC (update_server i acquire (servers wlc))
                                 (wrap_uint64 (totalRequests wlc + 1)))) as E.
  { unfold ServeHTTP_enter, ServeHTTP_dispatch. now rewrite Hp, Hm, Hsel, Hs, Hh. }
  split; [exact E|]. unfold ServeHTTP. rewrite E. now destruct fwd.
Qed.

Section OneServer.

Variable s0 : Server.
Hypothesis s0_weight : 1 <= Weight s0.

Lemma remove_one_repeat i n :
  remove_one i (repeat 0%nat n)
  = match n with
    | O => None
    | S n' => if Nat.eqb i 0 then Some (repeat 0%nat n') else None
    end.
Proof.
  destruct n as [|n]; [reflexivity|]. cbn [repeat remove_one].
  destruct (Nat.eqb i 0) eqn:E; [reflexivity|].
  assert (remove_one i (repeat 0%nat n) = None) as ->; [|reflexivity].
  induction n as [|n IH]; [reflexivity|]. cbn [repeat remove_one].
  now rewrite E, IH.
Qed.

Lemma one_server_selects n k :
  NextServer (servers (balancer (one_server s0 n k))) = Some 0%nat.
Proof.
  cbn [one_server balancer servers NextServer NextServer_loop].
  rewrite Ratio_eligible; [reflexivity|reflexivity|exact s0_weight|].
  apply wrap_int32_range.
Qed.

Lemma one_server_enter path n k :
  step (EvEnter path) (one_server s0 n k)
  = Some (if is_dispatch (EvEnter path)
          then one_server s0 (S n) (S k) else one_server s0 n k).
Proof.
  unfold step, ServeHTTP_enter. cbn [is_dispatch].
  destruct (reserved_health path); [reflexivity|].
  destruct (reserved_metrics path); [reflexivity|].
  rewrite one_server_selects. cbn [negb andb].
  cbn [one_server balancer servers inflight ServeHTTP_dispatch nth_error
       IsHealthy negb update_server totalRequests acquire URL Weight
       ActiveConnections RequestCount FailureCount LastCheckTime repeat].
  unfold acquire, one_server.
  cbn [URL Weight ActiveConnections RequestCount IsHealthy FailureCount
       LastCheckTime repeat].
  rewrite wrap_int32_add, !wrap_uint64_add.
  now rewrite !Nat2Z.inj_succ.
Qed.

Lemma one_server_release n k :
  ServeHTTP_exit (balancer (one_server s0 (S n) k)) 0
  = balancer (one_server s0 n k).
Proof.
  unfold one_server, ServeHTTP_exit.
  cbn [balancer servers totalRequests update_server]. unfold release.
  cbn [URL Weight ActiveConnections RequestCount IsHealthy FailureCount
       LastCheckTime].
  replace (wrap_int32 (Z.of_nat (S n)) - 1)
    with (wrap_int32 (Z.of_nat (S n)) + -1) by lia.
  rewrite wrap_int32_add.
  now replace (Z.of_nat (S n) + -1) with (Z.of_nat n) by lia.
Qed.

Lemma one_server_exit i n k st :
  step (EvExit i) (one_server s0 n k) = Some st ->
  exists n', n = S n' /\ st = one_server s0 n' k.
Proof.
  unfold step. replace (inflight (one_server s0 n k)) with (repeat 0%nat n)
    by reflexivity.
  rewrite remove_one_repeat.
  destruct n as [|n']; [discriminate|].
  destruct (Nat.eqb_spec i 0) as [->|]; [|discriminate].
  rewrite one_server_release. intros E. exists n'.
  split; [reflexivity|]. now injection E as <-.
Qed.

Lemma one_server_run evs : forall n k st,
  forallb is_request evs = true ->
  run evs (one_server s0 n k) = Some st ->
  exists n', st = one_server s0 n' (k + dispatches evs).
Proof.
  induction evs as [|ev evs IH]; intros n k st Hreq Hrun.
  - injection Hrun as <-. exists n. unfold dispatches. cbn.
    now rewrite Nat.add_0_r.
  - cbn [forallb] in Hreq. apply andb_prop in Hreq. destruct Hreq as [Hev Hreq].
    cbn [run] in Hrun. unfold dispatches. cbn [filter].
    destruct ev as [path|i|i now r|env]; [| |discriminate|discriminate].
    + rewrite one_server_enter in Hrun.
      destruct (is_dispatch (EvEnter path)).
      * destruct (IH _ _ _ Hreq Hrun) as [n' ->]. exists n'.
        cbn [List.length]. fold (dispatches evs). f_equal. lia.
      * exact (IH _ _ _ Hreq Hrun).
    + cbn [is_dispatch].
      destruct (step (EvExit i) (one_server s0 n k)) as [st1|] eqn:E;
        [|discriminate].
      destruct (one_server_exit _ _ _ _ E) as (n1 & -> & ->).
      exact (IH _ _ _ Hreq Hrun).
Qed.

End OneServer.

(** *** Accounting along a schedule *)

Lemma remove_one_count j l rest :
  remove_one j l = Some rest ->
  forall i,
    count_occ Nat.eq_dec l i
    = ((if Nat.eqb i j then 1 else 0) + count_occ Nat.eq_dec rest i)%nat.
Proof.
  revert rest. induction l as [|x l IH]; intros rest H i; [discriminate|].
  cbn [remove_one] in H. destruct (Nat.eqb_spec j x) as [->|Hjx].
  - injection H as <-. cbn [count_occ].
    destruct (Nat.eq_dec x i) as [->|Hne].
    + now rewrite Nat.eqb_refl.
    + destruct (Nat.eqb_spec i x); [congruence|reflexivity].
  - destruct (remove_one j l) as [rest'|]; [|discriminate].
    injection H as <-. cbn [count_occ]. rewrite (IH rest' eq_refl i).
    destruct (Nat.eq_dec x i) as [->|Hne]; [|reflexivity].
    destruct (Nat.eqb_spec i j); [congruence|]. reflexivity.
Qed.

Lemma update_server_nth_inv f l : forall i j s',
  nth_error (update_server i f l) j = Some s' ->
  exists s, nth_error l j = Some s /\
            s' = if Nat.eqb i j then f s else s.
Proof.
  induction l as [|x l IH]; intros i j s' H; [now destruct i, j|].
  destruct i as [|i], j as [|j]; cbn in *.
  - injection H as <-. now exists x.
  - now exists s'.
  - injection H as <-. now exists x.
  - now apply IH.
Qed.

Lemma accounted_step ev st st' r :
  accounted st r -> step ev st = Some st' ->
  accounted st' (fun i => ((if enters_to i ev st then 1 else 0) + r i)%nat).
Proof.
  intros Acc Hstep i s' Hs'.
  destruct ev as [path|j|j now pr|env]; cbn [step] in Hstep.
  - cbn [enters_to]. unfold ServeHTTP_enter in *.
    destruct (reserved_health path);
      [injection Hstep as <-; exact (Acc i s' Hs')|].
    destruct (reserved_metrics path);
      [injection Hstep as <-; exact (Acc i s' Hs')|].
    unfold ServeHTTP_dispatch in *.
    destruct (NextServer (servers (balancer st))) as [j|];
      [|injection Hstep as <-; exact (Acc i s' Hs')].
    destruct (nth_error (servers (balancer st)) j) as [sj|] eqn:Hj;
      [|injection Hstep as <-; exact (Acc i s' Hs')].
    destruct (IsHealthy sj); cbn [negb fst] in *;
      [|injection Hstep as <-; exact (Acc i s' Hs')].
    injection Hstep as <-. cbn [balancer servers] in Hs'.
    apply update_server_nth_inv in Hs'. destruct Hs' as (s & Hs & ->).
    destruct (Acc i s Hs) as [Ha Hr].
    unfold in_flight_to in *. cbn [inflight count_occ].
    rewrite (Nat.eqb_sym i j).
    destruct (Nat.eqb_spec j i) as [->|Hne].
    + destruct (Nat.eq_dec i i) as [_|]; [|congruence].
      cbn [acquire ActiveConnections RequestCount]. rewrite Ha, Hr.
      rewrite wrap_int32_add, wrap_uint64_add. split; f_equal; lia.
    + destruct (Nat.eq_dec j i); [congruence|]. now split.
  - destruct (remove_one j (inflight st)) as [rest|] eqn:Hrm; [|discriminate].
    injection Hstep as <-. cbn [balancer servers ServeHTTP_exit] in Hs'.
    apply update_server_nth_inv in Hs'. destruct Hs' as (s & Hs & ->).
    destruct (Acc i s Hs) as [Ha Hr].
    unfold in_flight_to in *. cbn [inflight enters_to Nat.add].
    pose proof (remove_one_count j _ _ Hrm i) as Hc. rewrite (Nat.eqb_sym i j) in Hc.
    destruct (Nat.eqb_spec j i) as [->|Hne].
    + cbn [release ActiveConnections RequestCount]. rewrite Ha. split; [|exact Hr].
      replace (wrap_int32 (Z.of_nat (count_occ Nat.eq_dec (inflight st) i)) - 1)
        with (wrap_int32 (Z.of_nat (count_occ Nat.eq_dec (inflight st) i)) + -1)
        by lia.
      rewrite wrap_int32_add. f_equal. lia.
    + rewrite Ha, Hr, Hc. now split.
  - injection Hstep as <-. cbn [balancer servers enters_to Nat.add] in *.
    apply update_server_nth_inv in Hs'. destruct Hs' as (s & Hs & ->).
    destruct (Acc i s Hs) as [Ha Hr]. unfold in_flight_to in *. cbn [inflight].
    destruct (Nat.eqb j i); [|now split].
    unfold probe_server, HealthCheck.
    destruct pr as [|status]; [now split|].
    now destruct (status =? StatusOK).
  - injection Hstep as <-. cbn [balancer inflight enters_to Nat.add] in *.
    pose proof (performHealthChecks_nth env (balancer st) i) as Hn.
    rewrite Hs' in Hn.
    destruct (nth_error (servers (balancer st)) i) as [s|] eqn:Hs;
      [|discriminate].
    cbn [option_map] in Hn. injection Hn as ->.
    destruct (Acc i s Hs) as [Ha Hr]. unfold in_flight_to in *. cbn [inflight].
    unfold probe_server, HealthCheck.
    destruct (snd (env i)) as [|status]; [now split|].
    now destruct (status =? StatusOK).
Qed.

Lemma accounted_run evs : forall st st' r,
  accounted st r -> run evs st = Some st' ->
  accounted st' (fun i => (dispatched_to i evs st + r i)%nat).
Proof.
  induction evs as [|ev evs IH]; intros st st' r Acc Hrun.
  - injection Hrun as <-. exact Acc.
  - cbn [run] in Hrun. destruct (step ev st) as [st1|] eqn:Hstep; [|discriminate].
    pose proof (IH st1 st' _ (accounted_step ev st st1 r Acc Hstep) Hrun) as Acc'.
    intros i s Hs. destruct (Acc' i s Hs) as [Ha Hr].
    split; [exact Ha|]. rewrite Hr. cbn [dispatched_to]. rewrite Hstep.
    f_equal. lia.
Qed.

(** C3: a request on a non-reserved path for which a server is selected
    increments that server's activeConnections and totalRequests once each
    before the reverse proxy is called, and decrements activeConnections once
    when the call ends, whether the proxy returns or panics; the other
    servers are untouched. Hence, from a pool of fresh servers and under any
    interleaving of requests and health checks, each server's
    activeConnections is the number of its requests in flight and its
    totalRequests the number N of requests dispatched to it (as int32 and
    uint64 values): once all have completed, activeConnections is 0 and
    totalRequests is N (N below 2^64). In a pool of one healthy server every
    request on a non-reserved path is such a dispatch. *)
Theorem C3_dispatch_accounting :
  (forall wlc path fwd i s,
      reserved_health path = false -> reserved_metrics path = false ->
      NextServer (servers wlc) = Some i -> nth_error (servers wlc) i = Some s ->
      int32_range (ActiveConnections s) ->
      exists wlc1,
        ServeHTTP_enter wlc path = (Forwarding i, wlc1) /\
        nth_error (servers wlc1) i = Some (acquire s) /\
        ActiveConnections (acquire s) = wrap_int32 (ActiveConnections s + 1) /\
        RequestCount (acquire s) = wrap_uint64 (RequestCount s + 1) /\
        ServeHTTP wlc path fwd
        = (match fwd with
           | Forwarded status => Responded (ProxyResponse status)
           | ForwardPanic => Panicked
           end, ServeHTTP_exit wlc1 i) /\
        nth_error (servers (ServeHTTP_exit wlc1 i)) i
        = Some (mkServer (URL s) (ActiveConnections s) (Weight s)
                         (wrap_uint64 (RequestCount s + 1)) (IsHealthy s)
                         (FailureCount s) (LastCheckTime s)) /\
        (forall j, j <> i ->
                   nth_error (servers (ServeHTTP_exit wlc1 i)) j
                   = nth_error (servers wlc) j)) /\
  (forall pool evs st i s,
      (forall s0, In s0 pool -> ActiveConnections s0 = 0 /\ RequestCount s0 = 0) ->
      run evs (start pool) = Some st ->
      nth_error (servers (balancer st)) i = Some s ->
      ActiveConnections s = wrap_int32 (in_flight_to i st) /\
      RequestCount s
      = wrap_uint64 (Z.of_nat (dispatched_to i evs (start pool))) /\
      (inflight st = [] ->
       Z.of_nat (dispatched_to i evs (start pool)) < 2 ^ 64 ->
       ActiveConnections s = 0 /\
       RequestCount s = Z.of_nat (dispatched_to i evs (start pool)))) /\
  (forall s0 evs st,
      IsHealthy s0 = true -> 1 <= Weight s0 ->
      ActiveConnections s0 = 0 -> RequestCount s0 = 0 ->
      forallb is_request evs = true ->
      run evs (start [s0]) = Some st -> inflight st = [] ->
      Z.of_nat (dispatches evs) < 2 ^ 64 ->
      servers (balancer st)
      = [mkServer (URL s0) 0 (Weight s0) (Z.of_nat (dispatches evs)) true
                  (FailureCount s0) (LastCheckTime s0)]).
Proof.
  split; [|split].
  - intros wlc path fwd i s Hp Hm Hsel Hs Hc.
    destruct (ServeHTTP_forwarded wlc path fwd i s Hp Hm Hsel Hs) as [E1 E2].
    eexists. split; [exact E1|]. cbn [servers].
    split; [now apply update_server_nth_eq|].
    split; [reflexivity|]. split; [reflexivity|].
    split; [exact E2|]. unfold ServeHTTP_exit. cbn [servers]. split.
    + rewrite <- (release_acquire s Hc).
      now apply update_server_nth_eq, update_server_nth_eq.
    + intros j Hj. now rewrite !update_server_nth_neq by congruence.
  - intros pool evs st i s Hfresh Hrun Hs.
    assert (accounted (start pool) (fun _ => 0%nat)) as Acc0.
    { intros j sj Hj. apply nth_error_In in Hj.
      destruct (Hfresh sj Hj) as [-> ->]. split; reflexivity. }
    destruct (accounted_run evs _ st _ Acc0 Hrun i s Hs) as [Ha Hr].
    rewrite Nat.add_0_r in Hr. split; [exact Ha|]. split; [exact Hr|].
    intros Hdone Hn. split.
    + rewrite Ha. unfold in_flight_to. now rewrite Hdone.
    + rewrite Hr. apply wrap_uint64_id. unfold uint64_range. lia.
  - intros s0 evs st Hh Hw Ha Hr Hreq Hrun Hdone Hn.
    assert (start [s0] = one_server s0 0 0) as E.
    { destruct s0 as [u a w r h f t]. cbn in Hh, Ha, Hr. subst. reflexivity. }
    rewrite E in Hrun.
    destruct (one_server_run s0 Hw evs 0%nat 0%nat st Hreq Hrun) as [n' ->].
    cbn [one_server inflight] in Hdone. destruct n' as [|n']; [|discriminate].
    cbn [one_server balancer servers Nat.add].
    rewrite wrap_uint64_id by (unfold uint64_range; lia). reflexivity.
Qed.

Lemma C3_dispatch_accounting_witness :
  servers (balancer
    (mkSystem (mkWLC [mkServer "http://a" 0 1 2 true 0 0] 2) []))
  = [mkServer "http://a" 0 1
       (Z.of_nat (dispatches [EvEnter "/a"; EvEnter "/b"; EvExit 0; EvExit 0]))
       true 0 0].
Proof.
  apply (proj2 (proj2 C3_dispatch_accounting) (mkServer "http://a" 0 1 0 true 0 0)
           [EvEnter "/a"; EvEnter "/b"; EvExit 0; EvExit 0]).
  - reflexivity.
  - cbn. lia.
  - reflexivity.
  - reflexivity.
  - reflexivity.
  - vm_compute. reflexivity.
  - reflexivity.
  - vm_compute. reflexivity.
Defined.

(** ** Atomic operations *)

Lemma map_update_server {A : Type} (g : Server -> A) f l : forall i,
  (forall s, g (f s) = g s) -> map g (update_server i f l) = map g l.
Proof.
  induction l as [|x l IH]; intros i Hf; [now destruct i|].
  destruct i as [|i]; cbn; [now rewrite Hf|]. now rewrite IH.
Qed.

Lemma Ratio_loads s :
  Ratio s = if negb (IsHealthy s) then lit_1e18 else Ratio_loaded s.
Proof. reflexivity. Qed.

Lemma acquire_increments s : acquire s = add_request (add_active s).
Proof. reflexivity. Qed.

(** The three stores of a probe, one after the other, are the probe. *)
Lemma probe_server_stores now r s :
  probe_server now r s
  = store_healthy (probe_ok r) (count_probe r (store_last_check now s)).
Proof.
  unfold probe_server, HealthCheck, count_probe, store_healthy, store_last_check,
    probe_ok.
  destruct r as [|status]; [reflexivity|].
  now destruct (status =? StatusOK).
Qed.

Lemma count_requests_app f l p :
  count_requests f (l ++ [p])
  = (count_requests f l + if f p then 1 else 0)%nat.
Proof.
  unfold count_requests. rewrite filter_app, length_app. cbn [filter].
  now destruct (f p).
Qed.

Lemma count_requests_set f l : forall t p p',
  nth_error l t = Some p ->
  (count_requests f (set_request t p' l) + (if f p then 1 else 0)
   = count_requests f l + (if f p' then 1 else 0))%nat.
Proof.
  unfold count_requests.
  induction l as [|q l IH]; intros [|t] p p' H; cbn in H; try discriminate.
  - injection H as ->. cbn [set_request filter].
    destruct (f p), (f p'); cbn [List.length]; lia.
  - cbn [set_request filter]. specialize (IH t p p' H).
    destruct (f q); cbn [List.length]; lia.
Qed.

Lemma forallb_nth_error {A : Type} (f : A -> bool) l t p :
  forallb f l = true -> nth_error l t = Some p -> f p = true.
Proof.
  intros H Hp. rewrite forallb_forall in H. apply H.
  now apply nth_error_In with (n := t).
Qed.

Lemma forallb_set_request f l : forall t p',
  forallb f l = true -> f p' = true -> forallb f (set_request t p' l) = true.
Proof.
  induction l as [|q l IH]; intros [|t] p' H Hp; cbn in *; try reflexivity.
  - apply andb_prop in H. destruct H as [_ H]. now rewrite Hp.
  - apply andb_prop in H. destruct H as [Hq H]. rewrite Hq. now apply IH.
Qed.

(** ** The pool-wide request counter *)

Lemma sum_requests_update f l : forall i s,
  nth_error l i = Some s ->
  sum_requests (update_server i f l)
  = sum_requests l - RequestCount s + RequestCount (f s).
Proof.
  induction l as [|x l IH]; intros [|i] s H; cbn in *; try discriminate.
  - injection H as ->. lia.
  - rewrite (IH i s H). lia.
Qed.

Lemma update_server_Forall (P : Server -> Prop) f l : forall i,
  (forall s, P s -> P (f s)) -> Forall P l -> Forall P (update_server i f l).
Proof.
  induction l as [|x l IH]; intros i Hf Hall; [now destruct i|].
  inversion Hall as [|? ? Hx Hl]; subst.
  destruct i as [|i]; cbn; constructor; auto.
Qed.

Lemma sum_requests_bound l : forall i s,
  Forall (fun s => 0 <= RequestCount s) l ->
  nth_error l i = Some s -> 0 <= RequestCount s <= sum_requests l.
Proof.
  induction l as [|x l IH]; intros i s Hall H; [now destruct i|].
  inversion Hall as [|? ? Hx Hl]; subst.
  assert (0 <= sum_requests l) as Hsum.
  { clear -Hl. induction Hl; cbn; lia. }
  destruct i as [|i]; cbn in *.
  - injection H as ->. lia.
  - specialize (IH i s Hl H). lia.
Qed.

Lemma count_probe_RequestCount r s :
  RequestCount (count_probe r s) = RequestCount s.
Proof.
  unfold count_probe.
  destruct r as [|status]; [reflexivity|]. now destruct (status =? StatusOK).
Qed.

Lemma sum_requests_counts l : forall l',
  map RequestCount l' = map RequestCount l ->
  sum_requests l' = sum_requests l /\
  (Forall (fun s => 0 <= RequestCount s) l ->
   Forall (fun s => 0 <= RequestCount s) l').
Proof.
  induction l as [|x l IH]; intros [|x' l'] E; cbn in E; try discriminate.
  - split; auto.
  - injection E as Ex El. destruct (IH l' El) as [Es Ef]. split.
    + cbn. now rewrite Ex, Es.
    + intros Hall. inversion Hall; subst. constructor; [lia|auto].
Qed.

(** What the next operation of a request does to the request counters: it
    is the increment of a server's count, the increment of the pool-wide
    counter, or it leaves all of them alone. *)
Lemma request_step_counters wlc p wlc' p' :
  request_step wlc p = Some (wlc', p') ->
  (exists i s,
      p = ActiveAdded i /\ p' = RequestCounted i /\
      nth_error (servers wlc) i = Some s /\
      wlc' = mkWLC (update_server i add_request (servers wlc))
                   (totalRequests wlc)) \/
  (exists i,
      p = RequestCounted i /\ p' = InProxy i /\
      wlc' = mkWLC (servers wlc) (wrap_uint64 (totalRequests wlc + 1))) \/
  (totalRequests wlc' = totalRequests wlc /\
   map RequestCount (servers wlc') = map RequestCount (servers wlc) /\
   (forall i, p <> ActiveAdded i) /\
   counted_once p = false /\ counted_once p' = false).
Proof.
  intros H.
  destruct p as [k b r|k b r|[i|]|i|i|i|i|k n| |total k done
                 |total k next entry done| ];
    cbn [request_step] in H.
  - right; right.
    destruct (nth_error (servers wlc) k) as [s|]; [|injection H as <- <-; now auto].
    unfold next_best in H.
    destruct (negb (IsHealthy s)); [|injection H as <- <-; now auto].
    destruct (ltb lit_1e18 r); injection H as <- <-; now auto.
  - right; right.
    destruct (nth_error (servers wlc) k) as [s|]; [|discriminate].
    unfold next_best in H.
    destruct (ltb (Ratio_loaded s) r); injection H as <- <-; now auto.
  - right; right.
    destruct (nth_error (servers wlc) i) as [s|]; [|injection H as <- <-; now auto].
    destruct (negb (IsHealthy s)); injection H as <- <-; now auto.
  - right; right. injection H as <- <-. now auto.
  - right; right.
    destruct (nth_error (servers wlc) i) as [s|]; [|discriminate].
    injection H as <- <-. cbn [servers totalRequests].
    rewrite map_update_server by reflexivity. now auto.
  - left. destruct (nth_error (servers wlc) i) as [s|] eqn:Hs; [|discriminate].
    injection H as <- <-. now exists i, s.
  - right; left. injection H as <- <-. now exists i.
  - discriminate.
  - right; right.
    destruct (nth_error (servers wlc) k) as [s|]; injection H as <- <-; now auto.
  - right; right. injection H as <- <-. now auto.
  - right; right.
    destruct (nth_error (servers wlc) k) as [s|]; injection H as <- <-; now auto.
  - right; right.
    destruct (nth_error (servers wlc) k) as [s|]; [|discriminate].
    destruct next; try (injection H as <- <-; now auto).
    destruct (negb (IsHealthy s)); injection H as <- <-; now auto.
  - discriminate.
Qed.

(** The same for an operation of the program. *)
Lemma atomic_step_counters op st st' :
  atomic_step op st = Some st' ->
  (exists i s,
      counts_request i op st = true /\ counts_total op st = false /\
      nth_error (servers (shared st)) i = Some s /\
      shared st' = mkWLC (update_server i add_request (servers (shared st)))
                         (totalRequests (shared st)) /\
      between_increments st' = S (between_increments st)) \/
  (counts_total op st = true /\
   (forall i, counts_request i op st = false) /\
   shared st' = mkWLC (servers (shared st))
                      (wrap_uint64 (totalRequests (shared st) + 1)) /\
   S (between_increments st') = between_increments st) \/
  (counts_total op st = false /\
   (forall i, counts_request i op st = false) /\
   totalRequests (shared st') = totalRequests (shared st) /\
   map RequestCount (servers (shared st'))
   = map RequestCount (servers (shared st)) /\
   between_increments st' = between_increments st).
Proof.
  unfold between_increments.
  destruct op as [path|t|t fwd|i now|i r|i b];
    cbn [atomic_step counts_request counts_total]; intros H.
  - right; right. injection H as <-. cbn [shared requests].
    rewrite count_requests_app.
    assert (counted_once (entry_pc (shared st) path) = false) as ->.
    { unfold entry_pc. destruct (reserved_health path); [reflexivity|].
      destruct (reserved_metrics path); [reflexivity|].
      now destruct (servers (shared st)). }
    repeat split; auto.
  - destruct (nth_error (requests st) t) as [p|] eqn:Hp; [|discriminate].
    destruct (request_step (shared st) p) as [[wlc' p']|] eqn:Hstep;
      [|discriminate].
    injection H as <-. cbn [shared requests].
    pose proof (count_requests_set counted_once _ t p p' Hp) as Hc.
    destruct (request_step_counters _ _ _ _ Hstep)
      as [(i & s & -> & -> & Hs & ->)|[(i & -> & -> & ->)
          |(Ht & Hm & Hna & Hf & Hf')]].
    + left. exists i, s. cbn [counted_once] in Hc.
      rewrite Nat.eqb_refl. repeat split; auto. lia.
    + right; left. cbn [counted_once] in Hc. repeat split; auto. lia.
    + right; right. rewrite Hf, Hf' in Hc.
      assert (forall i, match p with
                        | ActiveAdded j => Nat.eqb i j
                        | _ => false
                        end = false) as Hnr.
      { intros i. destruct p; try reflexivity. now destruct (Hna server). }
      assert (match p with RequestCounted _ => true | _ => false end = false)
        as Hnt by (destruct p; try reflexivity; discriminate).
      repeat split; auto. lia.
  - destruct (nth_error (requests st) t) as [[]|] eqn:Hp; try discriminate.
    injection H as <-. cbn [shared requests ServeHTTP_exit servers totalRequests].
    pose proof (count_requests_set counted_once _ t _ Done Hp) as Hc.
    cbn [counted_once] in Hc. right; right.
    rewrite map_update_server by reflexivity. repeat split; auto. lia.
  - right; right. injection H as <-. cbn [store shared requests servers totalRequests].
    rewrite map_update_server by reflexivity. repeat split; auto.
  - right; right. injection H as <-. cbn [store shared requests servers totalRequests].
    rewrite map_update_server by (intros; apply count_probe_RequestCount).
    repeat split; auto.
  - right; right. injection H as <-. cbn [store shared requests servers totalRequests].
    rewrite map_update_server by reflexivity. repeat split; auto.
Qed.

Lemma counters_agree_step k op st st' :
  0 <= k -> counters_agree k st -> atomic_step op st = Some st' ->
  exists k', k <= k' <= k + 1 /\ counters_agree k' st'.
Proof.
  intros Hk (Hn & Ht & Hm & He & Hall) Hstep. unfold counters_agree.
  destruct (atomic_step_counters op st st' Hstep)
    as [(i & s & _ & _ & Hs & -> & ->)|[(_ & _ & -> & Hb)|(_ & _ & Et & Em & ->)]];
    cbn [servers totalRequests].
  - exists (k + 1). split; [lia|].
    rewrite (sum_requests_update add_request _ i s Hs).
    pose proof (sum_requests_bound _ i s Hall Hs) as Hb.
    change (RequestCount (add_request s)) with (wrap_uint64 (RequestCount s + 1)).
    split; [lia|]. split; [|split; [|split]].
    + rewrite Ht. f_equal. lia.
    + unfold wrap_uint64 in *. rewrite Z.add_mod_idemp_r by lia.
      replace (sum_requests (servers (shared st)) - RequestCount s
               + (RequestCount s + 1))
        with (sum_requests (servers (shared st)) + 1) by lia.
      rewrite <- Z.add_mod_idemp_l, Hm, Z.add_mod_idemp_l by lia. reflexivity.
    + intros Hlt. specialize (He ltac:(lia)).
      rewrite wrap_uint64_id by (unfold uint64_range; lia). lia.
    + apply update_server_Forall; [|assumption].
      intros s' _. cbn. unfold wrap_uint64. apply Z.mod_pos_bound. lia.
  - exists k. split; [lia|]. rewrite <- Hb in *.
    split; [lia|]. split; [|auto].
    rewrite Ht, wrap_uint64_add. f_equal. lia.
  - exists k. split; [lia|].
    destruct (sum_requests_counts _ _ Em) as [Es Ef].
    rewrite Es, Et. auto 10.
Qed.

Lemma counters_agree_run ops : forall k st st',
  0 <= k -> counters_agree k st -> atomic_run ops st = Some st' ->
  exists k', k <= k' <= k + Z.of_nat (List.length ops) /\ counters_agree k' st'.
Proof.
  induction ops as [|op ops IH]; intros k st st' Hk Inv Hrun.
  - injection Hrun as <-. exists k. cbn. split; [lia|exact Inv].
  - cbn [atomic_run] in Hrun.
    destruct (atomic_step op st) as [st1|] eqn:Hstep; [|discriminate].
    destruct (counters_agree_step k op st st1 Hk Inv Hstep) as (k1 & Hk1 & Inv1).
    destruct (IH k1 st1 st' ltac:(lia) Inv1 Hrun) as (k' & Hk' & Inv').
    exists k'. split; [|exact Inv']. cbn [List.length]. lia.
Qed.

Lemma counters_agree_start pool :
  (forall s, In s pool -> RequestCount s = 0) ->
  counters_agree 0 (atomic_start pool).
Proof.
  intros Hfresh. unfold counters_agree, atomic_start, NewWeightedLeastConnection.
  cbn [shared servers totalRequests].
  assert (sum_requests pool = 0 /\ Forall (fun s => 0 <= RequestCount s) pool)
    as [E F].
  { induction pool as [|x l IH]; [split; [reflexivity|constructor]|].
    destruct IH as [E F]; [intros s Hs; apply Hfresh; now right|].
    pose proof (Hfresh x (or_introl eq_refl)) as Hx. split.
    - cbn. lia.
    - constructor; [lia|exact F]. }
  rewrite E. repeat split; auto. cbn. lia.
Qed.

(** C6, as stated, fails: once a request has executed [RequestCount.Add(1)]
    and before it executes [totalRequests++], the sum of the per-server
    counts is 1 and the pool-wide counter 0. *)
Lemma C6_counterexample :
  atomic_run [Arrive "/api"; Advance 0; Advance 0; Advance 0; Advance 0;
              Advance 0; Advance 0]
             (atomic_start [mkServer "http://a" 0 1 0 true 0 0])
  = Some (mkConcurrent (mkWLC [mkServer "http://a" 1 1 1 true 0 0] 0)
                       [RequestCounted 0]) /\
  totalRequests (mkWLC [mkServer "http://a" 1 1 1 true 0 0] 0)
  <> sum_requests (servers (mkWLC [mkServer "http://a" 1 1 1 true 0 0] 0)).
Proof.
  split; [vm_compute; reflexivity|]. cbn. discriminate.
Qed.

(** C6, amended: the pool-wide request counter equals the sum of the
    per-server request counts whenever no request is between its
    [RequestCount.Add(1)] and its [totalRequests++]; in general the sum is
    ahead of the counter by the number of requests that are between the two.
    This holds in every state the balancer reaches from a pool of fresh
    servers, operations of requests and of the health monitor interleaved
    in any way: for the counters as uint64 values, and as an equality of
    integers as long as fewer than 2^64 operations have run. Every
    operation changes the counters as follows: [RequestCount.Add(1)] adds 1
    to the count of its server, [totalRequests++] adds 1 to the pool-wide
    counter, and every other operation leaves all of them alone. *)
Theorem C6_total_is_sum_when_quiescent (pool : list Server)
    (ops : list operation) (st : concurrent) :
  (forall s, In s pool -> RequestCount s = 0) ->
  atomic_run ops (atomic_start pool) = Some st ->
  let total := totalRequests (shared st) in
  let sum := sum_requests (servers (shared st)) in
  let n := Z.of_nat (between_increments st) in
  wrap_uint64 (total + n) = wrap_uint64 sum /\
  (quiescent st -> total = wrap_uint64 sum) /\
  (Z.of_nat (List.length ops) < 2 ^ 64 ->
   total + n = sum /\ (quiescent st -> total = sum)) /\
  (forall op st',
      atomic_step op st = Some st' ->
      totalRequests (shared st')
      = (if counts_total op st then wrap_uint64 (total + 1) else total) /\
      List.length (servers (shared st')) = List.length (servers (shared st)) /\
      forall i s s',
        nth_error (servers (shared st)) i = Some s ->
        nth_error (servers (shared st')) i = Some s' ->
        RequestCount s'
        = if counts_request i op st then wrap_uint64 (RequestCount s + 1)
          else RequestCount s).
Proof.
  intros Hfresh Hrun. cbv zeta.
  destruct (counters_agree_run ops 0 _ st ltac:(lia)
              (counters_agree_start pool Hfresh) Hrun)
    as (k & Hk & Hn & Ht & Hm & He & Hall).
  split; [|split; [|split]].
  - rewrite Ht, wrap_uint64_add, Hm. f_equal. lia.
  - unfold quiescent. intros Hq. rewrite Hq in Ht. cbn in Ht.
    rewrite Z.sub_0_r in Ht. congruence.
  - intros Hlen. specialize (He ltac:(lia)).
    assert (totalRequests (shared st)
            = k - Z.of_nat (between_increments st)) as Et.
    { rewrite Ht. apply wrap_uint64_id. unfold uint64_range. lia. }
    split; [lia|]. unfold quiescent. intros Hq. rewrite Hq in Et. cbn in Et. lia.
  - intros op st' Hstep.
    destruct (atomic_step_counters op st st' Hstep)
      as [(i & s & Hi & -> & Hs & -> & _)|[(-> & Hr & -> & _)
          |(-> & Hr & Et & Em & _)]]; cbn [servers totalRequests].
    + split; [reflexivity|]. split.
      * rewrite <- (length_map RequestCount),
          <- (length_map RequestCount (servers (shared st))).
        clear. generalize (servers (shared st)). intros l. revert i.
        induction l as [|x l IH]; intros [|i]; cbn; auto.
      * intros j sj sj' Hj Hj'.
        destruct (Nat.eq_dec i j) as [<-|Hne].
        -- rewrite Hi. rewrite (update_server_nth_eq _ _ _ _ Hs) in Hj'.
           injection Hj' as <-. assert (s = sj) as -> by congruence.
           reflexivity.
        -- rewrite update_server_nth_neq in Hj' by assumption.
           assert (counts_request j op st = false) as ->.
           { unfold counts_request in *. destruct op; try discriminate.
             destruct (nth_error (requests st) t) as [[]|]; try discriminate.
             apply Nat.eqb_eq in Hi. subst. now apply Nat.eqb_neq. }
           congruence.
    + split; [reflexivity|]. split; [reflexivity|].
      intros j sj sj' Hj Hj'. rewrite Hr. congruence.
    + split; [exact Et|]. split.
      * now rewrite <- (length_map RequestCount), Em, length_map.
      * intros j sj sj' Hj Hj'. rewrite Hr.
        apply (map_nth_error RequestCount) in Hj, Hj'.
        rewrite Em in Hj'. congruence.
Qed.

Lemma C6_total_is_sum_when_quiescent_witness :
  totalRequests (mkWLC [mkServer "http://a" 0 1 1 true 0 0;
                        mkServer "http://b" 1 1 1 true 0 0] 2)
  = sum_requests [mkServer "http://a" 0 1 1 true 0 0;
                  mkServer "http://b" 1 1 1 true 0 0].
Proof.
  refine (proj2 (proj1 (proj2 (proj2 (C6_total_is_sum_when_quiescent
            [mkServer "http://a" 0 1 0 true 0 0;
             mkServer "http://b" 0 1 0 true 0 0]
            [Arrive "/x"; Advance 0; Advance 0; Advance 0; Advance 0;
             Advance 0; Advance 0; Advance 0; Advance 0;
             Arrive "/y"; Advance 1; Advance 1; Advance 1; Advance 1;
             Advance 1; Advance 1; Advance 1; Advance 0; Advance 1;
             Advance 1; ProxyReturns 0 (Forwarded 200)]
            (mkConcurrent
               (mkWLC [mkServer "http://a" 0 1 1 true 0 0;
                       mkServer "http://b" 1 1 1 true 0 0] 2)
               [Done; InProxy 1]) _ _))) _) _).
  - intros s [<-|[<-|[]]]; reflexivity.
  - vm_compute. reflexivity.
  - vm_compute. reflexivity.
  - reflexivity.
Defined.

(** ** Configuration parsing *)

Lemma Atoi_int_range weightStr n : Atoi weightStr = Some n -> int_range n.
Proof.
  unfold Atoi. destruct weightStr as [|c rest]; [discriminate|].
  set (body := if (Ascii.eqb c "-" || Ascii.eqb c "+")%bool then rest
               else String c rest).
  destruct body; [discriminate|].
  destruct (digits _ 0) as [v|]; [|discriminate].
  set (w := if Ascii.eqb c "-" then - v else v).
  destruct (int_rangeb w) eqn:R; [|discriminate].
  intros E. injection E as <-. unfold int_rangeb in R.
  apply andb_prop in R. destruct R as [R1 R2].
  apply Z.leb_le in R1. apply Z.ltb_lt in R2. unfold int_range. lia.
Qed.

Section ConfigFacts.

Variable url_Parse : string -> option string.
Variable clock : nat -> Z.

Local Abbreviation parse_parts := (parse_parts url_Parse clock).

(** One turn of the loop on a part that is not blank. *)
Lemma parse_parts_cons part rest servers :
  parse_parts (part :: rest) servers
  = if String.eqb (TrimSpace part) "" then parse_parts rest servers
    else
      match Split (TrimSpace part) "/" with
      | [rawURL; weightStr] =>
          match Atoi weightStr with
          | None => (servers, Some (ErrInvalidWeight (with_scheme rawURL)))
          | Some weight =>
              if weight <? 1
              then (servers, Some (ErrInvalidWeight (with_scheme rawURL)))
              else
                match NewServer url_Parse (clock (List.length servers))
                                (with_scheme rawURL) weight with
                | None => (servers, Some (ErrParseURL (with_scheme rawURL)))
                | Some server => parse_parts rest (servers ++ [server])
                end
          end
      | _ => (servers, Some (ErrInvalidFormat (TrimSpace part)))
      end.
Proof. reflexivity. Qed.

Lemma parse_parts_grows parts : forall servers,
  exists new,
    fst (parse_parts parts servers) = servers ++ new /\
    (List.length new <= List.length parts)%nat /\
    Forall (constructed_from url_Parse parts) new.
Proof.
  induction parts as [|part rest IH]; intros servers.
  - exists []. cbn. rewrite app_nil_r. auto.
  - assert (forall new,
               Forall (constructed_from url_Parse rest) new ->
               Forall (constructed_from url_Parse (part :: rest)) new) as Hweak.
    { intros new. apply Forall_impl.
      intros s (p & a & w & n & Hin & H). exists p, a, w, n.
      split; [now right|exact H]. }
    assert (exists new : list Server,
               servers = servers ++ new /\
               (List.length new <= List.length (part :: rest))%nat /\
               Forall (constructed_from url_Parse (part :: rest)) new) as Hstop.
    { exists []. rewrite app_nil_r. cbn. repeat split; [lia|constructor]. }
    rewrite parse_parts_cons.
    destruct (String.eqb (TrimSpace part) "").
    { destruct (IH servers) as (new & E & L & F). exists new.
      cbn [List.length]. repeat split; [exact E|lia|now apply Hweak]. }
    destruct (Split (TrimSpace part) "/") as [|addr [|w [|x l]]] eqn:Hsplit;
      try exact Hstop.
    destruct (Atoi w) as [n|] eqn:Hatoi; [|exact Hstop].
    destruct (Z.ltb_spec n 1) as [|Hn]; [exact Hstop|].
    unfold NewServer.
    destruct (url_Parse (with_scheme addr)) as [u|] eqn:Hu; [|exact Hstop].
    destruct (IH (servers ++ [mkServer u 0 n 0 true 0 (clock (List.length servers))]))
      as (new & E & L & F).
    exists (mkServer u 0 n 0 true 0 (clock (List.length servers)) :: new).
    rewrite E, <- app_assoc. cbn [app List.length].
    repeat split; [lia|]. constructor; [|now apply Hweak].
    exists part, addr, w, n. cbn [URL LastCheckTime].
    repeat split; auto; try (now left);
  now apply Atoi_int_range with (weightStr := w).
Qed.

Lemma parse_parts_bad_weight pre : forall part post servers,
  bad_weight_entry part = true ->
  exists servers' e,
    parse_parts (pre ++ part :: post) servers = (servers', Some e) /\
    (List.length servers' <= List.length servers + List.length pre)%nat.
Proof.
  induction pre as [|x pre IH]; intros part post servers Hbad.
  - cbn [app]. rewrite parse_parts_cons.
    unfold bad_weight_entry, weight_rejected in Hbad. cbv zeta in Hbad.
    apply andb_prop in Hbad. destruct Hbad as [Hne Hw].
    apply negb_true_iff in Hne. rewrite Hne.
    destruct (Split (TrimSpace part) "/") as [|addr [|w [|y l]]];
      try discriminate.
    destruct (Atoi w) as [n|].
    + rewrite Hw. eexists _, _. split; [reflexivity|]. cbn. lia.
    + eexists _, _. split; [reflexivity|]. cbn. lia.
  - cbn [app]. rewrite parse_parts_cons.
    assert (forall e : ConfigError,
               exists (servers' : list Server) (e' : ConfigError),
               (servers, Some e) = (servers', Some e') /\
               (List.length servers'
                <= List.length servers + List.length (x :: pre))%nat) as Hstop.
    { intros e. exists servers, e. split; [reflexivity|lia]. }
    destruct (String.eqb (TrimSpace x) "").
    { destruct (IH part post servers Hbad) as (servers' & e & E & L).
      exists servers', e. split; [exact E|]. cbn [List.length]. lia. }
    destruct (Split (TrimSpace x) "/") as [|addr [|w [|y l]]]; try apply Hstop.
    destruct (Atoi w) as [n|]; [|apply Hstop].
    destruct (n <? 1); [apply Hstop|].
    destruct (NewServer url_Parse (clock (List.length servers))
                        (with_scheme addr) n) as [server|]; [|apply Hstop].
    destruct (IH part post (servers ++ [server]) Hbad) as (servers' & e & E & L).
    exists servers', e. split; [exact E|].
    rewrite length_app in L. cbn [List.length] in *. lia.
Qed.

End ConfigFacts.

(** C9, as stated, fails: with the input [a/1,b/0] the entry [b/0] is
    rejected for its weight after a server has been constructed for [a/1]. *)
Lemma C9_counterexample :
  bad_weight_entry "b/0" = true /\
  parseServerInput (fun u => Some u) (fun _ => 1700000000) "a/1,b/0"
  = ([mkServer "http://a" 0 1 0 true 0 1700000000],
     inl (ErrInvalidWeight "http://b")).
Proof. split; vm_compute; reflexivity. Qed.

(** C9, amended: configuration parsing rejects, with an error and without
    returning a pool, any input with an entry whose weight is not an integer
    of at least 1, and no server is constructed for that entry or for a later
    one (at most one for each earlier part); it rejects input that yields no
    valid entry; a pool that is returned is not empty and holds the servers
    constructed, each from an entry with a weight of at least 1; an address
    that starts with neither http:// nor https:// has http:// prepended
    before the server is created from it. *)
Theorem C9_config_rejected (url_Parse : string -> option string)
    (clock : nat -> Z) (input : string) :
  let parts := Split (TrimSpace input) "," in
  let constructed := fst (parseServerInput url_Parse clock input) in
  let result := snd (parseServerInput url_Parse clock input) in
  (forall pre part post,
      parts = pre ++ part :: post -> bad_weight_entry part = true ->
      (exists e, result = inl e) /\
      (List.length constructed <= List.length pre)%nat) /\
  (constructed = [] -> exists e, result = inl e) /\
  (forall pool, result = inr pool -> pool <> [] /\ constructed = pool) /\
  Forall (constructed_from url_Parse parts) constructed /\
  (forall addr,
      HasPrefix addr "http://" = false -> HasPrefix addr "https://" = false ->
      with_scheme addr = ("http://" ++ addr)%string).
Proof.
  cbv zeta. unfold parseServerInput.
  set (parts := Split (TrimSpace input) ",").
  destruct (parse_parts_grows url_Parse clock parts []) as (new & E & _ & F).
  cbn [app] in E.
  split; [|split; [|split; [|split]]].
  - intros pre part post Hparts Hbad.
    destruct (parse_parts_bad_weight url_Parse clock pre part post [] Hbad)
      as (servers' & e & Ep & L).
    rewrite Hparts, Ep. cbn [fst snd]. split; [now exists e|exact L].
  - destruct (parse_parts url_Parse clock parts []) as [servers [e|]];
      cbn [fst snd]; [intros _; now exists e|].
    destruct servers; cbn [fst snd]; [intros _; now eexists|discriminate].
  - intros pool.
    destruct (parse_parts url_Parse clock parts []) as [servers [e|]];
      cbn [fst snd]; [discriminate|].
    destruct servers; cbn [fst snd]; [discriminate|].
    intros H. injection H as <-. split; [discriminate|reflexivity].
  - replace (fst _) with (fst (parse_parts url_Parse clock parts [])).
    + now rewrite E.
    + destruct (parse_parts url_Parse clock parts []) as [servers [e|]];
        [reflexivity|]. now destruct servers.
  - intros addr H1 H2. unfold with_scheme. now rewrite H1, H2.
Qed.

Lemma C9_config_rejected_witness :
  (exists e,
      snd (parseServerInput (fun u => Some u) (fun _ => 0%Z) "a/1,b/0,c/2") = inl e) /\
  (List.length (fst (parseServerInput (fun u => Some u) (fun _ => 0%Z) "a/1,b/0,c/2"))
   <= List.length ["a"%string])%nat.
Proof.
  apply (proj1 (C9_config_rejected (fun u => Some u) (fun _ => 0%Z) "a/1,b/0,c/2")
           ["a/1"%string] "b/0"%string ["c/2"%string]).
  - vm_compute. reflexivity.
  - vm_compute. reflexivity.
Defined.

(** * Further properties of the balancer *)

(** ** The shape of a request's entry *)

(** A request is answered at once and changes nothing, or it is forwarded to
    the selected server, which is healthy, after the three increments. *)
Lemma ServeHTTP_enter_cases wlc path :
  (exists r, ServeHTTP_enter wlc path = (Finished r, wlc)) \/
  (exists i s,
      reserved_health path = false /\ reserved_metrics path = false /\
      NextServer (servers wlc) = Some i /\
      nth_error (servers wlc) i = Some s /\ IsHealthy s = true /\
      ServeHTTP_enter wlc path
      = (Forwarding i, mkWLC (update_server i acquire (servers wlc))
                             (wrap_uint64 (totalRequests wlc + 1)))).
Proof.
  unfold ServeHTTP_enter, ServeHTTP_dispatch.
  destruct (reserved_health path); [left; eauto|].
  destruct (reserved_metrics path); [left; eauto|].
  destruct (NextServer (servers wlc)) as [i|]; [|left; eauto].
  destruct (nth_error (servers wlc) i) as [s|] eqn:Hs; [|left; eauto].
  destruct (IsHealthy s) eqn:Hh; cbn [negb]; [|left; eauto].
  right. exists i, s. auto 10.
Qed.

Lemma map_performHealthChecks_loop {A : Type} (g : Server -> A) env l :
  (forall now r s, g (probe_server now r s) = g s) ->
  forall k, map g (performHealthChecks_loop env k l) = map g l.
Proof.
  intros Hg. induction l as [|x l IH]; intros k; cbn; [reflexivity|].
  now rewrite Hg, IH.
Qed.

(** A step keeps every part of the servers that entries, exits and probes
    keep. *)
Lemma step_preserves {A : Type} (g : Server -> A) ev st st' :
  (forall s, g (acquire s) = g s) -> (forall s, g (release s) = g s) ->
  (is_request ev = true \/ forall now r s, g (probe_server now r s) = g s) ->
  step ev st = Some st' ->
  map g (servers (balancer st')) = map g (servers (balancer st)).
Proof.
  intros Ha Hr Hp Hstep. destruct ev as [path|i|i now r|env]; cbn [step] in Hstep.
  - destruct (ServeHTTP_enter_cases (balancer st) path)
      as [[resp E]|(i & s & _ & _ & _ & _ & _ & E)];
      rewrite E in Hstep; injection Hstep as <-; [reflexivity|].
    cbn [balancer servers]. now apply map_update_server.
  - destruct (remove_one i (inflight st)); [|discriminate].
    injection Hstep as <-. cbn [balancer servers ServeHTTP_exit].
    now apply map_update_server.
  - destruct Hp as [Hp|Hp]; [discriminate|].
    injection Hstep as <-. cbn [balancer servers]. now apply map_update_server.
  - destruct Hp as [Hp|Hp]; [discriminate|].
    injection Hstep as <-. cbn [balancer servers performHealthChecks].
    now apply map_performHealthChecks_loop.
Qed.

Lemma run_preserves {A : Type} (g : Server -> A) evs : forall st st',
  (forall s, g (acquire s) = g s) -> (forall s, g (release s) = g s) ->
  (forallb is_request evs = true \/
   forall now r s, g (probe_server now r s) = g s) ->
  run evs st = Some st' ->
  map g (servers (balancer st')) = map g (servers (balancer st)).
Proof.
  induction evs as [|ev evs IH]; intros st st' Ha Hr Hp Hrun.
  - now injection Hrun as <-.
  - cbn [run] in Hrun. destruct (step ev st) as [st1|] eqn:Hstep; [|discriminate].
    assert (is_request ev = true \/
            forall now r s, g (probe_server now r s) = g s) as Hp1.
    { destruct Hp as [Hp|Hp]; [left|now right].
      cbn [forallb] in Hp. now apply andb_prop in Hp. }
    assert (forallb is_request evs = true \/
            forall now r s, g (probe_server now r s) = g s) as Hp2.
    { destruct Hp as [Hp|Hp]; [left|now right].
      cbn [forallb] in Hp. now apply andb_prop in Hp. }
    rewrite (IH st1 st' Ha Hr Hp2 Hrun).
    now apply (step_preserves g ev st st1).
Qed.

Lemma probe_server_identity now r s :
  identity (probe_server now r s) = identity s.
Proof.
  unfold identity, probe_server, HealthCheck.
  destruct r as [|status]; [reflexivity|]. now destruct (status =? StatusOK).
Qed.

Lemma probe_server_load_state now r s :
  load_state (probe_server now r s) = load_state s.
Proof.
  unfold load_state, probe_server, HealthCheck.
  destruct r as [|status]; [reflexivity|]. now destruct (status =? StatusOK).
Qed.

(** ** Immutable identity *)

(** X1: no operation of the balancer adds, removes or reorders servers or
    changes the address or the weight of one: along every schedule of
    requests, completions, probes and health rounds, the pool keeps its
    length and each position keeps its URL and weight. *)
Theorem X1_identity_immutable (evs : list event) (st st' : system) :
  run evs st = Some st' ->
  map identity (servers (balancer st')) = map identity (servers (balancer st)) /\
  List.length (servers (balancer st')) = List.length (servers (balancer st)).
Proof.
  intros Hrun.
  assert (map identity (servers (balancer st'))
          = map identity (servers (balancer st))) as E.
  { apply (run_preserves identity evs st st'); auto.
    right. apply probe_server_identity. }
  split; [exact E|].
  now rewrite <- (length_map identity), E, length_map.
Qed.

Lemma X1_identity_immutable_witness :
  map identity
    (servers (balancer
       (mkSystem (mkWLC [mkServer "http://a" 1 5 1 false 1 7;
                         mkServer "http://b" 0 1 0 true 0 0] 1) [0%nat])))
  = map identity [mkServer "http://a" 0 5 0 true 0 0;
                  mkServer "http://b" 0 1 0 true 0 0].
Proof.
  apply (proj1 (X1_identity_immutable
                  [EvEnter "/x"; EvProbe 0 7 (Response 500)]
                  (start [mkServer "http://a" 0 5 0 true 0 0;
                          mkServer "http://b" 0 1 0 true 0 0])
                  _ eq_refl)).
Defined.

(** ** Health is driven by probes only, load by requests only *)

(** X2: serving requests never changes the health flag, the failure count or
    the last-check time of any server, whatever the reverse proxy does
    (response of any status, or panic): this holds for one call of
    [ServeHTTP] and along every schedule of entries and completions. *)
Theorem X2_requests_keep_health :
  (forall wlc path fwd,
      map health_state (servers (snd (ServeHTTP wlc path fwd)))
      = map health_state (servers wlc)) /\
  (forall evs st st',
      forallb is_request evs = true -> run evs st = Some st' ->
      map health_state (servers (balancer st'))
      = map health_state (servers (balancer st))).
Proof.
  split.
  - intros wlc path fwd. unfold ServeHTTP.
    destruct (ServeHTTP_enter_cases wlc path)
      as [[resp E]|(i & s & _ & _ & _ & _ & _ & E)]; rewrite E; [reflexivity|].
    assert (map health_state
              (servers (ServeHTTP_exit
                 (mkWLC (update_server i acquire (servers wlc))
                        (wrap_uint64 (totalRequests wlc + 1))) i))
            = map health_state (servers wlc)) as H.
    { unfold ServeHTTP_exit. cbn [servers].
      now rewrite !map_update_server. }
    now destruct fwd.
  - intros evs st st' Hreq Hrun.
    apply (run_preserves health_state evs st st'); auto.
Qed.

Lemma X2_requests_keep_health_witness :
  map health_state
    (servers (balancer
       (mkSystem (mkWLC [mkServer "http://a" 0 1 1 true 3 9] 1) [])))
  = map health_state [mkServer "http://a" 0 1 0 true 3 9].
Proof.
  apply (proj2 X2_requests_keep_health [EvEnter "/x"; EvExit 0]
           (start [mkServer "http://a" 0 1 0 true 3 9])).
  - reflexivity.
  - vm_compute. reflexivity.
Defined.

Lemma step_probe_keeps_load ev st st' :
  is_request ev = false -> step ev st = Some st' ->
  map load_state (servers (balancer st'))
  = map load_state (servers (balancer st)) /\
  totalRequests (balancer st') = totalRequests (balancer st) /\
  inflight st' = inflight st.
Proof.
  intros Hp Hstep. destruct ev as [path|i|i now r|env]; try discriminate;
    cbn [step] in Hstep; injection Hstep as <-; cbn [balancer servers inflight
      totalRequests performHealthChecks].
  - split; [|now split]. apply map_update_server.
    intros s. apply probe_server_load_state.
  - split; [|now split]. apply map_performHealthChecks_loop.
    intros now r s. apply probe_server_load_state.
Qed.

(** X3: the health monitor never changes a connection count or a request
    count, the pool-wide request counter, or which requests are in flight:
    along every schedule of probes and health rounds they are what they
    were. *)
Theorem X3_probes_keep_load (evs : list event) (st st' : system) :
  forallb (fun ev => negb (is_request ev)) evs = true ->
  run evs st = Some st' ->
  map load_state (servers (balancer st'))
  = map load_state (servers (balancer st)) /\
  totalRequests (balancer st') = totalRequests (balancer st) /\
  inflight st' = inflight st.
Proof.
  revert st. induction evs as [|ev evs IH]; intros st Hp Hrun.
  - injection Hrun as <-. auto.
  - cbn [forallb] in Hp. apply andb_prop in Hp. destruct Hp as [Hev Hp].
    apply negb_true_iff in Hev.
    cbn [run] in Hrun. destruct (step ev st) as [st1|] eqn:Hstep; [|discriminate].
    destruct (step_probe_keeps_load ev st st1 Hev Hstep) as (E1 & E2 & E3).
    destruct (IH st1 Hp Hrun) as (F1 & F2 & F3).
    repeat split; congruence.
Qed.

Lemma X3_probes_keep_load_witness :
  map load_state
    (servers (balancer
       (mkSystem (mkWLC [mkServer "http://a" 2 1 5 false 1 9] 5)
                 [0%nat; 0%nat])))
  = map load_state [mkServer "http://a" 2 1 5 true 0 0].
Proof.
  apply (proj1 (X3_probes_keep_load [EvProbe 0 9 TransportError]
                  (mkSystem (mkWLC [mkServer "http://a" 2 1 5 true 0 0] 5)
                            [0%nat; 0%nat])
                  _ eq_refl eq_refl)).
Defined.

(** ** The health endpoint and dispatch *)





(** ** A server marked unhealthy stays out of the rotation *)

Lemma update_server_keeps (P : Server -> Prop) f l i j s :
  nth_error l i = Some s -> P s -> (j = i -> P (f s)) ->
  exists s', nth_error (update_server j f l) i = Some s' /\ P s'.
Proof.
  intros Hs Hp Hf. destruct (Nat.eq_dec j i) as [->|Hne].
  - exists (f s). split; [now apply update_server_nth_eq|auto].
  - exists s. now rewrite update_server_nth_neq.
Qed.

Lemma entry_pc_not_committed i wlc path :
  committed_to i (entry_pc wlc path) = false /\
  in_proxy_of i (entry_pc wlc path) = false.
Proof.
  unfold entry_pc. destruct (reserved_health path); [now split|].
  destruct (reserved_metrics path); [now split|].
  now destruct (servers wlc).
Qed.

(** The next operation of a request that has not passed the guard with an
    unhealthy server does not take it past that guard, and does not touch
    the health flag or the request count of that server. *)
Lemma request_step_keeps_unhealthy i wlc p wlc' p' s :
  request_step wlc p = Some (wlc', p') ->
  nth_error (servers wlc) i = Some s -> IsHealthy s = false ->
  committed_to i p = false ->
  committed_to i p' = false /\ in_proxy_of i p = false /\
  in_proxy_of i p' = false /\
  exists s', nth_error (servers wlc') i = Some s' /\
             (IsHealthy s' = false /\ RequestCount s' = RequestCount s).
Proof.
  intros H Hs Hh Hc.
  assert (exists s', nth_error (servers wlc) i = Some s' /\
                     (IsHealthy s' = false /\ RequestCount s' = RequestCount s))
    as Hsame by (exists s; auto).
  destruct p as [k b r|k b r|[j|]|j|j|j|j|k n| |total k done
                 |total k next entry done| ];
    cbn [request_step] in H; cbn [committed_to] in Hc.
  - destruct (nth_error (servers wlc) k) as [sk|]; [|injection H as <- <-; now auto].
    unfold next_best in H.
    destruct (negb (IsHealthy sk)); [|injection H as <- <-; now auto].
    destruct (ltb lit_1e18 r); injection H as <- <-; now auto.
  - destruct (nth_error (servers wlc) k) as [sk|]; [|discriminate].
    unfold next_best in H.
    destruct (ltb (Ratio_loaded sk) r); injection H as <- <-; now auto.
  - destruct (nth_error (servers wlc) j) as [sj|] eqn:Hj;
      [|injection H as <- <-; now auto].
    destruct (IsHealthy sj) eqn:Hjh; cbn [negb] in H;
      injection H as <- <-; [|now auto].
    cbn [committed_to in_proxy_of]. repeat split; auto.
    apply Nat.eqb_neq. intros ->. congruence.
  - injection H as <- <-. now auto.
  - destruct (nth_error (servers wlc) j) as [sj|]; [|discriminate].
    injection H as <- <-. cbn [committed_to in_proxy_of servers].
    repeat split; auto.
    apply (update_server_keeps
             (fun s' => IsHealthy s' = false /\ RequestCount s' = RequestCount s)
             add_active _ i j s Hs); auto.
  - destruct (nth_error (servers wlc) j) as [sj|]; [|discriminate].
    injection H as <- <-. cbn [committed_to in_proxy_of servers].
    repeat split; auto.
    apply (update_server_keeps
             (fun s' => IsHealthy s' = false /\ RequestCount s' = RequestCount s)
             add_request _ i j s Hs); auto.
    intros ->. rewrite Nat.eqb_refl in Hc. discriminate.
  - injection H as <- <-. cbn [committed_to in_proxy_of servers].
    repeat split; auto.
  - discriminate.
  - destruct (nth_error (servers wlc) k) as [sk|]; injection H as <- <-; now auto.
  - injection H as <- <-. now auto.
  - destruct (nth_error (servers wlc) k) as [sk|]; injection H as <- <-; now auto.
  - destruct (nth_error (servers wlc) k) as [sk|]; [|discriminate].
    destruct next; try (injection H as <- <-; now auto).
    destruct (negb (IsHealthy sk)); injection H as <- <-; now auto.
  - discriminate.
Qed.

Lemma atomic_step_keeps_unhealthy i op st st' s :
  restores i op = false ->
  nth_error (servers (shared st)) i = Some s -> IsHealthy s = false ->
  forallb (fun p => negb (committed_to i p)) (requests st) = true ->
  atomic_step op st = Some st' ->
  forallb (fun p => negb (committed_to i p)) (requests st') = true /\
  (count_requests (in_proxy_of i) (requests st')
   <= count_requests (in_proxy_of i) (requests st))%nat /\
  exists s', nth_error (servers (shared st')) i = Some s' /\
             (IsHealthy s' = false /\ RequestCount s' = RequestCount s).
Proof.
  intros Hr Hs Hh Hall Hstep.
  destruct op as [path|t|t fwd|j now|j r|j b]; cbn [atomic_step restores] in *.
  - injection Hstep as <-. cbn [shared requests].
    destruct (entry_pc_not_committed i (shared st) path) as [Hc Hp].
    rewrite forallb_app, Hall, count_requests_app, Hp. cbn [forallb].
    rewrite Hc. split; [reflexivity|]. split; [lia|]. now exists s.
  - destruct (nth_error (requests st) t) as [p|] eqn:Hp; [|discriminate].
    destruct (request_step (shared st) p) as [[wlc' p']|] eqn:Hreq;
      [|discriminate].
    injection Hstep as <-. cbn [shared requests].
    pose proof (forallb_nth_error _ _ _ _ Hall Hp) as Hc.
    apply negb_true_iff in Hc.
    destruct (request_step_keeps_unhealthy i _ _ _ _ s Hreq Hs Hh Hc)
      as (Hc' & Hi & Hi' & Hs').
    pose proof (count_requests_set (in_proxy_of i) _ t p p' Hp) as Hn.
    rewrite Hi, Hi' in Hn. split; [|split; [lia|exact Hs']].
    apply forallb_set_request; [exact Hall|]. now rewrite Hc'.
  - destruct (nth_error (requests st) t) as [[]|] eqn:Hp; try discriminate.
    injection Hstep as <-. cbn [shared requests ServeHTTP_exit servers].
    pose proof (count_requests_set (in_proxy_of i) _ t _ Done Hp) as Hn.
    cbn [in_proxy_of] in Hn. split; [|split; [lia|]].
    + now apply forallb_set_request.
    + apply (update_server_keeps
               (fun s' => IsHealthy s' = false /\ RequestCount s' = RequestCount s)
               release _ i server s Hs); auto.
  - injection Hstep as <-. cbn [store shared requests servers].
    split; [exact Hall|]. split; [lia|].
    apply (update_server_keeps
             (fun s' => IsHealthy s' = false /\ RequestCount s' = RequestCount s)
             (store_last_check now) _ i j s Hs); auto.
  - injection Hstep as <-. cbn [store shared requests servers].
    split; [exact Hall|]. split; [lia|].
    apply (update_server_keeps
             (fun s' => IsHealthy s' = false /\ RequestCount s' = RequestCount s)
             (count_probe r) _ i j s Hs); auto.
    intros _. unfold count_probe.
    destruct r as [|status]; [now split|]. now destruct (status =? StatusOK).
  - injection Hstep as <-. cbn [store shared requests servers].
    split; [exact Hall|]. split; [lia|].
    apply (update_server_keeps
             (fun s' => IsHealthy s' = false /\ RequestCount s' = RequestCount s)
             (store_healthy b) _ i j s Hs); auto.
    intros ->. rewrite Nat.eqb_refl in Hr. cbn [andb] in Hr. subst b.
    now split.
Qed.

(** A request that passed the guard while its server was healthy goes on
    after the health monitor has stored [false]: the server is counted a
    request and receives it although its flag is false. *)
Example request_past_guard_goes_on :
  atomic_run [Arrive "/api"; Advance 0; Advance 0; Advance 0; Advance 0;
              ProbeStart 0 7; ProbeAnswer 0 TransportError;
              ProbeVerdict 0 false;
              Advance 0; Advance 0; Advance 0]
             (atomic_start [mkServer "http://a" 0 1 0 true 0 0])
  = Some (mkConcurrent (mkWLC [mkServer "http://a" 1 1 1 false 1 7] 1)
                       [InProxy 0]).
Proof. vm_compute. reflexivity. Qed.

(** X5: a server whose health flag is false is passed by the guard for no
    request until the health monitor stores [true] in the flag again. If no
    request is between the guard and the reverse proxy with that server,
    then along every interleaving of atomic operations without such a store
    (operations of requests, returns of the reverse proxy, other stores of
    the monitor) no request comes to be there, the number of requests in
    the reverse proxy of that server does not grow, its request count does
    not move and its flag stays false. (A request that had passed the guard
    before the flag became false is not held back:
    [request_past_guard_goes_on].) *)
Theorem X5_unhealthy_passes_no_guard (i : nat) (ops : list operation) :
  forall (st st' : concurrent) (s : Server),
    nth_error (servers (shared st)) i = Some s -> IsHealthy s = false ->
    forallb (fun p => negb (committed_to i p)) (requests st) = true ->
    forallb (fun op => negb (restores i op)) ops = true ->
    atomic_run ops st = Some st' ->
    forallb (fun p => negb (committed_to i p)) (requests st') = true /\
    (count_requests (in_proxy_of i) (requests st')
     <= count_requests (in_proxy_of i) (requests st))%nat /\
    exists s', nth_error (servers (shared st')) i = Some s' /\
               IsHealthy s' = false /\ RequestCount s' = RequestCount s.
Proof.
  induction ops as [|op ops IH]; intros st st' s Hs Hh Hall Hnr Hrun.
  - injection Hrun as <-. split; [exact Hall|]. split; [lia|]. now exists s.
  - cbn [forallb] in Hnr. apply andb_prop in Hnr. destruct Hnr as [Hop Hnr].
    apply negb_true_iff in Hop. cbn [atomic_run] in Hrun.
    destruct (atomic_step op st) as [st1|] eqn:Hstep; [|discriminate].
    destruct (atomic_step_keeps_unhealthy i op st st1 s Hop Hs Hh Hall Hstep)
      as (Hall1 & Hn1 & s1 & Hs1 & Hh1 & Hr1).
    destruct (IH st1 st' s1 Hs1 Hh1 Hall1 Hnr Hrun)
      as (Hall' & Hn' & s' & Hs' & Hh' & Hr').
    split; [exact Hall'|]. split; [lia|].
    exists s'. repeat split; congruence.
Qed.

Lemma X5_unhealthy_passes_no_guard_witness :
  exists s',
    nth_error
      (servers (shared
         (mkConcurrent
            (mkWLC [mkServer "http://a" 0 5 0 false 2 9;
                    mkServer "http://b" 1 1 1 true 0 0] 1)
            [Done; InProxy 1]))) 0 = Some s' /\
    IsHealthy s' = false /\ RequestCount s' = 0.
Proof.
  apply (proj2 (proj2 (X5_unhealthy_passes_no_guard 0
           [Arrive "/y"; Advance 1; Advance 1; Advance 1; Advance 1;
            ProbeStart 0 9; ProbeAnswer 0 (Response 500);
            ProbeVerdict 0 false;
            Advance 1; Advance 1; Advance 1; Advance 1; Advance 0]
           (mkConcurrent
              (mkWLC [mkServer "http://a" 0 5 0 false 1 0;
                      mkServer "http://b" 0 1 0 true 0 0] 0)
              [AtGuard (Some 0%nat)])
           _ (mkServer "http://a" 0 5 0 false 1 0)
           eq_refl eq_refl eq_refl eq_refl eq_refl))).
Defined.

(** ** Sequences of probes *)

Lemma probe_server_fields now r s :
  IsHealthy (probe_server now r s) = probe_ok r /\
  LastCheckTime (probe_server now r s) = now /\
  FailureCount (probe_server now r s)
  = if probe_ok r then 0 else wrap_uint32 (FailureCount s + 1).
Proof.
  unfold probe_server, HealthCheck, probe_ok.
  destruct r as [|status]; [now cbn|]. now destruct (status =? StatusOK).
Qed.

Lemma probes_snoc s rs nr :
  probes s (rs ++ [nr]) = probe_server (fst nr) (snd nr) (probes s rs).
Proof. unfold probes. now rewrite fold_left_app. Qed.

Lemma trailing_failures_snoc rs r :
  trailing_failures (rs ++ [r])
  = if probe_ok r then O else S (trailing_failures rs).
Proof. unfold trailing_failures. now rewrite rev_app_distr. Qed.

Lemma all_failed_snoc rs r :
  all_failed (rs ++ [r]) = (all_failed rs && negb (probe_ok r))%bool.
Proof.
  unfold all_failed. rewrite forallb_app. cbn. now rewrite andb_true_r.
Qed.

Lemma trailing_failures_le rs :
  (trailing_failures rs <= List.length rs)%nat.
Proof.
  unfold trailing_failures. rewrite <- length_rev.
  induction (rev rs) as [|r l IH]; cbn; [lia|]. destruct (probe_ok r); lia.
Qed.

Lemma wrap_uint32_add a b : wrap_uint32 (wrap_uint32 a + b) = wrap_uint32 (a + b).
Proof. unfold wrap_uint32. now rewrite Z.add_mod_idemp_l by lia. Qed.

Lemma probes_FailureCount s rs :
  FailureCount (probes s rs)
  = match rs with
    | [] => FailureCount s
    | _ => wrap_uint32 (Z.of_nat (trailing_failures (map snd rs))
                        + if all_failed (map snd rs) then FailureCount s else 0)
    end.
Proof.
  induction rs as [|nr rs IH] using rev_ind; [reflexivity|].
  rewrite probes_snoc.
  destruct (probe_server_fields (fst nr) (snd nr) (probes s rs)) as (_ & _ & ->).
  rewrite map_app. cbn [map]. rewrite trailing_failures_snoc, all_failed_snoc.
  assert (rs ++ [nr] <> []) as Hne by (now destruct rs).
  destruct (rs ++ [nr]) as [|x l] eqn:E; [congruence|]. clear E Hne.
  destruct (probe_ok (snd nr)); cbn [negb].
  - rewrite andb_false_r. reflexivity.
  - rewrite andb_true_r, IH. destruct rs as [|y rs'].
    + unfold trailing_failures, all_failed, probes.
      cbn [map rev leading_failures forallb fold_left app].
      f_equal. lia.
    + rewrite wrap_uint32_add. f_equal. lia.
Qed.

(** X6: the failure count is the number of consecutive failed probes. After
    a sequence of probes of a server, the health flag is the outcome of the
    last probe and the last-check time its time; the failure count is the
    number of failed probes since the last successful one, on top of the
    earlier count when none succeeded (as a uint32). While the count has not
    wrapped around, the server is healthy exactly when the count is 0. *)
Theorem X6_consecutive_failures (s : Server) (rs : list (Z * probe_result))
    (now : Z) (r : probe_result) :
  let s' := probes s (rs ++ [(now, r)]) in
  let outcomes := map snd (rs ++ [(now, r)]) in
  IsHealthy s' = probe_ok r /\
  LastCheckTime s' = now /\
  FailureCount s'
  = wrap_uint32 (Z.of_nat (trailing_failures outcomes)
                 + if all_failed outcomes then FailureCount s else 0) /\
  (0 <= FailureCount s ->
   FailureCount s + Z.of_nat (List.length outcomes) < 2 ^ 32 ->
   (IsHealthy s' = true <-> FailureCount s' = 0)).
Proof.
  cbv zeta.
  assert (FailureCount (probes s (rs ++ [(now, r)]))
          = wrap_uint32
              (Z.of_nat (trailing_failures (map snd (rs ++ [(now, r)])))
               + if all_failed (map snd (rs ++ [(now, r)]))
                 then FailureCount s else 0)) as HF.
  { rewrite probes_FailureCount. now destruct rs. }
  rewrite probes_snoc in *. cbn [fst snd] in *.
  destruct (probe_server_fields now r (probes s rs)) as (Hh & Ht & _).
  split; [exact Hh|]. split; [exact Ht|]. split; [exact HF|].
  intros Hf Hlen. rewrite Hh, HF.
  rewrite map_app in *. cbn [map] in *.
  rewrite trailing_failures_snoc, all_failed_snoc in *. cbn [snd] in *.
  pose proof (trailing_failures_le (map snd rs)) as Hle.
  rewrite length_app, !length_map in *. cbn [List.length] in Hlen.
  destruct (probe_ok r); cbn [negb].
  - rewrite andb_false_r. split; reflexivity.
  - rewrite andb_true_r. split; [discriminate|]. intros H0. exfalso.
    unfold wrap_uint32 in H0. rewrite Z.mod_small in H0.
    + destruct (all_failed (map snd rs)); lia.
    + destruct (all_failed (map snd rs)); lia.
Qed.

Lemma X6_consecutive_failures_witness :
  IsHealthy (probes (mkServer "http://a" 0 1 0 true 0 0)
               ([(1, Response 500); (2, Response 200); (3, TransportError)]
                ++ [(4, Response 503)])) = true <->
  FailureCount (probes (mkServer "http://a" 0 1 0 true 0 0)
                  ([(1, Response 500); (2, Response 200); (3, TransportError)]
                   ++ [(4, Response 503)])) = 0.
Proof.
  apply (proj2 (proj2 (proj2 (X6_consecutive_failures
           (mkServer "http://a" 0 1 0 true 0 0)
           [(1, Response 500); (2, Response 200); (3, TransportError)]
           4 (Response 503))))).
  - cbn. lia.
  - cbn. lia.
Defined.

(** ** The health monitor *)

Lemma probes_cons s nr rs :
  probes s (nr :: rs) = probes (probe_server (fst nr) (snd nr) s) rs.
Proof. reflexivity. Qed.

Lemma last_cons_default {A : Type} (l : list A) : forall a d : A,
  last (a :: l) d = last l a.
Proof.
  induction l as [|b l IH]; intros a d; [reflexivity|].
  change (last (a :: b :: l) d) with (last (b :: l) d).
  now rewrite !IH.
Qed.

Lemma StartHealthChecks_nth ticks : forall first wlc i,
  nth_error (servers (StartHealthChecks first ticks wlc)) i
  = option_map (fun s => probes s (map (fun env => env i) (first :: ticks)))
               (nth_error (servers wlc) i) /\
  totalRequests (StartHealthChecks first ticks wlc) = totalRequests wlc.
Proof.
  induction ticks as [|t ticks IH]; intros first wlc i.
  - unfold StartHealthChecks. cbn [fold_left map]. split; [|reflexivity].
    rewrite performHealthChecks_nth.
    destruct (nth_error (servers wlc) i) as [s|]; [|reflexivity].
    cbn [option_map]. unfold probes. cbn [fold_left]. reflexivity.
  - change (StartHealthChecks first (t :: ticks) wlc)
      with (StartHealthChecks t ticks (performHealthChecks first wlc)).
    destruct (IH t (performHealthChecks first wlc) i) as [E1 E2].
    rewrite E1, E2, performHealthChecks_nth. split; [|reflexivity].
    destruct (nth_error (servers wlc) i) as [s|]; [|reflexivity].
    cbn [option_map map]. now rewrite (probes_cons s (first i)).
Qed.

(** X7: the health monitor probes every server once at its start, before any
    tick and even when it is cancelled at once, and once more for every tick
    it receives; it leaves the pool-wide request counter alone. When it
    stops, each server has been through these probes in order, so that its
    health flag and last-check time are those of the last round. *)
Theorem X7_monitor_rounds (first : nat -> Z * probe_result)
    (ticks : list (nat -> Z * probe_result)) (wlc : WeightedLeastConnection)
    (i : nat) (s : Server) :
  nth_error (servers wlc) i = Some s ->
  let wlc' := StartHealthChecks first ticks wlc in
  let last_round := last ticks first in
  totalRequests wlc' = totalRequests wlc /\
  exists s',
    nth_error (servers wlc') i = Some s' /\
    s' = probes s (map (fun env => env i) (first :: ticks)) /\
    IsHealthy s' = probe_ok (snd (last_round i)) /\
    LastCheckTime s' = fst (last_round i) /\
    URL s' = URL s /\ Weight s' = Weight s.
Proof.
  intros Hs. cbv zeta.
  destruct (StartHealthChecks_nth ticks first wlc i) as [E1 E2].
  split; [exact E2|]. rewrite Hs in E1. cbn [option_map] in E1.
  eexists. split; [exact E1|]. split; [reflexivity|].
  assert (exists rs, map (fun env => env i) (first :: ticks)
                     = rs ++ [last ticks first i]) as [rs Hrs].
  { clear. revert first. induction ticks as [|t ticks IH]; intros first.
    - now exists [].
    - destruct (IH t) as [rs Hrs]. exists (first i :: rs).
      change (map (fun env => env i) (first :: t :: ticks))
        with (first i :: map (fun env => env i) (t :: ticks)).
      now rewrite Hrs, last_cons_default. }
  rewrite Hrs, probes_snoc.
  destruct (probe_server_fields (fst (last ticks first i))
              (snd (last ticks first i)) (probes s rs)) as (Hh & Ht & _).
  split; [exact Hh|]. split; [exact Ht|].
  rewrite <- probes_snoc, <- Hrs.
  assert (forall l s0, identity (probes s0 l) = identity s0) as Hid.
  { induction l as [|nr l IH]; intros s0; [reflexivity|].
    rewrite probes_cons, IH. apply probe_server_identity. }
  specialize (Hid (map (fun env => env i) (first :: ticks)) s).
  unfold identity in Hid. now injection Hid.
Qed.

Lemma X7_monitor_rounds_witness :
  exists s',
    nth_error (servers (StartHealthChecks (fun _ => (1, TransportError)) []
                          (mkWLC [mkServer "http://a" 0 1 0 true 0 0] 0))) 0
    = Some s' /\ IsHealthy s' = false.
Proof.
  destruct (X7_monitor_rounds (fun _ => (1, TransportError)) []
              (mkWLC [mkServer "http://a" 0 1 0 true 0 0] 0) 0
              (mkServer "http://a" 0 1 0 true 0 0) eq_refl)
    as (_ & s' & H1 & _ & H2 & _).
  exists s'. split; [exact H1|exact H2].
Defined.

(** ** More on configuration parsing *)

Lemma Split_length s sep :
  List.length (Split s sep) = S (count_byte sep s).
Proof.
  induction s as [|c rest IH]; [reflexivity|]. cbn [Split count_byte].
  destruct (Ascii.eqb c sep); cbn [List.length Nat.add].
  - now rewrite IH.
  - destruct (Split rest sep) as [|f fs]; [discriminate|]. exact IH.
Qed.

Lemma Split_fields_no_sep s sep :
  Forall (fun f => count_byte sep f = O) (Split s sep).
Proof.
  induction s as [|c rest IH]; cbn [Split].
  - constructor; [reflexivity|constructor].
  - destruct (Ascii.eqb c sep) eqn:E.
    + constructor; [reflexivity|exact IH].
    + destruct (Split rest sep) as [|f fs].
      * constructor; [|constructor]. cbn. now rewrite E.
      * inversion IH as [|? ? Hf Hfs]; subst. constructor; [|exact Hfs].
        cbn. now rewrite E.
Qed.

Lemma prefix_count_byte c p : forall s,
  String.prefix p s = true -> (count_byte c p <= count_byte c s)%nat.
Proof.
  induction p as [|a p IH]; intros s H; [cbn; lia|].
  destruct s as [|b s]; [discriminate|]. cbn [String.prefix] in H.
  destruct (ascii_dec a b) as [->|]; [|discriminate].
  specialize (IH s H). cbn [count_byte]. lia.
Qed.

(** A field between slashes starts with no scheme, so that [http://] is
    prepended to it. *)
Lemma with_scheme_field addr :
  count_byte "/" addr = O -> with_scheme addr = ("http://" ++ addr)%string.
Proof.
  intros H. unfold with_scheme, HasPrefix.
  destruct (String.prefix "http://" addr) eqn:P1.
  { apply (prefix_count_byte "/") in P1. cbn in P1. lia. }
  destruct (String.prefix "https://" addr) eqn:P2.
  { apply (prefix_count_byte "/") in P2. cbn in P2. lia. }
  reflexivity.
Qed.

Section ConfigOrder.

Variable url_Parse : string -> option string.
Variable clock : nat -> Z.

Lemma entries_cons part rest :
  entries (part :: rest)
  = if String.eqb (TrimSpace part) "" then entries rest
    else TrimSpace part :: entries rest.
Proof.
  unfold entries. cbn [map filter]. now destruct (String.eqb (TrimSpace part) "").
Qed.

Lemma parse_parts_in_order parts : forall servers servers',
  parse_parts url_Parse clock parts servers = (servers', None) ->
  exists new,
    servers' = servers ++ new /\
    Forall2 (server_of_entry url_Parse) (entries parts) new.
Proof.
  induction parts as [|part rest IH]; intros servers servers' H.
  - injection H as <-. exists []. rewrite app_nil_r. split; [reflexivity|constructor].
  - rewrite parse_parts_cons in H. rewrite entries_cons.
    destruct (String.eqb (TrimSpace part) ""); [now apply IH|].
    pose proof (Split_fields_no_sep (TrimSpace part) "/") as Hf.
    destruct (Split (TrimSpace part) "/") as [|addr [|w [|x l]]] eqn:Hsplit;
      try discriminate.
    destruct (Atoi w) as [n|] eqn:Hatoi; [|discriminate].
    destruct (Z.ltb_spec n 1) as [|Hn]; [discriminate|].
    inversion Hf as [|? ? Haddr _]; subst.
    rewrite (with_scheme_field addr Haddr) in H. unfold NewServer in H.
    destruct (url_Parse ("http://" ++ addr)%string) as [u|] eqn:Hu;
      [|discriminate].
    destruct (IH _ _ H) as (new & -> & F).
    exists (mkServer u 0 n 0 true 0 (clock (List.length servers)) :: new).
    rewrite <- app_assoc. split; [reflexivity|]. constructor; [|exact F].
    exists addr, w, n. cbn [URL LastCheckTime]. auto.
Qed.

Lemma parse_parts_malformed pre : forall part post servers,
  malformed_entry part = true ->
  exists servers' e,
    parse_parts url_Parse clock (pre ++ part :: post) servers
    = (servers', Some e).
Proof.
  induction pre as [|x pre IH]; intros part post servers Hbad.
  - cbn [app]. rewrite parse_parts_cons.
    unfold malformed_entry in Hbad. cbv zeta in Hbad.
    apply andb_prop in Hbad. destruct Hbad as [Hne Hlen].
    apply negb_true_iff in Hne. rewrite Hne.
    destruct (Split (TrimSpace part) "/") as [|addr [|w [|y l]]];
      try (eexists _, _; reflexivity).
    discriminate.
  - cbn [app]. rewrite parse_parts_cons.
    destruct (String.eqb (TrimSpace x) ""); [now apply IH|].
    destruct (Split (TrimSpace x) "/") as [|addr [|w [|y l]]];
      try (eexists _, _; reflexivity).
    destruct (Atoi w) as [n|]; [|eexists _, _; reflexivity].
    destruct (n <? 1); [eexists _, _; reflexivity|].
    destruct (NewServer url_Parse (clock (List.length servers))
                        (with_scheme addr) n) as [server|];
      [|eexists _, _; reflexivity].
    now apply IH.
Qed.

End ConfigOrder.

(** X8: a pool that [parseServerInput] returns holds one server for each
    part of the input that is not blank, in the order of the input (blank
    parts, such as the one after a trailing comma, are skipped): the server
    of an entry [addr/weight] is fresh (healthy, counters at zero), has the
    weight the entry gives and the URL parsed from [http://addr]. *)
Theorem X8_pool_follows_input (url_Parse : string -> option string)
    (clock : nat -> Z) (input : string) (pool : list Server) :
  snd (parseServerInput url_Parse clock input) = inr pool ->
  Forall2 (server_of_entry url_Parse)
          (entries (Split (TrimSpace input) ",")) pool /\
  List.length pool = List.length (entries (Split (TrimSpace input) ",")).
Proof.
  unfold parseServerInput. intros H.
  destruct (parse_parts url_Parse clock (Split (TrimSpace input) ",") [])
    as [servers [e|]] eqn:E; [discriminate|].
  destruct (parse_parts_in_order url_Parse clock _ _ _ E) as (new & -> & F).
  cbn [app] in H.
  assert (pool = new) as -> by (destruct new; [discriminate|now injection H]).
  split; [exact F|]. symmetry. eapply Forall2_length; eassumption.
Qed.

Lemma X8_pool_follows_input_witness :
  List.length [mkServer "http://a:1" 0 5 0 true 0 0;
               mkServer "http://b:2" 0 1 0 true 0 0]
  = List.length (entries (Split (TrimSpace " a:1/5, ,b:2/1,") ",")).
Proof.
  apply (proj2 (X8_pool_follows_input (fun u => Some u) (fun _ => 0)
                  " a:1/5, ,b:2/1," _ eq_refl)).
Defined.

(** X9: an entry that does not consist of exactly two fields separated by
    one slash is rejected with an error. An address written with its scheme
    ([http://host:port/weight] or [https://...]) is such an entry, since its
    slashes split it into more than two fields; this is why every server is
    created from an [http://] URL. *)
Theorem X9_scheme_entries_rejected (url_Parse : string -> option string)
    (clock : nat -> Z) (input : string) (pre post : list string)
    (part : string) :
  Split (TrimSpace input) "," = pre ++ part :: post ->
  (malformed_entry part = true \/
   HasPrefix (TrimSpace part) "http://" = true \/
   HasPrefix (TrimSpace part) "https://" = true) ->
  exists e, snd (parseServerInput url_Parse clock input) = inl e.
Proof.
  intros Hparts Hbad.
  assert (malformed_entry part = true) as Hm.
  { destruct Hbad as [Hm|Hp]; [exact Hm|].
    assert (2 <= count_byte "/" (TrimSpace part))%nat as Hc.
    { destruct Hp as [Hp|Hp]; apply (prefix_count_byte "/") in Hp;
        cbn in Hp; lia. }
    unfold malformed_entry. cbv zeta. rewrite Split_length.
    destruct (TrimSpace part) as [|c s] eqn:Et; [cbn in Hc; lia|].
    cbn [String.eqb negb andb].
    apply negb_true_iff, Nat.eqb_neq. lia. }
  destruct (parse_parts_malformed url_Parse clock pre part post [] Hm)
    as (servers' & e & E).
  unfold parseServerInput. rewrite Hparts, E. now exists e.
Qed.

Lemma X9_scheme_entries_rejected_witness :
  exists e,
    snd (parseServerInput (fun u => Some u) (fun _ => 0)
           "a:1/5,http://b:2/1") = inl e.
Proof.
  apply (X9_scheme_entries_rejected (fun u => Some u) (fun _ => 0)
           "a:1/5,http://b:2/1" ["a:1/5"%string] [] "http://b:2/1"%string).
  - vm_compute. reflexivity.
  - right. left. vm_compute. reflexivity.
Defined.

(** ** Idle and busy servers *)

Lemma of_Z_int z : int_range z -> mag_le 65 (of_Z z).
Proof.
  unfold int_range. intros H. destruct z as [|p|p]; [exact I| |];
    apply (proj2 (proj2 (binary_round_int _ p)) 64); try lia;
    apply dg_le_iff; lia.
Qed.

(** The quotient of [SFdiv_core_binary] keeps the magnitude of the exact
    quotient when that is in the range of normal numbers. *)
Lemma SFdiv_core_binary_lower m1 e1 m2 e2 :
  let M1 := dg (Zpos m1) + e1 in
  let M2 := dg (Zpos m2) + e2 in
  -1074 <= M1 - M2 - 53 ->
  let '(q, e', _) := SFdiv_core_binary prec emax (Zpos m1) e1 (Zpos m2) e2 in
  0 < q /\ M1 - M2 <= dg q + e'.
Proof.
  cbv zeta. intros Hn. unfold SFdiv_core_binary. rewrite fexp64.
  set (d1 := dg (Zpos m1)) in *. set (d2 := dg (Zpos m2)) in *.
  set (e' := Z.min (Z.max (d1 + e1 - (d2 + e2) - 53) (-1074)) (e1 - e2)).
  set (s := e1 - e2 - e').
  set (m' := match s with Z0 => Zpos m1 | Zpos _ => Z.shiftl (Zpos m1) s | Zneg _ => 0 end).
  assert (0 <= s) as Hs by lia.
  assert (m' = Zpos m1 * 2 ^ s) as Hm'.
  { subst m'. destruct s as [|q|q] eqn:Es; try lia.
    now rewrite Z.shiftl_mul_pow2 by lia. }
  destruct (Z.div_eucl m' (Zpos m2)) as [q r] eqn:E.
  assert (q = m' / Zpos m2) as Hq by (unfold Z.div; now rewrite E).
  pose proof (dg_pos (Zpos m1) ltac:(lia)). pose proof (dg_pos (Zpos m2) ltac:(lia)).
  pose proof (dg_bounds (Zpos m2) ltac:(lia)) as [_ Hhi]. fold d2 in Hhi.
  assert (0 < 2 ^ s) by (apply Z.pow_pos_nonneg; lia).
  assert (0 < 2 ^ d2) by (apply Z.pow_pos_nonneg; unfold d2; lia).
  assert (0 <= q) by (rewrite Hq; apply Z.div_pos; nia).
  assert (dg m' = d1 + s) as Hdm by (rewrite Hm'; apply dg_mul_pow2; lia).
  assert (d1 + s - d2 <= dg q) as Hdq.
  { assert (dg (m' / 2 ^ d2) = Z.max (dg m' - d2) 0) as D
        by (apply dg_div_pow2; unfold d2; nia).
    assert (dg (m' / 2 ^ d2) <= dg q).
    { apply dg_mono. split; [apply Z.div_pos; nia|]. rewrite Hq.
      apply Z.div_le_compat_l; [nia|]. fold d2. lia. }
    lia. }
  split; [|lia].
  destruct (Z.eq_dec q 0) as [->|]; [|lia].
  change (dg 0) with 0 in Hdq. subst d1 d2. lia.
Qed.

Lemma div_positive x y :
  has_sign false x -> has_sign false y ->
  mag_ge 1 x -> mag_le 33 x -> mag_ge 1 y -> mag_le 65 y ->
  ltb zero (div x y) = true.
Proof.
  unfold div.
  destruct x as [sx|sx| |sx mx ex]; cbn [mag_le mag_ge]; try tauto;
    destruct y as [sy|sy| |sy my ey]; cbn [mag_ge mag_le]; try tauto;
    cbn [has_sign]; intros -> -> Hx1 Hx2 Hy1 Hy2; cbn [SFdiv xorb].
  pose proof (SFdiv_core_binary_lower mx ex my ey) as B. cbv zeta in B.
  specialize (B ltac:(lia)).
  destruct (SFdiv_core_binary prec emax (Zpos mx) ex (Zpos my) ey) as [[q e'] l].
  destruct B as [Hq Hd].
  pose proof (binary_round_aux_sign false q e' l ltac:(lia)) as Hs.
  pose proof (binary_round_aux_mag_ge false q e' l Hq ltac:(lia)) as Hg.
  destruct (binary_round_aux prec emax false q e' l) as [s|s| |s m e];
    cbn [has_sign mag_ge] in Hs, Hg; try contradiction; subst s; reflexivity.
Qed.

Lemma Ratio_idle s :
  IsHealthy s = true -> 1 <= Weight s -> ActiveConnections s = 0 ->
  Ratio s = zero.
Proof.
  intros Hh Hw Hc. rewrite Ratio_healthy by (auto; lia). rewrite Hc.
  pose proof (of_Z_sign (Weight s)) as Hs.
  pose proof (of_Z_nonzero (Weight s) ltac:(lia)) as Hg.
  replace (Weight s <? 0) with false in Hs by (symmetry; apply Z.ltb_ge; lia).
  change (of_Z 0) with zero. unfold div, zero.
  destruct (of_Z (Weight s)) as [sy|sy| |sy my ey];
    cbn [has_sign mag_ge] in Hs, Hg; try contradiction; subst sy; reflexivity.
Qed.

Lemma Ratio_busy s :
  IsHealthy s = true -> 1 <= Weight s -> int_range (Weight s) ->
  0 < ActiveConnections s < 2 ^ 31 ->
  ltb zero (Ratio s) = true.
Proof.
  intros Hh Hw Hr Hc. rewrite Ratio_healthy by (auto; lia).
  pose proof (of_Z_sign (Weight s)) as Hsw.
  pose proof (of_Z_sign (ActiveConnections s)) as Hsc.
  replace (Weight s <? 0) with false in Hsw by (symmetry; apply Z.ltb_ge; lia).
  replace (ActiveConnections s <? 0) with false in Hsc
    by (symmetry; apply Z.ltb_ge; lia).
  apply div_positive; auto.
  - apply of_Z_nonzero. lia.
  - apply of_Z_int32. unfold int32_range. lia.
  - apply of_Z_nonzero. lia.
  - now apply of_Z_int.
Qed.

Lemma zero_lt_lit : ltb zero lit_1e18 = true.
Proof. reflexivity. Qed.

(** The first of the servers wins when no later one is strictly below it. *)
Lemma NextServer_loop_keeps l : forall i b r,
  (forall s, In s l -> ltb (Ratio s) r = false) ->
  NextServer_loop i l (Some b) r = Some b.
Proof.
  induction l as [|x l IH]; intros i b r H; [reflexivity|].
  cbn [NextServer_loop]. rewrite (H x (or_introl eq_refl)).
  apply IH. intros s Hs. apply H. now right.
Qed.

Lemma NextServer_first x l :
  ltb (Ratio x) lit_1e18 = true ->
  (forall s, In s l -> ltb (Ratio s) (Ratio x) = false) ->
  NextServer (x :: l) = Some 0%nat.
Proof.
  intros Hx Hl. cbn [NextServer NextServer_loop]. rewrite Hx.
  now apply NextServer_loop_keeps.
Qed.






(** X11: an idle backend is always preferred. In a pool whose servers have
    weights of at least 1 (within int) and connection counts between 0 and
    2^31 - 1, a busy healthy server has a strictly positive ratio and an idle
    healthy one the ratio zero; so when some healthy server is idle,
    [NextServer] returns the first idle healthy server in pool order. *)
Theorem X11_idle_server_preferred (pool : list Server) :
  (forall s, In s pool ->
             1 <= Weight s /\ int_range (Weight s) /\
             0 <= ActiveConnections s < 2 ^ 31) ->
  (exists h, In h pool /\ idle_healthy h = true) ->
  exists i s,
    NextServer pool = Some i /\ nth_error pool i = Some s /\
    idle_healthy s = true /\
    (forall j sj, (j < i)%nat -> nth_error pool j = Some sj ->
                  idle_healthy sj = false).
Proof.
  intros Hvalid (h & Hin & Hidle).
  assert (forall s, In s pool -> idle_healthy s = true -> Ratio s = zero) as Hz.
  { intros s Hs Hi. unfold idle_healthy in Hi. apply andb_prop in Hi.
    destruct Hi as [Hh Hc]. apply Z.eqb_eq in Hc.
    destruct (Hvalid s Hs) as (Hw & _). now apply Ratio_idle. }
  assert (forall s, In s pool -> idle_healthy s = false ->
                    ltb zero (Ratio s) = true) as Hp.
  { intros s Hs Hi. destruct (Hvalid s Hs) as (Hw & Hr & Hc).
    unfold idle_healthy in Hi. destruct (IsHealthy s) eqn:Hh.
    - cbn [andb] in Hi. apply Z.eqb_neq in Hi. apply Ratio_busy; auto. lia.
    - rewrite Ratio_unhealthy by assumption. apply zero_lt_lit. }
  destruct (NextServer pool) as [i|] eqn:E.
  - destruct (NextServer_Some pool i E) as (s & Hs & _ & Hmin & Htie).
    assert (idle_healthy s = true) as Hsi.
    { destruct (idle_healthy s) eqn:Hi; [reflexivity|].
      apply In_nth_error in Hin. destruct Hin as [k Hk].
      pose proof (Hmin k h Hk) as N.
      rewrite (Hz h (nth_error_In _ _ Hk) Hidle) in N.
      rewrite (Hp s (nth_error_In _ _ Hs) Hi) in N. discriminate. }
    exists i, s. repeat split; try assumption.
    intros j sj Hlt Hj. destruct (idle_healthy sj) eqn:Hi; [|reflexivity].
    assert (nan_free (Ratio sj)) as Hn.
    { apply Ratio_nan_free. destruct (Hvalid sj (nth_error_In _ _ Hj)) as (_ & _ & Hc).
      unfold int32_range. lia. }
    pose proof (Htie j sj Hlt Hj Hn) as T.
    rewrite (Hz s (nth_error_In _ _ Hs) Hsi) in T.
    rewrite (Hz sj (nth_error_In _ _ Hj) Hi) in T.
    rewrite ltb_irrefl in T. discriminate.
  - exfalso. pose proof (proj1 (NextServer_None pool) E h Hin) as N.
    rewrite (Hz h Hin Hidle), zero_lt_lit in N. discriminate.
Qed.

Lemma X11_idle_server_preferred_witness :
  exists i s,
    NextServer [mkServer "http://a" 3 5 3 true 0 0;
                mkServer "http://b" 0 1 0 false 2 0;
                mkServer "http://c" 0 1 7 true 0 0] = Some i /\
    nth_error [mkServer "http://a" 3 5 3 true 0 0;
               mkServer "http://b" 0 1 0 false 2 0;
               mkServer "http://c" 0 1 7 true 0 0] i = Some s /\
    idle_healthy s = true /\
    (forall j sj, (j < i)%nat ->
        nth_error [mkServer "http://a" 3 5 3 true 0 0;
                   mkServer "http://b" 0 1 0 false 2 0;
                   mkServer "http://c" 0 1 7 true 0 0] j = Some sj ->
        idle_healthy sj = false).
Proof.
  apply X11_idle_server_preferred.
  - intros s [<-|[<-|[<-|[]]]]; cbn; unfold int_range; lia.
  - exists (mkServer "http://c" 0 1 7 true 0 0).
    split; [right; right; now left|reflexivity].
Defined.

(** ** The earlier health check *)

(** X12: with the health check of the earlier server (part_000) a server is
    marked healthy whenever it answers at all, whatever the status of the
    answer (a 500 or a 503 included), and unhealthy only on a transport
    failure; the current health check differs from it exactly on the
    answers with a status other than 200, which now mark the server
    unhealthy. *)
Theorem X12_earlier_check_ignores_status (r : probe_result)
    (s : Part000.Server) (now : Z) (t : Server) :
  (Part000.IsHealthy (Part000.probe_server r s) = true <-> r <> TransportError) /\
  (Part000.URL (Part000.probe_server r s),
   Part000.ActiveConnections (Part000.probe_server r s),
   Part000.Weight (Part000.probe_server r s),
   Part000.RequestCount (Part000.probe_server r s))
  = (Part000.URL s, Part000.ActiveConnections s, Part000.Weight s,
     Part000.RequestCount s) /\
  (Part000.IsHealthy (Part000.probe_server r s)
   <> IsHealthy (probe_server now r t) <->
   exists status, r = Response status /\ status <> StatusOK).
Proof.
  destruct (probe_server_fields now r t) as (Hh & _). rewrite Hh.
  unfold Part000.probe_server, Part000.HealthCheck, probe_ok.
  destruct r as [|status].
  - cbn. repeat split; try congruence.
    intros (status & E & _). discriminate.
  - destruct (Z.eqb_spec status StatusOK) as [->|Hne]; cbn.
    + repeat split; try congruence. intros (st & E & N). congruence.
    + repeat split; try congruence. intros _. now exists status.
Qed.

Lemma X12_earlier_check_ignores_status_witness :
  Part000.IsHealthy
    (Part000.probe_server (Response 500)
       (Part000.mkServer "http://a" 0 1 0 false)) = true.
Proof.
  apply (proj1 (X12_earlier_check_ignores_status (Response 500)
                  (Part000.mkServer "http://a" 0 1 0 false)
                  0 (mkServer "http://a" 0 1 0 false 0 0))).
  discriminate.
Defined.

(** ** A health round and the requests after it *)




(** ** Reports of the metrics endpoint *)








(** A report read while a request is between its two increments: the
    pool-wide total it shows is 0 and the total of its one server 1. *)
Example metrics_between_increments :
  atomic_responses
    [Arrive "/metrics"; Advance 1; Advance 1; Advance 1; Advance 1;
     Advance 1; Advance 1; Advance 1; Advance 1; Advance 1]
    (mkConcurrent (mkWLC [mkServer "http://a:1" 1 1 1 true 0 0] 0)
                  [RequestCounted 0])
  = [MetricsResponse 0 1
       [mkServerMetrics "a:1" true 1 1 1 0 0 (S754_finite false 4503599627370496 (-52))]].
Proof. vm_compute. reflexivity. Qed.



(** ** Whole operations are sequences of atomic operations *)

Lemma nth_error_set_request l : forall t p,
  (t < List.length l)%nat -> nth_error (set_request t p l) t = Some p.
Proof.
  induction l as [|q l IH]; intros [|t] p H; cbn in *; try lia; auto.
  apply IH. lia.
Qed.

Lemma set_request_twice l : forall t p p',
  set_request t p' (set_request t p l) = set_request t p' l.
Proof.
  induction l as [|q l IH]; intros [|t] p p'; cbn; try reflexivity.
  now rewrite IH.
Qed.

Lemma set_request_last l p p' :
  set_request (List.length l) p' (l ++ [p]) = l ++ [p'].
Proof. induction l as [|q l IH]; cbn; [reflexivity|]. now rewrite IH. Qed.

Lemma runs_alone_refl l t wlc p : runs_alone l t wlc p wlc p [].
Proof. now exists O. Qed.

Lemma runs_alone_step l t wlc p wlc1 p1 wlc' p' rs rs' :
  (t < List.length l)%nat ->
  request_step wlc p = Some (wlc1, p1) ->
  rs' = written (request_response wlc p) ++ rs ->
  runs_alone l t wlc1 p1 wlc' p' rs ->
  runs_alone l t wlc p wlc' p' rs'.
Proof.
  intros Ht Hstep -> (n & Hrun & Hrs). exists (S n).
  cbn [repeat atomic_run atomic_responses atomic_step atomic_response
       shared requests].
  rewrite nth_error_set_request by assumption. rewrite Hstep.
  rewrite set_request_twice. rewrite Hrun, Hrs.
  now destruct (request_response wlc p).
Qed.

Lemma skipn_cons_nth {A : Type} (l : list A) : forall k x rest,
  skipn k l = x :: rest -> nth_error l k = Some x /\ skipn (S k) l = rest.
Proof.
  induction l as [|y l IH]; intros [|k] x rest H; cbn in H; try discriminate.
  - injection H as -> ->. now split.
  - apply (IH k x rest H).
Qed.

Lemma skipn_nil_nth {A : Type} (l : list A) : forall k,
  skipn k l = [] -> nth_error l k = None.
Proof.
  induction l as [|y l IH]; intros [|k] H; cbn in *; try discriminate; auto.
Qed.

(** The loads of the selection, run alone, are [NextServer]. *)
Lemma selection_alone l t wlc : forall rest k b r,
  (t < List.length l)%nat ->
  skipn k (servers wlc) = rest ->
  runs_alone l t wlc (Selecting k b r) wlc
             (AtGuard (NextServer_loop k rest b r)) [].
Proof.
  induction rest as [|s rest IH]; intros k b r Ht Hk.
  - apply skipn_nil_nth in Hk.
    apply (runs_alone_step l t wlc (Selecting k b r) wlc (AtGuard b) wlc
             (AtGuard b) [] [] Ht).
    + cbn [request_step]. now rewrite Hk.
    + reflexivity.
    + apply runs_alone_refl.
  - destruct (skipn_cons_nth _ _ _ _ Hk) as [Hs Hk'].
    cbn [NextServer_loop]. rewrite Ratio_loads.
    destruct (IsHealthy s) eqn:Hh; cbn [negb].
    + apply (runs_alone_step l t wlc (Selecting k b r) wlc (InRatio k b r) wlc
               _ [] [] Ht); [|reflexivity|].
      { cbn [request_step]. now rewrite Hs, Hh. }
      apply (runs_alone_step l t wlc (InRatio k b r) wlc
               (next_best k (Ratio_loaded s) b r) wlc _ [] [] Ht);
        [|reflexivity|].
      { cbn [request_step]. now rewrite Hs. }
      unfold next_best. destruct (ltb (Ratio_loaded s) r); now apply IH.
    + apply (runs_alone_step l t wlc (Selecting k b r) wlc
               (next_best k lit_1e18 b r) wlc _ [] [] Ht); [|reflexivity|].
      { cbn [request_step]. now rewrite Hs, Hh. }
      unfold next_best. destruct (ltb lit_1e18 r); now apply IH.
Qed.

Lemma update_server_increments l : forall i,
  update_server i add_request (update_server i add_active l)
  = update_server i acquire l.
Proof.
  induction l as [|x l IH]; intros [|i]; cbn; try reflexivity.
  now rewrite IH.
Qed.

(** The guard and the three increments, run alone, are
    [ServeHTTP_dispatch]. *)
Lemma dispatch_alone l t wlc server :
  (t < List.length l)%nat ->
  runs_alone l t wlc (AtGuard server)
             (snd (ServeHTTP_dispatch wlc server))
             (entered_pc (fst (ServeHTTP_dispatch wlc server)))
             (entered_response (fst (ServeHTTP_dispatch wlc server))).
Proof.
  intros Ht.
  assert (forall sv,
             request_step wlc (AtGuard sv) = Some (wlc, Done) ->
             request_response wlc (AtGuard sv) = Some unavailable ->
             runs_alone l t wlc (AtGuard sv) wlc Done [unavailable]) as Hno.
  { intros sv Hstep Hresp.
    apply (runs_alone_step l t wlc (AtGuard sv) wlc Done wlc Done []
             [unavailable] Ht Hstep).
    - now rewrite Hresp.
    - apply runs_alone_refl. }
  unfold ServeHTTP_dispatch.
  destruct server as [i|]; [|now apply Hno].
  destruct (nth_error (servers wlc) i) as [s|] eqn:Hs;
    [|apply Hno; cbn; now rewrite Hs].
  destruct (IsHealthy s) eqn:Hh; cbn [negb];
    [|apply Hno; cbn; now rewrite Hs, Hh].
  cbn [fst snd entered_pc entered_response].
  apply (runs_alone_step l t wlc (AtGuard (Some i)) wlc (PastGuard i)
           _ (InProxy i) [] [] Ht).
  { cbn [request_step]. now rewrite Hs, Hh. }
  { cbn [request_response]. now rewrite Hs, Hh. }
  apply (runs_alone_step l t wlc (PastGuard i)
           (mkWLC (update_server i add_active (servers wlc)) (totalRequests wlc))
           (ActiveAdded i) _ (InProxy i) [] [] Ht); [|reflexivity|].
  { cbn [request_step]. now rewrite Hs. }
  apply (runs_alone_step l t _ (ActiveAdded i)
           (mkWLC (update_server i add_request
                     (update_server i add_active (servers wlc)))
                  (totalRequests wlc))
           (RequestCounted i) _ (InProxy i) [] [] Ht); [|reflexivity|].
  { cbn [request_step servers totalRequests].
    now rewrite (update_server_nth_eq _ _ _ _ Hs). }
  apply (runs_alone_step l t _ (RequestCounted i)
           (mkWLC (update_server i add_request
                     (update_server i add_active (servers wlc)))
                  (wrap_uint64 (totalRequests wlc + 1)))
           (InProxy i) _ (InProxy i) [] [] Ht); [reflexivity|reflexivity|].
  rewrite update_server_increments. apply runs_alone_refl.
Qed.

(** The loop of [handleHealthEndpoint], run alone. *)
Lemma health_alone l t wlc : forall rest k c,
  (t < List.length l)%nat ->
  skipn k (servers wlc) = rest ->
  runs_alone l t wlc (CountingHealthy k c) wlc Done
             [if Nat.eqb (c + healthyCount rest) 0
              then PlainResponse StatusServiceUnavailable
                                 "UNHEALTHY: No healthy backends"
              else PlainResponse StatusOK "OK"].
Proof.
  induction rest as [|s rest IH]; intros k c Ht Hk.
  - apply skipn_nil_nth in Hk.
    apply (runs_alone_step l t wlc (CountingHealthy k c) wlc Done wlc Done
             [] _ Ht).
    + cbn [request_step]. now rewrite Hk.
    + cbn [request_response]. rewrite Hk. unfold healthyCount.
      cbn [filter List.length written app]. now rewrite Nat.add_0_r.
    + apply runs_alone_refl.
  - destruct (skipn_cons_nth _ _ _ _ Hk) as [Hs Hk'].
    apply (runs_alone_step l t wlc (CountingHealthy k c) wlc
             (CountingHealthy (S k) (if IsHealthy s then S c else c))
             wlc Done
             [if Nat.eqb ((if IsHealthy s then S c else c) + healthyCount rest) 0
              then PlainResponse StatusServiceUnavailable
                                 "UNHEALTHY: No healthy backends"
              else PlainResponse StatusOK "OK"] _ Ht).
    + cbn [request_step]. now rewrite Hs.
    + cbn [request_response]. rewrite Hs. cbn [written app].
      replace (c + healthyCount (s :: rest))%nat
        with ((if IsHealthy s then S c else c) + healthyCount rest)%nat;
        [reflexivity|].
      unfold healthyCount. cbn [filter].
      destruct (IsHealthy s); cbn [List.length]; lia.
    + now apply IH.
Qed.

(** The loads of [handleMetricsEndpoint], run alone. *)
Lemma metrics_alone l t wlc total : forall rest k done,
  (t < List.length l)%nat ->
  skipn k (servers wlc) = rest ->
  runs_alone l t wlc (MetricsLoop total k done) wlc Done
             [MetricsResponse total (List.length (servers wlc))
                              (done ++ map server_metrics rest)].
Proof.
  induction rest as [|s rest IH]; intros k done Ht Hk.
  - apply skipn_nil_nth in Hk.
    apply (runs_alone_step l t wlc (MetricsLoop total k done) wlc Done
             wlc Done [] _ Ht).
    + cbn [request_step]. now rewrite Hk.
    + cbn [request_response]. rewrite Hk. cbn [written app map].
      now rewrite app_nil_r.
    + apply runs_alone_refl.
  - destruct (skipn_cons_nth _ _ _ _ Hk) as [Hs Hk'].
    set (report := [MetricsResponse total (List.length (servers wlc))
                      (done ++ map server_metrics (s :: rest))]).
    assert (forall next entry p1,
               request_step wlc (MetricsEntry total k next entry done)
               = Some (wlc, p1) ->
               runs_alone l t wlc p1 wlc Done report ->
               runs_alone l t wlc (MetricsEntry total k next entry done)
                 wlc Done report) as Hload.
    { intros next entry p1 Hstep Hrest.
      now apply (runs_alone_step l t wlc _ wlc p1 wlc Done report report Ht
                   Hstep). }
    apply (runs_alone_step l t wlc (MetricsLoop total k done) wlc
             (MetricsEntry total k LoadActive
                (mkServerMetrics (URL_Host (URL s)) (IsHealthy s)
                                 (Weight s) 0 0 0 0 zero) done)
             wlc Done report report Ht).
    { cbn [request_step]. now rewrite Hs. }
    { cbn [request_response]. now rewrite Hs. }
    eapply Hload; [cbn [request_step]; rewrite Hs; reflexivity|].
    eapply Hload; [cbn [request_step]; rewrite Hs; reflexivity|].
    eapply Hload; [cbn [request_step]; rewrite Hs; reflexivity|].
    eapply Hload; [cbn [request_step]; rewrite Hs; reflexivity|].
    assert (report
            = [MetricsResponse total (List.length (servers wlc))
                 ((done ++ [server_metrics s]) ++ map server_metrics rest)])
      as -> by (unfold report; cbn [map]; now rewrite <- app_assoc).
    destruct (IsHealthy s) eqn:Hh.
    + eapply Hload; [cbn [request_step]; rewrite Hs, Hh; reflexivity|].
      eapply Hload; [cbn [request_step]; rewrite Hs; reflexivity|].
      replace (server_metrics s)
        with (set_ratio
                (set_last_check
                   (set_failures
                      (set_total
                         (set_active
                            (mkServerMetrics (URL_Host (URL s)) true
                                             (Weight s) 0 0 0 0 zero)
                            (ActiveConnections s)) (RequestCount s))
                      (FailureCount s)) (LastCheckTime s)) (Ratio_loaded s)).
      * now apply IH.
      * unfold server_metrics. rewrite Ratio_loads, Hh. reflexivity.
    + eapply Hload; [cbn [request_step]; rewrite Hs, Hh; reflexivity|].
      replace (server_metrics s)
        with (set_ratio
                (set_last_check
                   (set_failures
                      (set_total
                         (set_active
                            (mkServerMetrics (URL_Host (URL s)) false
                                             (Weight s) 0 0 0 0 zero)
                            (ActiveConnections s)) (RequestCount s))
                      (FailureCount s)) (LastCheckTime s)) lit_1e18).
      * now apply IH.
      * unfold server_metrics. rewrite Ratio_loads, Hh. reflexivity.
Qed.

(** A request that runs alone from its arrival. *)
Lemma enter_alone l t wlc path :
  (t < List.length l)%nat ->
  runs_alone l t wlc (entry_pc wlc path)
             (snd (ServeHTTP_enter wlc path))
             (entered_pc (fst (ServeHTTP_enter wlc path)))
             (entered_response (fst (ServeHTTP_enter wlc path))).
Proof.
  intros Ht. unfold entry_pc, ServeHTTP_enter.
  destruct (reserved_health path).
  { cbn [fst snd entered_pc entered_response]. unfold handleHealthEndpoint.
    now apply (health_alone l t wlc (servers wlc) 0 0 Ht). }
  destruct (reserved_metrics path).
  { cbn [fst snd entered_pc entered_response]. unfold handleMetricsEndpoint.
    apply (runs_alone_step l t wlc MetricsStart wlc
             (MetricsLoop (totalRequests wlc) 0 []) wlc Done
             [MetricsResponse (totalRequests wlc) (List.length (servers wlc))
                              (map server_metrics (servers wlc))]
             _ Ht eq_refl eq_refl).
    now apply (metrics_alone l t wlc (totalRequests wlc) (servers wlc) 0 []). }
  unfold NextServer. destruct (servers wlc) as [|x rest] eqn:Hl.
  - pose proof (dispatch_alone l t wlc None Ht) as H. exact H.
  - destruct (selection_alone l t wlc (x :: rest) 0 None lit_1e18 Ht)
      as (n1 & Hrun1 & Hrs1); [now rewrite Hl|].
    destruct (dispatch_alone l t wlc
                (NextServer_loop 0 (x :: rest) None lit_1e18) Ht)
      as (n2 & Hrun2 & Hrs2).
    exists (n1 + n2)%nat. rewrite repeat_app. split.
    + clear Hrs1 Hrs2. revert Hrun1.
      generalize (mkConcurrent wlc (set_request t (Selecting 0 None lit_1e18) l)).
      induction n1 as [|n1 IH]; intros st Hrun1; cbn [repeat app atomic_run] in *.
      * injection Hrun1 as ->. exact Hrun2.
      * destruct (atomic_step (Advance t) st); [now apply IH|discriminate].
    + clear Hrun2. revert Hrun1 Hrs1.
      generalize (mkConcurrent wlc (set_request t (Selecting 0 None lit_1e18) l)).
      induction n1 as [|n1 IH]; intros st Hrun1 Hrs1;
        cbn [repeat app atomic_run atomic_responses] in *.
      * injection Hrun1 as ->. exact Hrs2.
      * destruct (atomic_step (Advance t) st) as [st1|]; [|discriminate].
        destruct (atomic_response (Advance t) st); [discriminate|].
        now apply IH.
Qed.

Lemma update_server_stores now r l : forall i,
  update_server i (store_healthy (probe_ok r))
    (update_server i (count_probe r)
       (update_server i (store_last_check now) l))
  = update_server i (probe_server now r) l.
Proof.
  induction l as [|x l IH]; intros [|i]; cbn [update_server]; try reflexivity.
  - now rewrite probe_server_stores.
  - now rewrite IH.
Qed.

(** X15: the whole operations are what their atomic operations do when
    nothing runs in between. A request that arrives and executes its
    operations in a row, whatever the other requests in progress, leaves
    the shared state that [ServeHTTP_enter] computes, stands in the reverse
    proxy of the server that function names or has returned with the
    response the function gives (the 503 of the guard, the answer of the
    health endpoint, the metrics report), and has written nothing else;
    when its reverse proxy returns, the shared state is the one of
    [ServeHTTP_exit]; and the three stores of a probe, in a row, are
    [probe_server]. *)
Theorem X15_whole_operations (st : concurrent) :
  (forall path,
      exists n,
        let ops := Arrive path :: repeat (Advance (List.length (requests st))) n in
        let e := ServeHTTP_enter (shared st) path in
        atomic_run ops st
        = Some (mkConcurrent (snd e) (requests st ++ [entered_pc (fst e)])) /\
        atomic_responses ops st = entered_response (fst e)) /\
  (forall t i fwd,
      nth_error (requests st) t = Some (InProxy i) ->
      exists reqs,
        atomic_step (ProxyReturns t fwd) st
        = Some (mkConcurrent (ServeHTTP_exit (shared st) i) reqs) /\
        nth_error reqs t = Some Done /\
        atomic_response (ProxyReturns t fwd) st
        = match fwd with
          | Forwarded status => Some (ProxyResponse status)
          | ForwardPanic => None
          end) /\
  (forall i now r,
      atomic_run [ProbeStart i now; ProbeAnswer i r;
                  ProbeVerdict i (probe_ok r)] st
      = Some (mkConcurrent
                (mkWLC (update_server i (probe_server now r)
                                      (servers (shared st)))
                       (totalRequests (shared st)))
                (requests st))).
Proof.
  split; [|split].
  - intros path. cbv zeta.
    set (l := requests st ++ [entry_pc (shared st) path]).
    assert (List.length (requests st) < List.length l)%nat as Ht
        by (unfold l; rewrite length_app; cbn; lia).
    destruct (enter_alone l (List.length (requests st)) (shared st) path Ht)
      as (n & Hrun & Hrs).
    unfold l in Hrun, Hrs. repeat rewrite set_request_last in Hrun.
    repeat rewrite set_request_last in Hrs.
    exists n. cbn [atomic_run atomic_responses atomic_step atomic_response].
    split; [exact Hrun|exact Hrs].
  - intros t i fwd Hp. cbn [atomic_step atomic_response]. rewrite Hp.
    eexists. split; [reflexivity|]. split.
    + apply nth_error_set_request. apply nth_error_Some. congruence.
    + now destruct fwd.
  - intros i now r. cbn [atomic_run atomic_step]. unfold store.
    cbn [shared requests servers totalRequests].
    now rewrite update_server_stores.
Qed.

Lemma X15_whole_operations_witness :
  exists reqs,
    atomic_step (ProxyReturns 1 ForwardPanic)
      (mkConcurrent (mkWLC [mkServer "http://a" 1 1 4 true 0 0] 4)
                    [Done; InProxy 0])
    = Some (mkConcurrent
              (ServeHTTP_exit (mkWLC [mkServer "http://a" 1 1 4 true 0 0] 4) 0)
              reqs) /\
    nth_error reqs 1 = Some Done /\
    atomic_response (ProxyReturns 1 ForwardPanic)
      (mkConcurrent (mkWLC [mkServer "http://a" 1 1 4 true 0 0] 4)
                    [Done; InProxy 0])
    = None.
Proof.
  apply (proj1 (proj2 (X15_whole_operations
                         (mkConcurrent
                            (mkWLC [mkServer "http://a" 1 1 4 true 0 0] 4)
                            [Done; InProxy 0])))
               1%nat 0%nat ForwardPanic eq_refl).
Defined.

(** ** What the atomic operations leave alone *)

Lemma request_step_preserves {A : Type} (g : Server -> A) wlc p wlc' p' :
  (forall s, g (add_active s) = g s) -> (forall s, g (add_request s) = g s) ->
  request_step wlc p = Some (wlc', p') ->
  map g (servers wlc') = map g (servers wlc).
Proof.
  intros Ha Hr H.
  destruct p as [k b r|k b r|[j|]|j|j|j|j|k n| |total k done
                 |total k next entry done| ];
    cbn [request_step] in H.
  - destruct (nth_error (servers wlc) k) as [sk|]; [|now injection H as <- <-].
    destruct (negb (IsHealthy sk)); now injection H as <- <-.
  - destruct (nth_error (servers wlc) k) as [sk|]; [|discriminate].
    now injection H as <- <-.
  - destruct (nth_error (servers wlc) j) as [sj|]; [|now injection H as <- <-].
    destruct (negb (IsHealthy sj)); now injection H as <- <-.
  - now injection H as <- <-.
  - destruct (nth_error (servers wlc) j) as [sj|]; [|discriminate].
    injection H as <- <-. cbn [servers]. now apply map_update_server.
  - destruct (nth_error (servers wlc) j) as [sj|]; [|discriminate].
    injection H as <- <-. cbn [servers]. now apply map_update_server.
  - now injection H as <- <-.
  - discriminate.
  - destruct (nth_error (servers wlc) k) as [sk|]; now injection H as <- <-.
  - now injection H as <- <-.
  - destruct (nth_error (servers wlc) k) as [sk|]; now injection H as <- <-.
  - destruct (nth_error (servers wlc) k) as [sk|]; [|discriminate].
    destruct next; try (now injection H as <- <-).
    destruct (negb (IsHealthy sk)); now injection H as <- <-.
  - discriminate.
Qed.

Lemma atomic_step_preserves {A : Type} (g : Server -> A) op st st' :
  (forall s, g (add_active s) = g s) -> (forall s, g (add_request s) = g s) ->
  (forall s, g (release s) = g s) ->
  (is_store op = false \/
   forall now r b s, g (store_last_check now s) = g s /\
                     g (count_probe r s) = g s /\
                     g (store_healthy b s) = g s) ->
  atomic_step op st = Some st' ->
  map g (servers (shared st')) = map g (servers (shared st)).
Proof.
  intros Ha Hr Hl Hp Hstep.
  destruct op as [path|t|t fwd|j now|j r|j b]; cbn [atomic_step is_store] in *.
  - now injection Hstep as <-.
  - destruct (nth_error (requests st) t) as [p|]; [|discriminate].
    destruct (request_step (shared st) p) as [[wlc' p']|] eqn:Hreq;
      [|discriminate].
    injection Hstep as <-. cbn [shared].
    now apply (request_step_preserves g _ _ _ _ Ha Hr Hreq).
  - destruct (nth_error (requests st) t) as [[]|]; try discriminate.
    injection Hstep as <-. cbn [shared ServeHTTP_exit servers].
    now apply map_update_server.
  - destruct Hp as [Hp|Hp]; [discriminate|].
    injection Hstep as <-. cbn [store shared servers].
    apply map_update_server. intros s.
    apply (Hp now TransportError true s).
  - destruct Hp as [Hp|Hp]; [discriminate|].
    injection Hstep as <-. cbn [store shared servers].
    apply map_update_server. intros s. apply (Hp 0 r true s).
  - destruct Hp as [Hp|Hp]; [discriminate|].
    injection Hstep as <-. cbn [store shared servers].
    apply map_update_server. intros s. apply (Hp 0 TransportError b s).
Qed.

Lemma atomic_run_preserves {A : Type} (g : Server -> A) ops : forall st st',
  (forall s, g (add_active s) = g s) -> (forall s, g (add_request s) = g s) ->
  (forall s, g (release s) = g s) ->
  (forallb (fun op => negb (is_store op)) ops = true \/
   forall now r b s, g (store_last_check now s) = g s /\
                     g (count_probe r s) = g s /\
                     g (store_healthy b s) = g s) ->
  atomic_run ops st = Some st' ->
  map g (servers (shared st')) = map g (servers (shared st)).
Proof.
  induction ops as [|op ops IH]; intros st st' Ha Hr Hl Hp Hrun.
  - now injection Hrun as <-.
  - cbn [atomic_run] in Hrun.
    destruct (atomic_step op st) as [st1|] eqn:Hstep; [|discriminate].
    assert (is_store op = false \/
            forall now r b s, g (store_last_check now s) = g s /\
                              g (count_probe r s) = g s /\
                              g (store_healthy b s) = g s) as Hp1.
    { destruct Hp as [Hp|Hp]; [left|now right].
      cbn [forallb] in Hp. apply andb_prop in Hp.
      now apply negb_true_iff. }
    assert (forallb (fun op => negb (is_store op)) ops = true \/
            forall now r b s, g (store_last_check now s) = g s /\
                              g (count_probe r s) = g s /\
                              g (store_healthy b s) = g s) as Hp2.
    { destruct Hp as [Hp|Hp]; [left|now right].
      cbn [forallb] in Hp. now apply andb_prop in Hp. }
    rewrite (IH st1 st' Ha Hr Hl Hp2 Hrun).
    now apply (atomic_step_preserves g op st st1).
Qed.

Lemma count_probe_parts r s :
  identity (count_probe r s) = identity s /\
  load_state (count_probe r s) = load_state s.
Proof.
  unfold count_probe. destruct r as [|status]; [now split|].
  now destruct (status =? StatusOK).
Qed.

Lemma atomic_run_length ops st st' :
  atomic_run ops st = Some st' ->
  List.length (servers (shared st')) = List.length (servers (shared st)).
Proof.
  intros Hrun.
  rewrite <- (length_map identity), <- (length_map identity (servers (shared st))).
  f_equal. apply (atomic_run_preserves identity ops st st'); auto.
  right. intros now r b s. split; [reflexivity|]. split; [|reflexivity].
  apply count_probe_parts.
Qed.

(** X17: what each kind of atomic operation leaves alone. Along every
    interleaving of atomic operations the pool keeps its length and every
    position its URL and weight; along the operations of requests (their
    loads and increments, and the returns of the reverse proxy) no health
    flag, failure count or last-check time changes; along the stores of the
    health monitor no connection count, request count or pool-wide counter
    changes and no request moves. *)
Theorem X17_atomic_separation (ops : list operation) (st st' : concurrent) :
  atomic_run ops st = Some st' ->
  map identity (servers (shared st')) = map identity (servers (shared st)) /\
  List.length (servers (shared st')) = List.length (servers (shared st)) /\
  (forallb (fun op => negb (is_store op)) ops = true ->
   map health_state (servers (shared st'))
   = map health_state (servers (shared st))) /\
  (forallb is_store ops = true ->
   map load_state (servers (shared st'))
   = map load_state (servers (shared st)) /\
   totalRequests (shared st') = totalRequests (shared st) /\
   requests st' = requests st).
Proof.
  intros Hrun.
  assert (map identity (servers (shared st'))
          = map identity (servers (shared st))) as Eid.
  { apply (atomic_run_preserves identity ops st st'); auto.
    right. intros now r b s. split; [reflexivity|]. split; [|reflexivity].
    apply count_probe_parts. }
  split; [exact Eid|]. split.
  { now rewrite <- (length_map identity), Eid, length_map. }
  split.
  - intros Hreq. apply (atomic_run_preserves health_state ops st st'); auto.
  - clear Eid. revert st Hrun.
    induction ops as [|op ops IH]; intros st Hrun Hst.
    + injection Hrun as <-. auto.
    + cbn [forallb] in Hst. apply andb_prop in Hst. destruct Hst as [Hop Hst].
      cbn [atomic_run] in Hrun.
      destruct (atomic_step op st) as [st1|] eqn:Hstep; [|discriminate].
      destruct (IH st1 Hrun Hst) as (E1 & E2 & E3).
      rewrite E1, E2, E3.
      destruct op as [path|t|t fwd|j now|j r|j b]; try discriminate;
        cbn [atomic_step] in Hstep; injection Hstep as <-;
        cbn [store shared requests servers totalRequests];
        (split; [|now split]); apply map_update_server; intros s;
        try reflexivity.
      apply count_probe_parts.
Qed.

Lemma X17_atomic_separation_witness :
  map health_state
    (servers (shared
       (mkConcurrent (mkWLC [mkServer "http://a" 0 1 1 true 3 9] 1) [Done])))
  = map health_state [mkServer "http://a" 0 1 0 true 3 9].
Proof.
  refine (proj1 (proj2 (proj2 (X17_atomic_separation
            [Arrive "/x"; Advance 0; Advance 0; Advance 0; Advance 0;
             Advance 0; Advance 0; Advance 0; ProxyReturns 0 ForwardPanic]
            (atomic_start [mkServer "http://a" 0 1 0 true 3 9])
            (mkConcurrent (mkWLC [mkServer "http://a" 0 1 1 true 3 9] 1) [Done])
            _))) _).
  - vm_compute. reflexivity.
  - reflexivity.
Defined.

(** ** Connections held, operation by operation *)

Lemma request_step_active i wlc p wlc' p' s :
  request_step wlc p = Some (wlc', p') ->
  nth_error (servers wlc) i = Some s ->
  (holds i p = true -> holds i p' = true) /\
  exists s',
    nth_error (servers wlc') i = Some s' /\
    ActiveConnections s'
    = if (negb (holds i p) && holds i p')%bool
      then wrap_int32 (ActiveConnections s + 1)
      else ActiveConnections s.
Proof.
  intros H Hs.
  assert (exists s', nth_error (servers wlc) i = Some s' /\
                     ActiveConnections s' = ActiveConnections s)
    as Hsame by (exists s; auto).
  destruct p as [k b r|k b r|[j|]|j|j|j|j|k n| |total k done
                 |total k next entry done| ];
    cbn [request_step] in H; cbn [holds negb andb].
  - split; [discriminate|].
    destruct (nth_error (servers wlc) k) as [sk|]; [|injection H as <- <-; exact Hsame].
    unfold next_best in H.
    destruct (negb (IsHealthy sk)); [|injection H as <- <-; exact Hsame].
    destruct (ltb lit_1e18 r); injection H as <- <-; exact Hsame.
  - split; [discriminate|].
    destruct (nth_error (servers wlc) k) as [sk|]; [|discriminate].
    unfold next_best in H.
    destruct (ltb (Ratio_loaded sk) r); injection H as <- <-; exact Hsame.
  - split; [discriminate|].
    destruct (nth_error (servers wlc) j) as [sj|];
      [|injection H as <- <-; exact Hsame].
    destruct (negb (IsHealthy sj)); injection H as <- <-; exact Hsame.
  - split; [discriminate|]. injection H as <- <-. exact Hsame.
  - split; [discriminate|].
    destruct (nth_error (servers wlc) j) as [sj|]; [|discriminate].
    injection H as <- <-. cbn [holds servers].
    destruct (Nat.eqb_spec i j) as [->|Hne].
    + exists (add_active s). split; [now apply update_server_nth_eq|reflexivity].
    + exists s. rewrite update_server_nth_neq by congruence. now split.
  - destruct (nth_error (servers wlc) j) as [sj|]; [|discriminate].
    injection H as <- <-. cbn [holds servers]. split; [auto|].
    rewrite andb_negb_l.
    destruct (Nat.eq_dec j i) as [->|Hne].
    + exists (add_request s). split; [now apply update_server_nth_eq|reflexivity].
    + exists s. rewrite update_server_nth_neq by congruence. now split.
  - injection H as <- <-. cbn [holds servers]. split; [auto|].
    rewrite andb_negb_l. exact Hsame.
  - discriminate.
  - split; [discriminate|].
    destruct (nth_error (servers wlc) k) as [sk|]; injection H as <- <-;
      exact Hsame.
  - split; [discriminate|]. injection H as <- <-. exact Hsame.
  - split; [discriminate|].
    destruct (nth_error (servers wlc) k) as [sk|]; injection H as <- <-;
      exact Hsame.
  - split; [discriminate|].
    destruct (nth_error (servers wlc) k) as [sk|]; [|discriminate].
    destruct next; try (injection H as <- <-; exact Hsame).
    destruct (negb (IsHealthy sk)); injection H as <- <-; exact Hsame.
  - discriminate.
Qed.

Lemma atomic_step_active i op st st' s :
  atomic_step op st = Some st' ->
  nth_error (servers (shared st)) i = Some s ->
  ActiveConnections s = wrap_int32 (Z.of_nat (held i st)) ->
  exists s',
    nth_error (servers (shared st')) i = Some s' /\
    ActiveConnections s' = wrap_int32 (Z.of_nat (held i st')).
Proof.
  unfold held. intros Hstep Hs Hacc.
  destruct op as [path|t|t fwd|j now|j r|j b]; cbn [atomic_step] in Hstep.
  - injection Hstep as <-. cbn [shared requests]. exists s. split; [exact Hs|].
    rewrite count_requests_app.
    assert (holds i (entry_pc (shared st) path) = false) as ->.
    { unfold entry_pc. destruct (reserved_health path); [reflexivity|].
      destruct (reserved_metrics path); [reflexivity|].
      now destruct (servers (shared st)). }
    now rewrite Nat.add_0_r.
  - destruct (nth_error (requests st) t) as [p|] eqn:Hp; [|discriminate].
    destruct (request_step (shared st) p) as [[wlc' p']|] eqn:Hreq;
      [|discriminate].
    injection Hstep as <-. cbn [shared requests].
    destruct (request_step_active i _ _ _ _ s Hreq Hs) as (Hkeep & s' & Hs' & Ha).
    exists s'. split; [exact Hs'|]. rewrite Ha.
    pose proof (count_requests_set (holds i) _ t p p' Hp) as Hn.
    destruct (holds i p) eqn:Hh.
    + rewrite (Hkeep eq_refl) in *. cbn [negb andb]. rewrite Hacc.
      f_equal. lia.
    + cbn [negb andb]. destruct (holds i p').
      * rewrite Hacc, wrap_int32_add. f_equal. lia.
      * rewrite Hacc. f_equal. lia.
  - destruct (nth_error (requests st) t) as [[]|] eqn:Hp; try discriminate.
    injection Hstep as <-. cbn [shared requests ServeHTTP_exit servers].
    pose proof (count_requests_set (holds i) _ t _ Done Hp) as Hn.
    cbn [holds] in Hn.
    destruct (Nat.eqb_spec i server) as [<-|Hne].
    + exists (release s). split; [now apply update_server_nth_eq|].
      cbn [release ActiveConnections]. rewrite Hacc.
      replace (wrap_int32 (Z.of_nat (count_requests (holds i) (requests st))) - 1)
        with (wrap_int32 (Z.of_nat (count_requests (holds i) (requests st)))
              + (-1)) by lia.
      rewrite wrap_int32_add. f_equal. lia.
    + exists s. rewrite update_server_nth_neq by congruence.
      split; [exact Hs|]. rewrite Hacc. f_equal. lia.
  - injection Hstep as <-. cbn [store shared requests servers].
    destruct (Nat.eq_dec j i) as [->|Hne].
    + exists (store_last_check now s).
      split; [now apply update_server_nth_eq|exact Hacc].
    + exists s. now rewrite update_server_nth_neq.
  - injection Hstep as <-. cbn [store shared requests servers].
    destruct (Nat.eq_dec j i) as [->|Hne].
    + exists (count_probe r s). split; [now apply update_server_nth_eq|].
      rewrite <- Hacc. unfold count_probe.
      destruct r as [|status]; [reflexivity|]. now destruct (status =? StatusOK).
    + exists s. now rewrite update_server_nth_neq.
  - injection Hstep as <-. cbn [store shared requests servers].
    destruct (Nat.eq_dec j i) as [->|Hne].
    + exists (store_healthy b s).
      split; [now apply update_server_nth_eq|exact Hacc].
    + exists s. now rewrite update_server_nth_neq.
Qed.

Lemma atomic_run_active i ops : forall st st' s,
  atomic_run ops st = Some st' ->
  nth_error (servers (shared st)) i = Some s ->
  ActiveConnections s = wrap_int32 (Z.of_nat (held i st)) ->
  exists s',
    nth_error (servers (shared st')) i = Some s' /\
    ActiveConnections s' = wrap_int32 (Z.of_nat (held i st')).
Proof.
  induction ops as [|op ops IH]; intros st st' s Hrun Hs Hacc.
  - injection Hrun as <-. now exists s.
  - cbn [atomic_run] in Hrun.
    destruct (atomic_step op st) as [st1|] eqn:Hstep; [|discriminate].
    destruct (atomic_step_active i op st st1 s Hstep Hs Hacc) as (s1 & Hs1 & Ha1).
    apply (IH st1 st' s1 Hrun Hs1 Ha1).
Qed.

Lemma held_returned i l :
  forallb returned l = true -> count_requests (holds i) l = O.
Proof.
  unfold count_requests. induction l as [|p l IH]; [reflexivity|].
  cbn [forallb filter]. intros H. apply andb_prop in H. destruct H as [Hp Hl].
  destruct p; try discriminate. cbn [holds]. now apply IH.
Qed.

(** X16: the connection count of a server is the number of requests that
    hold a connection to it, operation by operation. From a pool of fresh
    servers, in every state reached by any interleaving of atomic
    operations, the [ActiveConnections] of each server is the number of
    requests that have executed their [ActiveConnections.Add(1)] on it and
    not yet their deferred decrement (as an int32, and exactly while fewer
    than 2^31 requests hold one); once every request has returned, whether
    its reverse proxy returned or panicked, every count is 0. *)
Theorem X16_connections_held (pool : list Server) (ops : list operation)
    (st : concurrent) (i : nat) (s : Server) :
  (forall s0, In s0 pool -> ActiveConnections s0 = 0) ->
  atomic_run ops (atomic_start pool) = Some st ->
  nth_error (servers (shared st)) i = Some s ->
  ActiveConnections s = wrap_int32 (Z.of_nat (held i st)) /\
  (Z.of_nat (held i st) < 2 ^ 31 ->
   ActiveConnections s = Z.of_nat (held i st)) /\
  (forallb returned (requests st) = true -> ActiveConnections s = 0).
Proof.
  intros Hfresh Hrun Hs.
  assert (ActiveConnections s = wrap_int32 (Z.of_nat (held i st))) as Hacc.
  { destruct (nth_error pool i) as [s0|] eqn:Hs0.
    - destruct (atomic_run_active i ops (atomic_start pool) st s0 Hrun Hs0)
        as (s' & Hs' & Ha).
      + rewrite (Hfresh s0 (nth_error_In _ _ Hs0)). reflexivity.
      + congruence.
    - exfalso. apply nth_error_None in Hs0.
      pose proof (atomic_run_length _ _ _ Hrun) as Hlen.
      cbn [atomic_start shared servers NewWeightedLeastConnection] in Hlen.
      assert (i < List.length (servers (shared st)))%nat
        by (apply nth_error_Some; congruence).
      lia. }
  split; [exact Hacc|]. split.
  - intros Hlt. rewrite Hacc. apply wrap_int32_id. unfold int32_range. lia.
  - intros Hdone. rewrite Hacc. unfold held. now rewrite held_returned.
Qed.

Lemma X16_connections_held_witness :
  ActiveConnections (mkServer "http://a" 0 1 2 true 0 0) = 0.
Proof.
  refine (proj2 (proj2 (X16_connections_held
            [mkServer "http://a" 0 1 0 true 0 0]
            [Arrive "/x"; Advance 0; Advance 0; Advance 0; Advance 0;
             Arrive "/y"; Advance 1; Advance 1; Advance 1; Advance 1;
             Advance 0; Advance 1; Advance 1; Advance 0; Advance 1;
             Advance 0; ProxyReturns 1 ForwardPanic;
             ProxyReturns 0 (Forwarded 200)]
            (mkConcurrent (mkWLC [mkServer "http://a" 0 1 2 true 0 0] 2)
                          [Done; Done])
            0%nat (mkServer "http://a" 0 1 2 true 0 0) _ _ _)) _).
  - intros s0 [<-|[]]. reflexivity.
  - vm_compute. reflexivity.
  - reflexivity.
  - reflexivity.
Defined.

